(** * Resilient multi-endpoint orchestrator of [test.py]

    A shallow embedding of the request-orchestration layer of the
    toxicity-prediction service ([src/test.py]): the model status cache, the
    request throttle, the candidate selection and model iteration of
    [call_gemini_with_model_iteration], and the tool-calling loop of the
    [/message] handler.

    Conventions of the embedding.
    - Python dictionaries keyed by model names are [gmap string _], Python sets
      of model names are [gset string].
    - [time.time()] readings and durations are exact rationals ([Q]); the
      floating-point rounding of the interpreter is not modelled.  The wall
      clock is a field of the state: it moves in [time.sleep], during a
      remote call, and by an amount chosen by the environment inside
      [throttle_requests].  One thread runs at a time.
    - Strings are byte strings; [str.lower()] lowers the ASCII letters.
    - A response of the remote API has its [candidates], each with its
      [content.parts]; a function call has its [args] dictionary.
    - Inside the [try] of the handler, the exceptions are the one it raises
      itself after a failed first call, those of an executed tool call (the
      argument binding of [execute_function] and the formatting of
      [probability_toxic]) and the [AttributeError] on a [None] response.
    - Of the printing, the trace keeps the success report of a remote call
      and the two reports that precede [return None, None]; the
      [error_details] traceback of the failure reply is left out. *)

From Stdlib Require Import QArith Lqa ZArith Lia Ascii String.
From stdpp Require Import gmap strings list fin_maps.
From stdpp Require sorting.

Local Open Scope string_scope.
Local Open Scope list_scope.
Local Open Scope Q_scope.

(** ** Time *)

(** [a < b] on timestamps, as a boolean. *)
Definition Qltb (a b : Q) : bool := negb (Qle_bool b a).

(** [int(x)] of a Python float: truncation toward zero. *)
Definition Qtrunc (x : Q) : Z := Z.quot (Qnum x) (Zpos (Qden x)).

(** ** Model status cache *)

Module Cache.

(** [MODEL_STATUS_CACHE]: one field per key of the dictionary. *)
Record ModelStatusCache : Type := mkCache {
  quota_exhausted : gmap string Q;          (* model -> timestamp *)
  rate_limited : gmap string Q;             (* model -> timestamp *)
  not_found : gset string;                  (* permanent failures *)
  other_errors : gmap string (string * Q);  (* model -> (message, timestamp) *)
  working : gset string                     (* known working models *)
}.

(** The cache as created at import time and by [reset_model_cache]. *)
Definition empty_cache : ModelStatusCache :=
  mkCache ∅ ∅ ∅ ∅ ∅.

Definition set_quota_exhausted (f : gmap string Q -> gmap string Q)
    (c : ModelStatusCache) : ModelStatusCache :=
  mkCache (f (quota_exhausted c)) (rate_limited c) (not_found c)
          (other_errors c) (working c).

Definition set_rate_limited (f : gmap string Q -> gmap string Q)
    (c : ModelStatusCache) : ModelStatusCache :=
  mkCache (quota_exhausted c) (f (rate_limited c)) (not_found c)
          (other_errors c) (working c).

Definition set_not_found (f : gset string -> gset string)
    (c : ModelStatusCache) : ModelStatusCache :=
  mkCache (quota_exhausted c) (rate_limited c) (f (not_found c))
          (other_errors c) (working c).

Definition set_other_errors
    (f : gmap string (string * Q) -> gmap string (string * Q))
    (c : ModelStatusCache) : ModelStatusCache :=
  mkCache (quota_exhausted c) (rate_limited c) (not_found c)
          (f (other_errors c)) (working c).

Definition set_working (f : gset string -> gset string)
    (c : ModelStatusCache) : ModelStatusCache :=
  mkCache (quota_exhausted c) (rate_limited c) (not_found c)
          (other_errors c) (f (working c)).

(** [CACHE_EXPIRATION], in seconds. *)
Definition EXPIRATION_quota_exhausted : Q := 3600.
Definition EXPIRATION_rate_limited : Q := 300.
Definition EXPIRATION_other_errors : Q := 1800.

(** The reason returned next to [True]; the number is the
    [int((now - cached_time)/60)] of the formatted text. *)
Inductive reason : Type :=
  | reason_not_found
  | reason_quota_exhausted (minutes : Z)
  | reason_rate_limited (minutes : Z)
  | reason_other_error (minutes : Z).

Definition minutes_ago (now cached_time : Q) : Z :=
  Qtrunc ((now - cached_time) / 60).

(** [is_model_cached_as_failed(model_name)] at clock reading [now]: the
    answer, the reason, and the cache after the lazy deletions. *)
Definition is_model_cached_as_failed (now : Q) (model_name : string)
    (c : ModelStatusCache) : (bool * option reason) * ModelStatusCache :=
  if decide (model_name ∈ not_found c) then ((true, Some reason_not_found), c)
  else
    let check_quota :=
      match quota_exhausted c !! model_name with
      | Some cached_time =>
          if Qltb (now - cached_time) EXPIRATION_quota_exhausted
          then inl (reason_quota_exhausted (minutes_ago now cached_time))
          else inr (set_quota_exhausted (delete model_name) c)
      | None => inr c
      end in
    match check_quota with
    | inl r => ((true, Some r), c)
    | inr c1 =>
        let check_rate :=
          match rate_limited c1 !! model_name with
          | Some cached_time =>
              if Qltb (now - cached_time) EXPIRATION_rate_limited
              then inl (reason_rate_limited (minutes_ago now cached_time))
              else inr (set_rate_limited (delete model_name) c1)
          | None => inr c1
          end in
        match check_rate with
        | inl r => ((true, Some r), c1)
        | inr c2 =>
            match other_errors c2 !! model_name with
            | Some (error_msg, cached_time) =>
                if Qltb (now - cached_time) EXPIRATION_other_errors
                then ((true, Some (reason_other_error
                                     (minutes_ago now cached_time))), c2)
                else ((false, None),
                      set_other_errors (delete model_name) c2)
            | None => ((false, None), c2)
            end
        end
    end.

(** [cache_model_failure(model_name, error_type, error_message)] at clock
    reading [now].  An [error_type] outside the four literals falls through
    the [if]/[elif] chain and leaves the cache as it was. *)
Definition cache_model_failure (now : Q) (model_name error_type : string)
    (error_message : string) (c : ModelStatusCache) : ModelStatusCache :=
  if decide (error_type = "not_found") then
    set_not_found (fun s => {[model_name]} ∪ s) c
  else if decide (error_type = "quota_exhausted") then
    set_quota_exhausted (<[model_name := now]>) c
  else if decide (error_type = "rate_limited") then
    set_rate_limited (<[model_name := now]>) c
  else if decide (error_type = "other_error") then
    set_other_errors (<[model_name := (error_message, now)]>) c
  else c.

(** [cache_model_success(model_name)]. *)
Definition cache_model_success (model_name : string)
    (c : ModelStatusCache) : ModelStatusCache :=
  let c := set_working (fun s => {[model_name]} ∪ s) c in
  let c := set_quota_exhausted (delete model_name) c in
  let c := set_rate_limited (delete model_name) c in
  set_other_errors (delete model_name) c.

(** [reset_model_cache()]. *)
Definition reset_model_cache (c : ModelStatusCache) : ModelStatusCache :=
  empty_cache.

(** [clear_specific_cache(cache_type)]: [None] stands for the error answer
    given for a name that is not a key of the cache. *)
Definition clear_specific_cache (cache_type : string)
    (c : ModelStatusCache) : option ModelStatusCache :=
  if decide (cache_type = "quota_exhausted") then
    Some (set_quota_exhausted (fun _ => ∅) c)
  else if decide (cache_type = "rate_limited") then
    Some (set_rate_limited (fun _ => ∅) c)
  else if decide (cache_type = "other_errors") then
    Some (set_other_errors (fun _ => ∅) c)
  else if decide (cache_type = "not_found") then
    Some (set_not_found (fun _ => ∅) c)
  else if decide (cache_type = "working") then
    Some (set_working (fun _ => ∅) c)
  else None.

(** The boolean answer alone. *)
Definition is_failed (now : Q) (model_name : string)
    (c : ModelStatusCache) : bool :=
  fst (fst (is_model_cached_as_failed now model_name c)).

(** The cache left behind by the query. *)
Definition after_query (now : Q) (model_name : string)
    (c : ModelStatusCache) : ModelStatusCache :=
  snd (is_model_cached_as_failed now model_name c).

(** Membership in one of the three expiring buckets. *)
Definition in_expiring_bucket (model_name : string)
    (c : ModelStatusCache) : Prop :=
  is_Some (quota_exhausted c !! model_name) \/
  is_Some (rate_limited c !! model_name) \/
  is_Some (other_errors c !! model_name).

End Cache.

(** ** Strings *)

(** [str.lower()] on one byte: only the ASCII capitals change. *)
Definition ascii_lower (ch : ascii) : ascii :=
  let n := N_of_ascii ch in
  if ((65 <=? n)%N && (n <=? 90)%N)%bool then ascii_of_N (n + 32) else ch.

Fixpoint lower (s : string) : string :=
  match s with
  | EmptyString => EmptyString
  | String ch rest => String (ascii_lower ch) (lower rest)
  end.

(** [needle in haystack] on Python strings. *)
Fixpoint contains (needle haystack : string) : bool :=
  if String.prefix needle haystack then true
  else match haystack with
       | EmptyString => false
       | String _ rest => contains needle rest
       end.

(** [any(indicator in s for indicator in indicators)]. *)
Definition any_in (indicators : list string) (s : string) : bool :=
  existsb (fun indicator => contains indicator s) indicators.

(** Truth value of a Python string: non-empty. *)
Definition truthy (s : string) : bool :=
  match s with EmptyString => false | String _ _ => true end.

(** ** Conversation data *)

Inductive value : Type :=
  | VNum (q : Q)
  | VStr (s : string)
  | VBool (b : bool).

(** Argument mappings and tool results are dictionaries. *)
Definition arguments : Type := list (string * value).
Definition tool_result : Type := list (string * value).

(** [d.get(key)] on a dictionary kept as a list of pairs. *)
Fixpoint dict_get {A} (key : string) (d : list (string * A)) : option A :=
  match d with
  | [] => None
  | (k, v) :: rest => if String.eqb k key then Some v else dict_get key rest
  end.

(** Truth value of an entry: a number other than zero, a non-empty
    string, [True]. *)
Definition value_truthy (v : value) : bool :=
  match v with
  | VNum q => negb (Qeq_bool q 0)
  | VStr s => truthy s
  | VBool b => b
  end.

(** [def execute_function(function_name, **kwargs)] of [mcp1.py] is called
    as [execute_function(func_name, **func_args)]: the name is bound
    positionally, so keyword arguments that hold the key [function_name] as
    well make the call itself raise a [TypeError], before the body and its
    [try] run.  This is its [str(e)]. *)
Definition multiple_values_message : string :=
  "execute_function() got multiple values for argument 'function_name'".

Definition keyword_clash (kwargs : arguments) : bool :=
  match dict_get "function_name" kwargs with
  | Some _ => true
  | None => false
  end.

Record FunctionCall : Type := mkFunctionCall {
  fc_name : string;
  fc_args : arguments
}.

(** One part of a model response: [part.text] and [part.function_call]
    (either can be [None]). *)
Record Part : Type := mkPart {
  part_text : option string;
  part_function_call : option FunctionCall
}.

(** [response.candidates], each candidate reduced to its [content.parts]. *)
Definition Response : Type := list (list Part).

(** Parts of the turns that the handler appends to the conversation. *)
Inductive ConversationPart : Type :=
  | text_part (s : string)
  | function_call_part (name : string) (args : arguments)
  | function_response_part (name : string) (response : tool_result).

Record Turn : Type := mkTurn {
  role : string;
  parts : list ConversationPart
}.

Definition Conversation : Type := list Turn.

(** An entry of [tool_results]. *)
Record ToolCall : Type := mkToolCall {
  tc_function : string;
  tc_arguments : arguments;
  tc_result : tool_result
}.

(** ** The world around the handler *)

(** What [client.models.generate_content] does: return a response or raise
    an exception whose [str(e)] is [error_str]. *)
Inductive Outcome : Type :=
  | Returned (response : Response)
  | Raised (error_str : string).

(** The environment of one run.  The remote backend is a function of the
    number of remote calls made before, the model and the conversation sent;
    [latency n] is the time the [n]th remote call takes, [lag n] the extra
    time that passes around a [time.sleep] before that call's outcome is
    handled; [execute_function] is the body of the dispatcher of [mcp1.py],
    which returns the failures of the tools as values (the failure of the
    call itself is [keyword_clash]). *)
Record Env : Type := mkEnv {
  generate_content : nat -> string -> Conversation -> Outcome;
  latency : nat -> Q;
  lag : nat -> Q;
  execute_function : string -> arguments -> tool_result
}.

(** Observable effects, in program order: the sleeps, the remote calls
    and their successful returns, and the two reports that precede a
    [return None, None]. *)
Inductive event : Type :=
  | ev_throttle_sleep (wait_time : Q)   (* [time.sleep(wait_time)] *)
  | ev_generate (model : string)        (* a remote call is made *)
  | ev_returned (model : string) (response : Response)
                                        (* "SUCCESS with [model]" *)
  | ev_backoff_sleep (model : string)   (* [time.sleep(10)] after [model] *)
  | ev_no_models                        (* "No models available to try" *)
  | ev_all_failed.                      (* "All available models failed" *)

(** The responses received, and the terminal failures reported, in a
    stretch of the trace. *)
Definition received (tr : list event) : list Response :=
  omap (fun e => match e with
                 | ev_returned _ response => Some response
                 | _ => None
                 end) tr.

Definition is_terminal_failure (e : event) : bool :=
  match e with
  | ev_no_models | ev_all_failed => true
  | _ => false
  end.

(** Events of the throttle and of the start of a remote call. *)
Definition is_quiet (e : event) : Prop :=
  match e with
  | ev_throttle_sleep _ | ev_generate _ => True
  | _ => False
  end.

Definition quiet (tr : list event) : Prop := Forall is_quiet tr.

(** Process-wide state: the cache, the [request_times] deque, the wall
    clock, the number of remote calls made, and the effects so far. *)
Record World : Type := mkWorld {
  cache : Cache.ModelStatusCache;
  request_times : list Q;
  clock : Q;
  calls : nat;
  trace : list event
}.

Definition set_cache (f : Cache.ModelStatusCache -> Cache.ModelStatusCache)
    (w : World) : World :=
  mkWorld (f (cache w)) (request_times w) (clock w) (calls w) (trace w).

Definition set_request_times (f : list Q -> list Q) (w : World) : World :=
  mkWorld (cache w) (f (request_times w)) (clock w) (calls w) (trace w).

(** Time passes. *)
Definition advance (d : Q) (w : World) : World :=
  mkWorld (cache w) (request_times w) (clock w + d) (calls w) (trace w).

Definition emit (e : event) (w : World) : World :=
  mkWorld (cache w) (request_times w) (clock w) (calls w) (trace w ++ [e]).

Definition count_call (w : World) : World :=
  mkWorld (cache w) (request_times w) (clock w) (S (calls w)) (trace w).

(** ** Request throttle *)

Module Pacer.

Definition MIN_REQUEST_INTERVAL : Q := 5.
Definition maxlen : nat := 15.

(** [while request_times and now - request_times[0] > 60: popleft()]. *)
Fixpoint drop_older_than_minute (now : Q) (times : list Q) : list Q :=
  match times with
  | [] => []
  | t :: rest =>
      if Qltb 60 (now - t) then drop_older_than_minute now rest else times
  end.

(** [append] on a [deque(maxlen=15)]: a full deque loses its oldest entry. *)
Definition deque_append (x : Q) (times : list Q) : list Q :=
  let times' := times ++ [x] in
  drop (length times' - maxlen) times'.

(** [throttle_requests()].  [extra] is the time the call takes beyond the
    requested sleep. *)
Definition throttle_requests (extra : Q) (w : World) : World :=
  let now := clock w in
  let w := set_request_times (drop_older_than_minute now) w in
  let w :=
    match last (request_times w) with
    | Some t_last =>
        let time_since_last := now - t_last in
        if Qltb time_since_last MIN_REQUEST_INTERVAL then
          let wait_time := MIN_REQUEST_INTERVAL - time_since_last in
          advance wait_time (emit (ev_throttle_sleep wait_time) w)
        else w
    | None => w
    end in
  let w := advance extra w in
  set_request_times (deque_append (clock w)) w.

(** A world at time 100 in which nothing has happened yet. *)
Definition idle : World :=
  mkWorld Cache.empty_cache [] 100 0 [].

End Pacer.

(** ** Candidate selection *)

(** An entry of [AVAILABLE_MODELS]. *)
Record ModelInfo : Type := mkModelInfo {
  full_name : string;
  short_name : string;
  display_name : string
}.

(** The module-level settings fixed at start-up. *)
Record Config : Type := mkConfig {
  PRIMARY_MODEL : string;
  FALLBACK_MODEL : string;
  AVAILABLE_MODELS : list ModelInfo
}.

Module Selector.

(** The test applied to the lowered display name of a discovered model:
    a text-generation family, and none of the skipped kinds. *)
Definition is_text_generation (display_name : string) : bool :=
  any_in ["gemini"; "gemma"] display_name
  && negb (any_in ["embedding"; "imagen"; "veo"; "tts"; "audio"] display_name).

(** Body of the loop over [AVAILABLE_MODELS]. *)
Definition add_discovered (models_to_try : list string)
    (model_info : ModelInfo) : list string :=
  let model_name := full_name model_info in
  if bool_decide (model_name ∈ models_to_try) then models_to_try
  else if is_text_generation (lower (display_name model_info))
       then models_to_try ++ [model_name]
       else models_to_try.

(** The priority list before the cache filter.  [elements] fixes one
    enumeration of the working set; Python's order is unspecified. *)
Definition priority_list (cfg : Config)
    (c : Cache.ModelStatusCache) : list string :=
  let working_models := elements (Cache.working c) in
  let models_to_try :=
    if truthy (PRIMARY_MODEL cfg)
       && negb (bool_decide (PRIMARY_MODEL cfg ∈ working_models))
    then [PRIMARY_MODEL cfg] else [] in
  let models_to_try := models_to_try ++ working_models in
  let models_to_try :=
    if truthy (FALLBACK_MODEL cfg)
       && negb (bool_decide (FALLBACK_MODEL cfg ∈ models_to_try))
    then models_to_try ++ [FALLBACK_MODEL cfg] else models_to_try in
  fold_left add_discovered (AVAILABLE_MODELS cfg) models_to_try.

(** The filter loop: the models kept, the models skipped with the reason,
    and the cache after the lazy deletions of the queries. *)
Fixpoint filter_cached (now : Q) (models : list string)
    (c : Cache.ModelStatusCache)
    : list string * list (string * option Cache.reason)
      * Cache.ModelStatusCache :=
  match models with
  | [] => ([], [], c)
  | model :: rest =>
      let '((is_failed, why), c1) :=
        Cache.is_model_cached_as_failed now model c in
      let '(kept, skipped, c2) := filter_cached now rest c1 in
      if is_failed then (kept, (model, why) :: skipped, c2)
      else (model :: kept, skipped, c2)
  end.

(** The list [models_to_try] that the iteration walks. *)
Definition models_to_try (cfg : Config) (now : Q)
    (c : Cache.ModelStatusCache) : list string :=
  fst (fst (filter_cached now (priority_list cfg c) c)).

(** The text-generation test on an entry of [AVAILABLE_MODELS]. *)
Definition capable (model_info : ModelInfo) : bool :=
  is_text_generation (lower (display_name model_info)).

(** [if name not in models_to_try: models_to_try.append(name)]. *)
Definition add_name (models_to_try : list string) (name : string)
    : list string :=
  if bool_decide (name ∈ models_to_try) then models_to_try
  else models_to_try ++ [name].

(** A discovery list as the service sees it at start-up, and the settings
    drawn from it; used as a test input. *)
Definition example_discovered : list ModelInfo :=
  [ mkModelInfo "models/gemini-embedding-001" "gemini-embedding"
                "gemini-embedding-001";
    mkModelInfo "models/gemini-2.5-flash" "gemini-2.5" "gemini-2.5-flash";
    mkModelInfo "models/imagen-4.0-generate-001" "imagen-4.0-generate"
                "imagen-4.0-generate-001";
    mkModelInfo "models/gemini-2.0-flash" "gemini-2.0" "gemini-2.0-flash";
    mkModelInfo "models/gemma-3-27b-it" "gemma-3-27b" "gemma-3-27b-it";
    mkModelInfo "models/gemini-2.5-flash-preview-tts"
                "gemini-2.5-flash-preview" "gemini-2.5-flash-preview-tts";
    mkModelInfo "models/gemini-2.5-pro" "gemini-2.5" "gemini-2.5-pro";
    mkModelInfo "models/veo-3.0-generate-001" "veo-3.0-generate"
                "veo-3.0-generate-001";
    mkModelInfo "models/gemini-2.5-flash-native-audio-latest"
                "gemini-2.5-flash-native-audio"
                "gemini-2.5-flash-native-audio-latest";
    mkModelInfo "models/aqa" "" "aqa" ].

Definition example_config : Config :=
  mkConfig "models/gemini-2.5-flash" "models/gemini-2.0-flash"
           example_discovered.

End Selector.

(** ** Model iteration *)

Module Executor.

Definition rate_limit_indicators : list string :=
  ["429"; "resource_exhausted"; "quota"; "rate limit"; "too many requests"].

Definition not_found_indicators : list string :=
  ["404"; "not_found"; "not found"; "is not found"].

Definition is_rate_limit (error_str : string) : bool :=
  any_in rate_limit_indicators (lower error_str).

Definition is_not_found (error_str : string) : bool :=
  any_in not_found_indicators (lower error_str).

Definition is_quota_exhausted (error_str : string) : bool :=
  contains "limit: 0" (lower error_str).

(** [time.sleep(10)] after a rate-limited model. *)
Definition BACKOFF : Q := 10.

(** The [except] branch for [model], the [model_index]th of [total]. *)
Definition handle_failure (env : Env) (model_index total : nat)
    (model error_str : string) (w : World) : World :=
  let now := clock w in
  if is_not_found error_str then
    set_cache (Cache.cache_model_failure now model "not_found" "") w
  else if is_quota_exhausted error_str then
    set_cache (Cache.cache_model_failure now model "quota_exhausted" "") w
  else if is_rate_limit error_str then
    let w :=
      set_cache (Cache.cache_model_failure now model "rate_limited" "") w in
    if bool_decide (model_index < total)%nat then
      advance (BACKOFF + lag env (calls w)) (emit (ev_backoff_sleep model) w)
    else w
  else
    set_cache (Cache.cache_model_failure now model "other_error"
                 (substring 0 200 error_str)) w.

(** One round of the [for] loop: throttle, call, then record the success
    and return the response, or handle the exception. *)
Definition try_model (env : Env) (contents : Conversation)
    (model_index total : nat) (model : string) (w : World)
    : option Response * World :=
  let n := calls w in
  let w := Pacer.throttle_requests (lag env n) w in
  let outcome := generate_content env n model contents in
  let w := advance (latency env n) (count_call (emit (ev_generate model) w)) in
  match outcome with
  | Returned response =>
      let w := emit (ev_returned model response) w in
      (Some response, set_cache (Cache.cache_model_success model) w)
  | Raised error_str =>
      (None, handle_failure env model_index total model error_str w)
  end.

(** [for model_index, model in enumerate(models_to_try, 1)]. *)
Fixpoint try_models (env : Env) (contents : Conversation)
    (model_index total : nat) (models : list string) (w : World)
    : option (Response * string) * World :=
  match models with
  | [] => (None, w)
  | model :: rest =>
      match try_model env contents model_index total model w with
      | (Some response, w1) => (Some (response, model), w1)
      | (None, w1) => try_models env contents (S model_index) total rest w1
      end
  end.

(** [call_gemini_with_model_iteration(contents, config)]: [None] stands
    for the pair [(None, None)]. *)
Definition call_gemini_with_model_iteration (env : Env) (cfg : Config)
    (contents : Conversation) (w : World)
    : option (Response * string) * World :=
  let priority := Selector.priority_list cfg (cache w) in
  let '(models_to_try, skipped_models, c) :=
    Selector.filter_cached (clock w) priority (cache w) in
  let w := set_cache (fun _ => c) w in
  match models_to_try with
  | [] => (None, emit ev_no_models w)
  | _ =>
      match try_models env contents 1 (length models_to_try)
                       models_to_try w with
      | (Some found, w) => (Some found, w)
      | (None, w) => (None, emit ev_all_failed w)
      end
  end.

(** *** The classification policy, in the words of the design *)

Inductive FailureKind : Type :=
  | NOT_FOUND
  | QUOTA_EXHAUSTED
  | RATE_LIMITED
  | OTHER.

#[global] Instance FailureKind_eq_dec : EqDecision FailureKind.
Proof. solve_decision. Defined.

(** Checked in this order: an explicit not-found marker, then the explicit
    zero-quota marker, then a generic rate, quota or too-many-requests
    marker; anything else is [OTHER]. *)
Definition classify (error_str : string) : FailureKind :=
  let s := lower error_str in
  if any_in ["404"; "not_found"; "not found"; "is not found"] s
  then NOT_FOUND
  else if contains "limit: 0" s then QUOTA_EXHAUSTED
  else if any_in ["429"; "resource_exhausted"; "quota"; "rate limit";
                  "too many requests"] s
  then RATE_LIMITED
  else OTHER.

(** The record that a failure of the kind leaves in the cache. *)
Definition record_kind (kind : FailureKind) (now : Q)
    (model error_str : string) (c : Cache.ModelStatusCache)
    : Cache.ModelStatusCache :=
  match kind with
  | NOT_FOUND => Cache.set_not_found (fun s => {[model]} ∪ s) c
  | QUOTA_EXHAUSTED => Cache.set_quota_exhausted (<[model := now]>) c
  | RATE_LIMITED => Cache.set_rate_limited (<[model := now]>) c
  | OTHER =>
      Cache.set_other_errors
        (<[model := (substring 0 200 error_str, now)]>) c
  end.

(** The model has a record in the bucket of the kind. *)
Definition recorded_as (kind : FailureKind) (model : string)
    (c : Cache.ModelStatusCache) : Prop :=
  match kind with
  | NOT_FOUND => model ∈ Cache.not_found c
  | QUOTA_EXHAUSTED => is_Some (Cache.quota_exhausted c !! model)
  | RATE_LIMITED => is_Some (Cache.rate_limited c !! model)
  | OTHER => is_Some (Cache.other_errors c !! model)
  end.

(** *** A scripted backend, used as a test input *)

Definition text_response (s : string) : Response :=
  [[mkPart (Some s) None]].

(** Model [A] always hits a rate limit, every other model answers. *)
Definition limited_A (n : nat) (model : string) (contents : Conversation)
    : Outcome :=
  if bool_decide (model = "A")
  then Raised "429 RESOURCE_EXHAUSTED: rate limit reached"
  else Returned (text_response "ok").

Definition limited_A_env : Env :=
  mkEnv limited_A (fun _ => 1) (fun _ => 0) (fun _ _ => []).

End Executor.

(** ** The [/message] handler *)

Module Handler.

Definition max_iterations : nat := 3.

(** The variables updated while the parts of a response are scanned. *)
Record Scan : Type := mkScan {
  final_text : string;
  has_function_call : bool;
  tool_results : list ToolCall;
  function_responses : list ConversationPart
}.

(** The call [execute_function(func_name, **func_args)] of the handler:
    the dictionary returned, or the [str(e)] of the exception raised. *)
Definition call_execute_function (env : Env) (func_name : string)
    (func_args : arguments) : tool_result + string :=
  if keyword_clash func_args then inr multiple_values_message
  else inl (execute_function env func_name func_args).

(** [str(e)] of the [ValueError] that [f"{x:.3f}"] raises on a string. *)
Definition format_code_message : string :=
  "Unknown format code 'f' for object of type 'str'".

(** The prints that follow the call; only
    [f"{result['probability_toxic']:.3f}"], reached when
    [result.get("success")] is true and the key is present, can raise. *)
Definition print_result (result : tool_result) : option string :=
  match dict_get "success" result with
  | Some v =>
      if value_truthy v then
        match dict_get "probability_toxic" result with
        | Some (VStr _) => Some format_code_message
        | _ => None
        end
      else None
  | None => None
  end.

(** Body of the loop over the parts of the candidates: the variables
    after the part, and the [str(e)] of an exception that leaves the loop
    at this part.  [has_function_call] is set before the call is made;
    the two [append]s happen after the prints. *)
Definition scan_part (env : Env) (s : Scan) (p : Part)
    : Scan * option string :=
  let s :=
    match part_text p with
    | Some t =>
        if truthy t
        then mkScan t (has_function_call s) (tool_results s)
                    (function_responses s)
        else s
    | None => s
    end in
  match part_function_call p with
  | Some call =>
      let s :=
        mkScan (final_text s) true (tool_results s) (function_responses s) in
      let func_name := fc_name call in
      let func_args := fc_args call in
      match call_execute_function env func_name func_args with
      | inr error => (s, Some error)
      | inl result =>
          match print_result result with
          | Some error => (s, Some error)
          | None =>
              (mkScan (final_text s) true
                 (tool_results s ++ [mkToolCall func_name func_args result])
                 (function_responses s
                    ++ [function_response_part func_name result]),
               None)
          end
      end
  | None => (s, None)
  end.

(** The two [for] loops, flattened: the scan stops at the first part that
    raises. *)
Fixpoint scan_parts (env : Env) (ps : list Part) (s : Scan)
    : Scan * option string :=
  match ps with
  | [] => (s, None)
  | p :: ps' =>
      match scan_part env s p with
      | (s', None) => scan_parts env ps' s'
      | (s', Some error) => (s', Some error)
      end
  end.

Definition scan_response (env : Env) (response : Response) (s : Scan)
    : Scan * option string :=
  scan_parts env (concat response) s.

(** [tool_results[-len(function_responses):]]; a slice from [-0] is the
    whole list. *)
Definition last_calls (n : nat) (results : list ToolCall) : list ToolCall :=
  match n with
  | O => results
  | _ => drop (length results - n) results
  end.

(** The two turns appended before the follow-up request. *)
Definition extend_conversation (conversation : Conversation)
    (results : list ToolCall) (responses : list ConversationPart)
    : Conversation :=
  conversation
  ++ [mkTurn "model"
        (map (fun call =>
                function_call_part (tc_function call) (tc_arguments call))
             (last_calls (length responses) results))]
  ++ [mkTurn "user" responses].

(** State of the handler when the [while] loop is left: [loop_response] is
    the variable [response], which the failed follow-up call sets to
    [None]; [loop_exception] is the [str(e)] of the exception that left the
    loop, if one did. *)
Record LoopExit : Type := mkLoopExit {
  loop_iteration : nat;
  loop_response : option Response;
  loop_final_text : string;
  loop_tool_results : list ToolCall;
  loop_conversation : Conversation;
  loop_exception : option string
}.

(** [while iteration < max_iterations]: [rounds_left] is
    [max_iterations - iteration], so the guard is the match on it. *)
Fixpoint conversation_loop (env : Env) (cfg : Config) (rounds_left : nat)
    (iteration : nat) (response : Response) (text : string)
    (results : list ToolCall) (conversation : Conversation) (w : World)
    : LoopExit * World :=
  match rounds_left with
  | O =>
      (mkLoopExit iteration (Some response) text results conversation None,
       w)
  | S rounds_left' =>
      let iteration := S iteration in
      match scan_response env response (mkScan text false results []) with
      | (s, Some error) =>
          (mkLoopExit iteration (Some response) (final_text s)
                      (tool_results s) conversation (Some error), w)
      | (s, None) =>
          if negb (has_function_call s) then
            (mkLoopExit iteration (Some response) (final_text s)
                        (tool_results s) conversation None, w)
          else
            let conversation :=
              extend_conversation conversation (tool_results s)
                                  (function_responses s) in
            match Executor.call_gemini_with_model_iteration
                    env cfg conversation w with
            | (None, w1) =>
                (mkLoopExit iteration None (final_text s) (tool_results s)
                            conversation None, w1)
            | (Some (response', model_used), w1) =>
                conversation_loop env cfg rounds_left' iteration response'
                                  (final_text s) (tool_results s)
                                  conversation w1
            end
      end
  end.

(** [if part.text: final_text = part.text]. *)
Definition text_step (text : string) (p : Part) : string :=
  match part_text p with
  | Some t => if truthy t then t else text
  | None => text
  end.

(** The two loops after the [while]: the last non-empty text wins. *)
Definition extract_final_text (response : Response) (text : string) : string :=
  fold_left text_step (concat response) text.

(** The JSON object returned to the client; the failure object has no
    [iterations] key. *)
Record Reply : Type := mkReply {
  success : bool;
  reply_text : string;
  tool_calls : list ToolCall;
  iterations : option nat
}.

(** The [except Exception as e] branch, from [str(e)]. *)
Definition error_reply (message : string) : Reply :=
  mkReply false ("Error: " +:+ message) [] None.

Definition no_models_message : string :=
  "❌ No available models could handle the request. All models failed.".

(** [str(e)] of the [AttributeError] raised by [response.candidates] when
    [response] is [None]. *)
Definition none_candidates_message : string :=
  "'NoneType' object has no attribute 'candidates'".

(** [message(msg)]: every exception raised inside the [try] (the one the
    handler raises itself after a failed first call, one raised while a
    tool call is executed, the [AttributeError] on a [None] response) ends
    in the [except] branch. *)
Definition message (env : Env) (cfg : Config) (msg_text : string)
    (w : World) : Reply * World :=
  let conversation := [mkTurn "user" [text_part msg_text]] in
  match Executor.call_gemini_with_model_iteration env cfg conversation w with
  | (None, w1) => (error_reply no_models_message, w1)
  | (Some (response, model_used), w1) =>
      let '(exit, w2) :=
        conversation_loop env cfg max_iterations 0 response "" []
                          conversation w1 in
      match loop_exception exit with
      | Some error => (error_reply error, w2)
      | None =>
          match loop_response exit with
          | None => (error_reply none_candidates_message, w2)
          | Some response =>
              (mkReply true
                       (extract_final_text response (loop_final_text exit))
                       (loop_tool_results exit)
                       (Some (loop_iteration exit)), w2)
          end
      end
  end.

(** *** Scripted runs, used as test inputs *)

Definition tool_request : Part :=
  mkPart None
    (Some (mkFunctionCall "predict_toxicity_without_family"
             [("ParticleSize", VNum 5); ("Dose", VNum 25)])).

(** A backend that requests a tool call in every response. *)
Definition always_tool_env : Env :=
  mkEnv (fun _ _ _ => Returned [[tool_request]])
        (fun _ => 1) (fun _ => 0)
        (fun _ _ => [("success", VBool true)]).

(** A backend whose first response carries a text and a tool request, and
    which fails every later call with a server error. *)
Definition followup_fails_env : Env :=
  mkEnv (fun n _ _ =>
           match n with
           | O => Returned [[mkPart (Some "Running the model.") None;
                             tool_request]]
           | S _ => Raised "500 INTERNAL. An internal error has occurred."
           end)
        (fun _ => 1) (fun _ => 0)
        (fun _ _ => [("success", VBool true)]).

(** A backend whose response requests a tool with an argument named
    [function_name]. *)
Definition clash_request : Part :=
  mkPart (Some "Checking.")
    (Some (mkFunctionCall "predict_toxicity_without_family"
             [("function_name", VStr "predict_toxicity_with_family");
              ("Dose", VNum 25)])).

Definition clash_env : Env :=
  mkEnv (fun _ _ _ => Returned [[clash_request]])
        (fun _ => 1) (fun _ => 0)
        (fun _ _ => [("success", VBool true)]).

(** Two configured models, nothing discovered. *)
Definition two_models : Config :=
  mkConfig "models/gemini-2.5-flash" "models/gemini-2.0-flash" [].

(** The run of the handler against [followup_fails_env], up to the exit of
    the loop. *)
Definition followup_conversation : Conversation :=
  [mkTurn "user" [text_part "Is a 5 nm carbon dot toxic?"]].

Definition followup_first : option (Response * string) * World :=
  Executor.call_gemini_with_model_iteration followup_fails_env two_models
    followup_conversation Pacer.idle.

Definition followup_loop : option LoopExit :=
  match fst followup_first with
  | Some (response, _) =>
      Some (fst (conversation_loop followup_fails_env two_models
                   max_iterations 0 response "" [] followup_conversation
                   (snd followup_first)))
  | None => None
  end.

End Handler.

(** ** Vocabulary of the cache properties *)

Module CacheOps.
Import Cache.

(** The three failure kinds whose records expire, with the [error_type]
    literal that [call_gemini_with_model_iteration] passes for each. *)
Inductive expiring_kind : Type :=
  | quota_kind
  | rate_kind
  | other_kind.

#[global] Instance expiring_kind_eq_dec : EqDecision expiring_kind.
Proof. solve_decision. Defined.

Definition error_type_of (k : expiring_kind) : string :=
  match k with
  | quota_kind => "quota_exhausted"
  | rate_kind => "rate_limited"
  | other_kind => "other_error"
  end.

(** The entry of [CACHE_EXPIRATION] consulted for the kind. *)
Definition expiry (k : expiring_kind) : Q :=
  match k with
  | quota_kind => EXPIRATION_quota_exhausted
  | rate_kind => EXPIRATION_rate_limited
  | other_kind => EXPIRATION_other_errors
  end.

(** The timestamp stored for the model in the bucket of the kind. *)
Definition recorded_at (k : expiring_kind) (c : ModelStatusCache)
    (model_name : string) : option Q :=
  match k with
  | quota_kind => quota_exhausted c !! model_name
  | rate_kind => rate_limited c !! model_name
  | other_kind => snd <$> other_errors c !! model_name
  end.

(** Whether a stored timestamp is still within its expiry at [now]. *)
Definition freshb (limit now : Q) (o : option Q) : bool :=
  match o with
  | Some cached_time => Qltb (now - cached_time) limit
  | None => false
  end.

(** A record of kind [k] for the model that has not expired at [now]. *)
Definition unexpired (k : expiring_kind) (now : Q) (model_name : string)
    (c : ModelStatusCache) : Prop :=
  exists cached_time,
    recorded_at k c model_name = Some cached_time
    /\ now - cached_time < expiry k.

(** The operations that touch the cache, as calls of the functions above. *)
Inductive cache_op : Type :=
  | op_failure (now : Q) (model_name error_type error_message : string)
  | op_success (model_name : string)
  | op_query (now : Q) (model_name : string)
  | op_reset
  | op_clear (cache_type : string).

Definition apply_op (c : ModelStatusCache) (op : cache_op)
    : ModelStatusCache :=
  match op with
  | op_failure now model_name error_type error_message =>
      cache_model_failure now model_name error_type error_message c
  | op_success model_name => cache_model_success model_name c
  | op_query now model_name => after_query now model_name c
  | op_reset => reset_model_cache c
  | op_clear cache_type =>
      match clear_specific_cache cache_type c with
      | Some c' => c'
      | None => c
      end
  end.

Definition run_ops (ops : list cache_op) (c : ModelStatusCache)
    : ModelStatusCache :=
  fold_left apply_op ops c.

(** Operations that can empty the [not_found] set. *)
Definition is_reset (op : cache_op) : bool :=
  match op with
  | op_reset => true
  | op_clear cache_type => bool_decide (cache_type = "not_found")
  | _ => false
  end.

(** Two concrete caches used as test inputs. *)

(** A cache in which the model [m] was found missing at time 0. *)
Definition missing_m : ModelStatusCache :=
  cache_model_failure 0 "m" "not_found" "" empty_cache.

(** The cache after [m] succeeded and then hit a rate limit at time 1. *)
Definition worked_then_limited : ModelStatusCache :=
  run_ops [op_success "m"; op_failure 1 "m" "rate_limited" ""] empty_cache.

End CacheOps.


(** ** Cache status reports *)

Module Status.
Import Cache.

(** [max(0, int((timestamp + CACHE_EXPIRATION[...] - now) / 60))]. *)
Definition expires_in_minutes (expiration now timestamp : Q) : Z :=
  Z.max 0 (Qtrunc ((timestamp + expiration - now) / 60)).

(** The per-model entries of the detailed status. *)
Record TimedEntry : Type := mkTimedEntry {
  cached_at : Q;
  entry_expires_in_minutes : Z
}.

Record ErrorEntry : Type := mkErrorEntry {
  error : string;
  error_cached_at : Q;
  error_expires_in_minutes : Z
}.

(** The dictionary returned by [get_cache_status()]; the constant
    [cache_expiration_settings] entry is left out. *)
Record DetailedStatus : Type := mkDetailedStatus {
  status_working_models : list string;
  status_quota_exhausted : gmap string TimedEntry;
  status_rate_limited : gmap string TimedEntry;
  status_not_found : list string;
  status_other_errors : gmap string ErrorEntry
}.

(** [get_cache_status()] at clock reading [now]. *)
Definition get_cache_status (now : Q) (c : ModelStatusCache)
    : DetailedStatus :=
  mkDetailedStatus
    (elements (working c))
    ((fun timestamp =>
        mkTimedEntry timestamp
          (expires_in_minutes EXPIRATION_quota_exhausted now timestamp))
       <$> quota_exhausted c)
    ((fun timestamp =>
        mkTimedEntry timestamp
          (expires_in_minutes EXPIRATION_rate_limited now timestamp))
       <$> rate_limited c)
    (elements (not_found c))
    ((fun '(error_msg, timestamp) =>
        mkErrorEntry error_msg timestamp
          (expires_in_minutes EXPIRATION_other_errors now timestamp))
       <$> other_errors c).

(** The [cache_status] counts of [health_check()]. *)
Record CacheCounts : Type := mkCacheCounts {
  count_working_models : nat;
  count_quota_exhausted : nat;
  count_rate_limited : nat;
  count_not_found : nat;
  count_other_errors : nat
}.

Definition cache_counts (c : ModelStatusCache) : CacheCounts :=
  mkCacheCounts (size (working c)) (size (quota_exhausted c))
                (size (rate_limited c)) (size (not_found c))
                (size (other_errors c)).

End Status.

(** ** Vocabulary of the further properties *)

(** The models of the remote calls made in a stretch of the trace. *)
Definition generated (tr : list event) : list string :=
  omap (fun e => match e with
                 | ev_generate model => Some model
                 | _ => None
                 end) tr.

(** The age at which a record of the kind stops excluding its model:
    [CACHE_EXPIRATION] for the three expiring kinds, never for
    [NOT_FOUND]. *)
Definition still_excluded (kind : Executor.FailureKind) (age : Q) : Prop :=
  match kind with
  | Executor.NOT_FOUND => True
  | Executor.QUOTA_EXHAUSTED => age < Cache.EXPIRATION_quota_exhausted
  | Executor.RATE_LIMITED => age < Cache.EXPIRATION_rate_limited
  | Executor.OTHER => age < Cache.EXPIRATION_other_errors
  end.

(** The function calls requested in a response, in the order of its
    parts. *)
Definition calls_of (response : Response) : list FunctionCall :=
  omap part_function_call (concat response).

(** The exception, if any, that leaves the handler's loop when it
    executes one requested call: that of the call itself or that of the
    prints after it. *)
Definition call_exception (env : Env) (call : FunctionCall)
    : option string :=
  match Handler.call_execute_function env (fc_name call) (fc_args call) with
  | inr error => Some error
  | inl result => Handler.print_result result
  end.

(** The first exception among the calls of a response, and among the
    responses of a list. *)
Definition response_exception (env : Env) (response : Response)
    : option string :=
  head (omap (call_exception env) (calls_of response)).

Definition first_exception (env : Env) (responses : list Response)
    : option string :=
  head (omap (response_exception env) responses).

(** The entry of [tool_results] that one executed call leaves. *)
Definition run_call (env : Env) (call : FunctionCall) : ToolCall :=
  mkToolCall (fc_name call) (fc_args call)
             (execute_function env (fc_name call) (fc_args call)).

(** A model known to be missing on both configured endpoints. *)
Definition both_missing : Cache.ModelStatusCache :=
  Cache.cache_model_failure 0 "models/gemini-2.0-flash" "not_found" ""
    (Cache.cache_model_failure 0 "models/gemini-2.5-flash" "not_found" ""
       Cache.empty_cache).

(** The two parts that one executed call contributes to the
    conversation. *)
Definition call_part (call : FunctionCall) : ConversationPart :=
  function_call_part (fc_name call) (fc_args call).

Definition response_part (env : Env) (call : FunctionCall)
    : ConversationPart :=
  function_response_part (fc_name call)
    (execute_function env (fc_name call) (fc_args call)).

(** The turns that follow a response: none when it requests no call or
    when executing one of its calls raises, else the model turn with the
    calls and the user turn with their results. *)
Definition follow_up_turns (env : Env) (response : Response) : list Turn :=
  match response_exception env response with
  | Some _ => []
  | None =>
      match calls_of response with
      | [] => []
      | calls => [mkTurn "model" (map call_part calls);
                  mkTurn "user" (map (response_part env) calls)]
      end
  end.

(** The log entries of the calls requested in a list of responses. *)
Definition tool_log (env : Env) (responses : list Response)
    : list ToolCall :=
  flat_map (fun response => map (run_call env) (calls_of response))
           responses.

(** ** Start-up: discovery of the models *)

Module Startup.

(** [s.split(sep)] for a one-character separator. *)
Fixpoint split (sep : ascii) (s : string) : list string :=
  match s with
  | EmptyString => [EmptyString]
  | String ch rest =>
      if Ascii.eqb ch sep then EmptyString :: split sep rest
      else match split sep rest with
           | [] => [String ch EmptyString]
           | segment :: segments => String ch segment :: segments
           end
  end.

(** [sep.join(l)]. *)
Fixpoint join (sep : string) (l : list string) : string :=
  match l with
  | [] => EmptyString
  | x :: rest =>
      match rest with
      | [] => x
      | _ => x +:+ sep +:+ join sep rest
      end
  end.

(** [s.split(sep)[-1]]. *)
Definition last_segment (sep : ascii) (s : string) : string :=
  List.last (split sep s) EmptyString.

(** The dictionary appended to [AVAILABLE_MODELS] for a listed model. *)
Definition make_info (model_name : string) : ModelInfo :=
  mkModelInfo
    model_name
    (join "-" (removelast (split "-" (last_segment "/" model_name))))
    (last_segment "/" model_name).

Definition priority_models : list string :=
  ["gemini-2.5-flash"; "gemini-2.5-pro"; "gemini-2.0-flash";
   "gemini-2.0-flash-001"; "gemini-2.0-flash-exp"].

Definition fallback_candidates : list string :=
  ["gemini-2.0-flash"; "gemini-2.5-pro"; "gemini-2.0-flash-001";
   "gemini-flash-latest"; "gemini-pro-latest"].

Definition DEFAULT_PRIMARY : string := "models/gemini-2.5-flash".
Definition DEFAULT_FALLBACK : string := "models/gemini-2.0-flash".

(** Truth value of a variable that holds [None] or a string. *)
Definition truthy_opt (o : option string) : bool :=
  match o with
  | Some s => truthy s
  | None => false
  end.

(** [wanted in m["display_name"].lower()]. *)
Definition display_matches (wanted : string) (m : ModelInfo) : bool :=
  contains wanted (lower (display_name m)).

(** The loop that sets [PRIMARY_MODEL]: for each priority, the first
    listed model whose display name contains it; the outer loop stops once
    the variable is truthy. *)
Fixpoint find_primary (priorities : list string)
    (available : list ModelInfo) (current : option string)
    : option string :=
  match priorities with
  | [] => current
  | priority :: rest =>
      let current :=
        match List.find (display_matches priority) available with
        | Some m => Some (full_name m)
        | None => current
        end in
      if truthy_opt current then current
      else find_primary rest available current
  end.

(** The loop that sets [FALLBACK_MODEL]; [primary] is [PRIMARY_MODEL] as
    the first loop left it, [None] compares unequal to every name. *)
Fixpoint find_fallback (candidates : list string)
    (available : list ModelInfo) (primary current : option string)
    : option string :=
  match candidates with
  | [] => current
  | candidate :: rest =>
      let current :=
        match List.find
                (fun m => display_matches candidate m
                          && negb (bool_decide (Some (full_name m) = primary)))
                available with
        | Some m => Some (full_name m)
        | None => current
        end in
      if truthy_opt current then current
      else find_fallback rest available primary current
  end.

(** The start-up block: [listed] are the names that [client.models.list()]
    yields, [raised] tells whether it then raises.  The result holds
    [PRIMARY_MODEL], [FALLBACK_MODEL] and [AVAILABLE_MODELS]. *)
Definition startup (listed : list string) (raised : bool) : Config :=
  let available := map make_info listed in
  if raised then mkConfig DEFAULT_PRIMARY DEFAULT_FALLBACK available
  else
    let primary := find_primary priority_models available None in
    let fallback :=
      find_fallback fallback_candidates available primary None in
    mkConfig
      (match primary with
       | Some p => if truthy p then p else DEFAULT_PRIMARY
       | None => DEFAULT_PRIMARY
       end)
      (match fallback with
       | Some f => if truthy f then f else DEFAULT_FALLBACK
       | None => DEFAULT_FALLBACK
       end)
      available.

(** A listing in which a speech model comes before the chat models. *)
Definition example_listing : list string :=
  ["models/gemini-2.5-flash-preview-tts"; "models/gemini-2.5-pro";
   "models/gemini-2.5-flash"; "models/gemini-2.0-flash"].

End Startup.

(** ** Health report *)

Module Health.

(** The answer of [health_check()]; a model entry is [None] when the
    setting is empty. *)
Record HealthReport : Type := mkHealthReport {
  health_status : string;
  models_loaded : bool;
  tools_available : list string;
  cache_status : Status.CacheCounts;
  primary_model : option string;
  fallback_model : option string
}.

Definition health_check (cfg : Config) (c : Cache.ModelStatusCache)
    : HealthReport :=
  mkHealthReport
    "healthy" true
    ["predict_toxicity_without_family"; "predict_toxicity_with_family";
     "explain_toxicity_prediction_without_family";
     "explain_toxicity_prediction_with_family"]
    (Status.cache_counts c)
    (if truthy (PRIMARY_MODEL cfg)
     then Some (Startup.last_segment "/" (PRIMARY_MODEL cfg)) else None)
    (if truthy (FALLBACK_MODEL cfg)
     then Some (Startup.last_segment "/" (FALLBACK_MODEL cfg)) else None).

End Health.

(** ** The tool dispatcher of [mcp1.py] *)

Module Dispatcher.

(** What calling a prediction function with the keyword arguments does:
    return its dictionary, raise a [TypeError], or raise another
    exception; the text is [str(e)]. *)
Inductive ToolOutcome : Type :=
  | tool_returned (result : tool_result)
  | tool_type_error (message : string)
  | tool_exception (message : string).

(** The four functions behind [AVAILABLE_FUNCTIONS]; their bodies (the
    pickled classifiers and explainers) are outside the embedding. *)
Record Tools : Type := mkTools {
  predict_toxicity_without_family : arguments -> ToolOutcome;
  predict_toxicity_with_family : arguments -> ToolOutcome;
  explain_toxicity_prediction_without_family : arguments -> ToolOutcome;
  explain_toxicity_prediction_with_family : arguments -> ToolOutcome
}.

(** [AVAILABLE_FUNCTIONS], in insertion order. *)
Definition AVAILABLE_FUNCTIONS (tools : Tools)
    : list (string * (arguments -> ToolOutcome)) :=
  [("predict_toxicity_without_family",
    predict_toxicity_without_family tools);
   ("predict_toxicity_with_family", predict_toxicity_with_family tools);
   ("explain_toxicity_prediction_without_family",
    explain_toxicity_prediction_without_family tools);
   ("explain_toxicity_prediction_with_family",
    explain_toxicity_prediction_with_family tools)].

(** [str(list(AVAILABLE_FUNCTIONS.keys()))]. *)
Definition keys_repr : string :=
  "['predict_toxicity_without_family', 'predict_toxicity_with_family', "
  +:+ "'explain_toxicity_prediction_without_family', "
  +:+ "'explain_toxicity_prediction_with_family']".

Definition failure_result (message : string) : tool_result :=
  [("success", VBool false); ("error", VStr message)].

(** The body of [execute_function], run once the arguments are bound. *)
Definition dispatch (tools : Tools) (function_name : string)
    (kwargs : arguments) : tool_result :=
  match dict_get function_name (AVAILABLE_FUNCTIONS tools) with
  | None =>
      failure_result ("Unknown function: " +:+ function_name
                      +:+ ". Available: " +:+ keys_repr)
  | Some func =>
      match func kwargs with
      | tool_returned result => result
      | tool_type_error message =>
          failure_result ("Invalid arguments for " +:+ function_name
                          +:+ ": " +:+ message)
      | tool_exception message =>
          failure_result ("Error executing " +:+ function_name
                          +:+ ": " +:+ message)
      end
  end.

(** The call [execute_function(function_name, **kwargs)]: the dictionary
    returned, or the [str(e)] of the [TypeError] that the call raises, before
    the body runs, when the keyword arguments hold the key
    [function_name] too. *)
Definition execute_function (tools : Tools) (function_name : string)
    (kwargs : arguments) : tool_result + string :=
  if keyword_clash kwargs then inr multiple_values_message
  else inl (dispatch tools function_name kwargs).

(** Tools that reject calls without a dose, used as a test input. *)
Definition strict_tool (kwargs : arguments) : ToolOutcome :=
  match dict_get "Dose" kwargs with
  | Some _ => tool_returned [("success", VBool true)]
  | None => tool_type_error "missing 1 required positional argument: 'Dose'"
  end.

Definition strict_tools : Tools :=
  mkTools strict_tool strict_tool strict_tool strict_tool.

End Dispatcher.

(** * Properties *)

(** ** Timestamps *)

Lemma Qltb_lt (a b : Q) : Qltb a b = true <-> a < b.
Proof.
  unfold Qltb. rewrite negb_true_iff.
  split; intros H.
  - apply Qnot_le_lt. intros Hle. apply Qle_bool_iff in Hle. congruence.
  - destruct (Qle_bool b a) eqn:E; [|reflexivity].
    apply Qle_bool_iff in E. apply Qlt_not_le in H. contradiction.
Qed.

Lemma Qltb_ge (a b : Q) : Qltb a b = false <-> b <= a.
Proof.
  unfold Qltb. rewrite negb_false_iff. apply Qle_bool_iff.
Qed.

(** Case analysis on a boolean comparison of timestamps. *)
Ltac case_Qltb a b :=
  let E := fresh "Hcmp" in
  destruct (Qltb a b) eqn:E;
  [apply Qltb_lt in E | apply Qltb_ge in E].

(** ** The cache *)

Section CacheFacts.
Import Cache CacheOps.

Implicit Types (c : ModelStatusCache) (e : string) (k : expiring_kind).

Lemma failure_working now e ty msg c :
  working (cache_model_failure now e ty msg c) = working c.
Proof.
  unfold cache_model_failure. repeat case_decide; reflexivity.
Qed.

Lemma failure_not_found_other now e k msg c :
  not_found (cache_model_failure now e (error_type_of k) msg c) = not_found c.
Proof. destruct k; reflexivity. Qed.

Lemma failure_recorded now e k msg c :
  recorded_at k (cache_model_failure now e (error_type_of k) msg c) e
  = Some now.
Proof.
  destruct k; simpl; unfold cache_model_failure; simpl;
    rewrite ?lookup_insert_eq; reflexivity.
Qed.

Lemma failure_recorded_other now e k k' msg c :
  k' <> k ->
  recorded_at k' (cache_model_failure now e (error_type_of k) msg c) e
  = recorded_at k' c e.
Proof. destruct k, k'; intros Hne; try congruence; reflexivity. Qed.

(** The answer of a query, bucket by bucket. *)
Lemma is_failed_eq now e c :
  is_failed now e c
  = bool_decide (e ∈ not_found c)
    || freshb (expiry quota_kind) now (recorded_at quota_kind c e)
    || freshb (expiry rate_kind) now (recorded_at rate_kind c e)
    || freshb (expiry other_kind) now (recorded_at other_kind c e).
Proof.
  unfold is_failed, is_model_cached_as_failed. simpl.
  case_decide as Hnf; [by rewrite bool_decide_eq_true_2|].
  rewrite bool_decide_eq_false_2 by done. simpl.
  destruct (quota_exhausted c !! e) as [tq|]; simpl;
    [destruct (Qltb (now - tq) EXPIRATION_quota_exhausted); simpl; [done|]|];
    (destruct (rate_limited c !! e) as [tr|]; simpl;
     [destruct (Qltb (now - tr) EXPIRATION_rate_limited); simpl; [done|]|]);
    (destruct (other_errors c !! e) as [[m to]|]; simpl;
     [destruct (Qltb (now - to) EXPIRATION_other_errors); simpl|]);
    reflexivity.
Qed.

Lemma freshb_true limit now o :
  freshb limit now o = true <->
  exists cached_time, o = Some cached_time /\ now - cached_time < limit.
Proof.
  destruct o as [t|]; simpl.
  - rewrite Qltb_lt. split; [eauto|]. by intros (? & [= ->] & ?).
  - split; [done|]. by intros (? & ? & ?).
Qed.

Lemma is_failed_true_iff now e c :
  is_failed now e c = true <->
  e ∈ not_found c \/ exists k, unexpired k now e c.
Proof.
  rewrite is_failed_eq, !orb_true_iff, bool_decide_eq_true, !freshb_true.
  unfold unexpired. split.
  - intros [[[H|H]|H]|H]; [by left|right..].
    + by exists quota_kind.
    + by exists rate_kind.
    + by exists other_kind.
  - intros [H|[[| |] H]]; tauto.
Qed.

Lemma is_failed_false_iff now e c :
  is_failed now e c = false <->
  (e ∉ not_found c) /\ forall k, ~ unexpired k now e c.
Proof.
  rewrite <- not_true_iff_false, is_failed_true_iff.
  split.
  - intros H. split; [tauto|]. intros k Hk. apply H. right. by exists k.
  - intros [Hnf Hk] [H|[k H]]; [done|]. by apply (Hk k).
Qed.


(** Closes a goal that equates a comparison with its known value. *)
Ltac close_cmp :=
  first [ reflexivity
        | apply Qltb_ge; assumption
        | apply Qltb_lt; assumption
        | symmetry; apply Qltb_ge; assumption
        | symmetry; apply Qltb_lt; assumption ].

(** Case analysis along the branches of [is_model_cached_as_failed]. *)
Ltac query_cases now e c :=
  unfold after_query, is_failed, is_model_cached_as_failed;
  cbn [recorded_at];
  destruct (decide (e ∈ not_found c)); cbn;
  [|destruct (quota_exhausted c !! e) as [?tq|] eqn:?Eq; cbn;
    [case_Qltb (now - tq) EXPIRATION_quota_exhausted; cbn|];
    [|destruct (rate_limited c !! e) as [?tr|] eqn:?Er; cbn;
      [case_Qltb (now - tr) EXPIRATION_rate_limited; cbn|];
      [|destruct (other_errors c !! e) as [[?m ?to]|] eqn:?Eo; cbn;
        [case_Qltb (now - to) EXPIRATION_other_errors; cbn|]..]..]].

Lemma after_query_not_found now e c :
  not_found (after_query now e c) = not_found c.
Proof. query_cases now e c; reflexivity. Qed.

Lemma after_query_working now e c :
  working (after_query now e c) = working c.
Proof. query_cases now e c; reflexivity. Qed.

Lemma after_query_recorded_ne now e e' k c :
  e' <> e -> recorded_at k (after_query now e c) e' = recorded_at k c e'.
Proof.
  intros Hne. destruct k; query_cases now e c;
    rewrite ?lookup_delete_ne by done; reflexivity.
Qed.

(** A query only deletes, and only records that have expired. *)
Lemma after_query_freshb now e e' k c :
  freshb (expiry k) now (recorded_at k (after_query now e c) e')
  = freshb (expiry k) now (recorded_at k c e').
Proof.
  destruct (decide (e' = e)) as [->|Hne];
    [|by rewrite after_query_recorded_ne].
  destruct k; query_cases now e c;
    rewrite ?lookup_delete_eq, ?Eq, ?Er, ?Eo; cbn; close_cmp.
Qed.

Lemma after_query_is_failed now e e' c :
  is_failed now e' (after_query now e c) = is_failed now e' c.
Proof.
  by rewrite !is_failed_eq, !after_query_freshb, after_query_not_found.
Qed.

(** A negative answer leaves no expiring record of the model behind. *)
Lemma after_query_false now e k c :
  is_failed now e c = false -> recorded_at k (after_query now e c) e = None.
Proof.
  destruct k; query_cases now e c;
    rewrite ?lookup_delete_eq, ?Eq, ?Er, ?Eo; cbn; done.
Qed.


Lemma success_working e c :
  working (cache_model_success e c) = {[e]} ∪ working c.
Proof. reflexivity. Qed.

Lemma success_not_found e c :
  not_found (cache_model_success e c) = not_found c.
Proof. reflexivity. Qed.

Lemma success_recorded e k c :
  recorded_at k (cache_model_success e c) e = None.
Proof. destruct k; cbn; by rewrite lookup_delete_eq. Qed.

Lemma success_recorded_ne e e' k c :
  e' <> e ->
  recorded_at k (cache_model_success e c) e' = recorded_at k c e'.
Proof. intros Hne. destruct k; cbn; by rewrite lookup_delete_ne. Qed.

(** Only a reset or a clearing of the bucket shrinks [not_found]. *)
Lemma apply_op_not_found op e c :
  is_reset op = false -> e ∈ not_found c -> e ∈ not_found (apply_op c op).
Proof.
  destruct op as [now m ty msg|m|now m| |ty]; cbn; intros Hr He.
  - unfold cache_model_failure. repeat case_decide; cbn; set_solver.
  - done.
  - by rewrite after_query_not_found.
  - done.
  - apply bool_decide_eq_false in Hr.
    unfold clear_specific_cache. repeat case_decide; done.
Qed.

Lemma run_ops_not_found ops e c :
  forallb (fun op => negb (is_reset op)) ops = true ->
  e ∈ not_found c -> e ∈ not_found (run_ops ops c).
Proof.
  revert c. induction ops as [|op ops IH]; intros c Hall He; [done|].
  cbn in Hall. apply andb_true_iff in Hall as [Hop Hall].
  apply negb_true_iff in Hop.
  apply (IH (apply_op c op)); [done|]. by apply apply_op_not_found.
Qed.

(** C8. After [cache_model_success(e)] the endpoint is in the working set
    and has no entry in any of the three expiring buckets; the [not_found]
    set is unchanged, so an endpoint recorded there stays excluded at any
    time, also after any number of later successes. *)
Theorem cache_model_success_post e c :
  e ∈ working (cache_model_success e c)
  /\ quota_exhausted (cache_model_success e c) !! e = None
  /\ rate_limited (cache_model_success e c) !! e = None
  /\ other_errors (cache_model_success e c) !! e = None
  /\ not_found (cache_model_success e c) = not_found c
  /\ (forall now later,
        e ∈ not_found c ->
        is_failed now e
          (run_ops (map op_success later) (cache_model_success e c)) = true).
Proof.
  repeat split.
  - rewrite success_working. apply elem_of_union_l, elem_of_singleton.
    reflexivity.
  - cbn. apply lookup_delete_eq.
  - cbn. apply lookup_delete_eq.
  - cbn. apply lookup_delete_eq.
  - intros now later He. apply is_failed_true_iff. left.
    apply run_ops_not_found; [|done].
    clear. induction later as [|m later IH]; [done|]. exact IH.
Qed.

Lemma cache_model_success_post_witness :
  is_failed 7200 "m"
    (run_ops (map op_success ["m"; "n"]) (cache_model_success "m" missing_m))
  = true.
Proof.
  destruct (cache_model_success_post "m" missing_m) as (_ & _ & _ & _ & _ & H).
  apply H. vm_compute. set_solver.
Defined.

(** C3. After [cache_model_failure(e, k)] at time [t0] for an expiring kind
    [k]: the query answers true at every time [t] with
    [t - t0 < expiry k]; when the endpoint has no other unexpired record, it
    answers false at every [t] with [t0 + expiry k <= t] and deletes the
    record.  An endpoint recorded as not found is reported failed at every
    time, whatever operations other than a reset follow. *)
Theorem failure_cache_ttl k e msg t0 c :
  (forall t,
     t - t0 < expiry k ->
     is_failed t e (cache_model_failure t0 e (error_type_of k) msg c) = true)
  /\ (forall t,
        t0 + expiry k <= t ->
        e ∉ not_found (cache_model_failure t0 e (error_type_of k) msg c) ->
        (forall k', k' <> k ->
           ~ unexpired k' t e
               (cache_model_failure t0 e (error_type_of k) msg c)) ->
        is_failed t e (cache_model_failure t0 e (error_type_of k) msg c)
        = false
        /\ recorded_at k
             (after_query t e
                (cache_model_failure t0 e (error_type_of k) msg c)) e
           = None)
  /\ (forall t ops,
        forallb (fun op => negb (is_reset op)) ops = true ->
        is_failed t e
          (run_ops ops (cache_model_failure t0 e "not_found" msg c)) = true).
Proof.
  split; [|split].
  - intros t Hlt. apply is_failed_true_iff. right. exists k, t0.
    split; [apply failure_recorded|done].
  - intros t Hge Hnf Hother.
    assert (is_failed t e
              (cache_model_failure t0 e (error_type_of k) msg c) = false)
      as Hfalse.
    { apply is_failed_false_iff. split; [done|].
      intros k' (t1 & Hrec & Hlt).
      destruct (decide (k' = k)) as [->|Hne].
      - rewrite failure_recorded in Hrec. injection Hrec as <-. lra.
      - apply (Hother k' Hne). by exists t1. }
    split; [done|]. by apply after_query_false.
  - intros t ops Hops. apply is_failed_true_iff. left.
    apply run_ops_not_found; [done|]. cbn. set_solver.
Qed.

Lemma failure_cache_ttl_witness :
  is_failed 299 "m" (cache_model_failure 0 "m" "rate_limited" "" empty_cache)
  = true
  /\ (is_failed 300 "m"
        (cache_model_failure 0 "m" "rate_limited" "" empty_cache) = false
      /\ recorded_at rate_kind
           (after_query 300 "m"
              (cache_model_failure 0 "m" "rate_limited" "" empty_cache)) "m"
         = None)
  /\ is_failed 100000 "m"
       (run_ops [op_success "m"; op_query 100000 "m";
                 op_clear "working"]
                (cache_model_failure 0 "m" "not_found" "" empty_cache))
     = true.
Proof.
  destruct (failure_cache_ttl rate_kind "m" "" 0 empty_cache)
    as (Htrue & Hfalse & Hperm).
  split; [|split].
  - apply Htrue. reflexivity.
  - apply Hfalse.
    + discriminate.
    + vm_compute. set_solver.
    + intros k' Hne (t1 & Hrec & _). destruct k'; [| |]; try done.
  - apply Hperm. reflexivity.
Defined.

(** C1, as stated, fails: a failure leaves the working set alone, so a model
    that worked and then failed is in the working set and in an unexpired
    failure bucket at once. *)
Lemma working_and_failed_counterexample :
  "m" ∈ working worked_then_limited
  /\ unexpired rate_kind 2 "m" worked_then_limited
  /\ is_failed 2 "m" worked_then_limited = true.
Proof.
  split; [|split].
  - vm_compute. set_solver.
  - exists 1. split; reflexivity.
  - reflexivity.
Qed.

(** C1, amended. [cache_model_failure] never changes the working set, for
    any error type; exclusion is established by success only: right after
    [cache_model_success(e)] the endpoint is in the working set and has no
    record in an expiring bucket. *)
Theorem working_set_and_failures now e ty msg c :
  working (cache_model_failure now e ty msg c) = working c
  /\ e ∈ working (cache_model_success e c)
  /\ (forall k, recorded_at k (cache_model_success e c) e = None).
Proof.
  split; [apply failure_working|]. split.
  - rewrite success_working. apply elem_of_union_l, elem_of_singleton.
    reflexivity.
  - intros k. apply success_recorded.
Qed.

End CacheFacts.

(** ** The request throttle *)

Section PacerFacts.
Import Pacer.

Lemma last_deque_append x (times : list Q) :
  last (deque_append x times) = Some x.
Proof.
  unfold deque_append, maxlen.
  rewrite last_lookup, lookup_drop, length_drop, length_app. cbn [length].
  replace (length times + 1 - 15 + pred (length times + 1 - (length times + 1 - 15)))%nat
    with (length times) by lia.
  rewrite lookup_app_r by lia. by rewrite Nat.sub_diag.
Qed.

(** The pruning drops from the left only: the latest entry goes last, and
    only when it is itself more than a minute old. *)
Lemma drop_older_last now (times : list Q) t :
  last times = Some t ->
  last (drop_older_than_minute now times) = Some t
  \/ (drop_older_than_minute now times = [] /\ 60 < now - t).
Proof.
  induction times as [|t0 rest IH]; [done|]. intros Hlast. cbn.
  case_Qltb 60 (now - t0); [|by left].
  destruct rest as [|t1 rest'].
  - cbn in Hlast. injection Hlast as <-. by right.
  - apply IH. by rewrite last_cons_cons in Hlast.
Qed.

Lemma throttle_last extra w :
  last (request_times (throttle_requests extra w))
  = Some (clock (throttle_requests extra w)).
Proof.
  unfold throttle_requests. cbn.
  destruct (last (drop_older_than_minute (clock w) (request_times w)))
    as [t|]; [case_Qltb (clock w - t) MIN_REQUEST_INTERVAL|];
    cbn; apply last_deque_append.
Qed.

(** The clock reading recorded by a call, from the state it starts in. *)
Lemma throttle_clock extra w :
  clock (throttle_requests extra w)
  = match last (drop_older_than_minute (clock w) (request_times w)) with
    | Some t_last =>
        if Qltb (clock w - t_last) MIN_REQUEST_INTERVAL
        then clock w + (MIN_REQUEST_INTERVAL - (clock w - t_last)) + extra
        else clock w + extra
    | None => clock w + extra
    end.
Proof.
  unfold throttle_requests. cbn.
  destruct (last (drop_older_than_minute (clock w) (request_times w)))
    as [t|]; [destruct (Qltb (clock w - t) MIN_REQUEST_INTERVAL)|];
    reflexivity.
Qed.

(** C9. Two consecutive completed calls of [throttle_requests()] record
    timestamps at least [MIN_REQUEST_INTERVAL] apart, whatever happens in
    between as long as the clock does not run backwards and nobody else
    touches [request_times]; and a call that finds the latest recorded
    timestamp less than the interval old sleeps exactly the remaining
    time before recording. *)
Theorem throttle_spacing extra1 extra2 w w' :
  0 <= extra2 ->
  request_times w' = request_times (throttle_requests extra1 w) ->
  clock (throttle_requests extra1 w) <= clock w' ->
  (exists t1 t2,
     last (request_times (throttle_requests extra1 w)) = Some t1
     /\ last (request_times (throttle_requests extra2 w')) = Some t2
     /\ MIN_REQUEST_INTERVAL <= t2 - t1)
  /\ (forall t_last,
        last (drop_older_than_minute (clock w') (request_times w'))
        = Some t_last ->
        clock w' - t_last < MIN_REQUEST_INTERVAL ->
        trace (throttle_requests extra2 w')
        = trace w'
          ++ [ev_throttle_sleep (MIN_REQUEST_INTERVAL - (clock w' - t_last))]
        /\ last (request_times (throttle_requests extra2 w'))
           = Some (clock w' + (MIN_REQUEST_INTERVAL - (clock w' - t_last))
                   + extra2)).
Proof.
  intros Hextra Htimes Hclock. split.
  - exists (clock (throttle_requests extra1 w)),
           (clock (throttle_requests extra2 w')).
    split; [apply throttle_last|]. split; [apply throttle_last|].
    rewrite (throttle_clock extra2 w').
    pose proof (throttle_last extra1 w) as Hlast. rewrite <- Htimes in Hlast.
    set (t1 := clock (throttle_requests extra1 w)) in *.
    unfold MIN_REQUEST_INTERVAL in *.
    destruct (drop_older_last (clock w') _ _ Hlast) as [->|[-> Hold]].
    + case_Qltb (clock w' - t1) 5; lra.
    + cbn [last]. lra.
  - intros t_last Hlast Hlt.
    rewrite throttle_last, (throttle_clock extra2 w'), Hlast.
    apply Qltb_lt in Hlt. rewrite Hlt. split; [|done].
    unfold throttle_requests. cbn. rewrite Hlast, Hlt. reflexivity.
Qed.

Lemma throttle_spacing_witness :
  (exists t1 t2,
     last (request_times (throttle_requests 0 idle)) = Some t1
     /\ last (request_times
                (throttle_requests (1 # 4)
                   (advance 2 (throttle_requests 0 idle)))) = Some t2
     /\ MIN_REQUEST_INTERVAL <= t2 - t1)
  /\ trace (throttle_requests (1 # 4)
              (advance 2 (throttle_requests 0 idle)))
     = [ev_throttle_sleep (MIN_REQUEST_INTERVAL - (100 + 0 + 2 - (100 + 0)))].
Proof.
  destruct (throttle_spacing 0 (1 # 4) idle
              (advance 2 (throttle_requests 0 idle))) as [Hgap Hsleep].
  - vm_compute. discriminate.
  - reflexivity.
  - vm_compute. discriminate.
  - split; [exact Hgap|].
    apply (Hsleep (100 + 0)); reflexivity.
Defined.

End PacerFacts.

(** ** Candidate selection *)

Section SelectorFacts.
Import Cache CacheOps Selector.

Implicit Types (cfg : Config) (c : ModelStatusCache) (m : string).

(** The filter keeps exactly the models whose query answers false: the
    lazy deletions of one query never change the answer of another query
    made at the same clock reading. *)
Lemma filter_cached_kept now (models : list string) c :
  fst (fst (filter_cached now models c))
  = List.filter (fun m => negb (is_failed now m c)) models.
Proof.
  revert c. induction models as [|m rest IH]; intros c; [done|].
  cbn [filter_cached List.filter].
  pose proof (IH (after_query now m c)) as IHc.
  unfold after_query, is_failed in *.
  destruct (is_model_cached_as_failed now m c) as [[failed why] c1] eqn:Eq.
  cbn [fst snd] in *.
  destruct (filter_cached now rest c1) as [[kept skipped] c2].
  cbn [fst snd] in *.
  assert (List.filter
            (fun m0 => negb (fst (fst (is_model_cached_as_failed now m0 c1))))
            rest
          = List.filter
              (fun m0 => negb (fst (fst (is_model_cached_as_failed now m0 c))))
              rest) as Hext.
  { apply List.filter_ext. intros m0.
    pose proof (after_query_is_failed now m m0 c) as H.
    unfold after_query, is_failed in H. rewrite Eq in H. cbn in H.
    by rewrite H. }
  destruct failed; cbn; congruence.
Qed.

Lemma models_to_try_eq cfg now c :
  models_to_try cfg now c
  = List.filter (fun m => negb (is_failed now m c)) (priority_list cfg c).
Proof. apply filter_cached_kept. Qed.

Lemma add_discovered_NoDup (acc : list string) info :
  NoDup acc -> NoDup (add_discovered acc info).
Proof.
  intros Hnd. unfold add_discovered.
  case_bool_decide as Hin; [done|].
  destruct (is_text_generation _); [|done].
  apply NoDup_app. split; [done|]. split; [|apply NoDup_singleton].
  intros x Hx ->%list_elem_of_singleton. done.
Qed.

Lemma fold_add_discovered_NoDup (infos : list ModelInfo) (acc : list string) :
  NoDup acc -> NoDup (fold_left add_discovered infos acc).
Proof.
  revert acc. induction infos as [|info infos IH]; intros acc Hnd; [done|].
  cbn. apply IH. by apply add_discovered_NoDup.
Qed.

Lemma priority_list_NoDup cfg c : NoDup (priority_list cfg c).
Proof.
  unfold priority_list. apply fold_add_discovered_NoDup.
  set (base := (if truthy (PRIMARY_MODEL cfg)
                   && negb (bool_decide
                              (PRIMARY_MODEL cfg ∈ elements (working c)))
                then [PRIMARY_MODEL cfg] else [])
               ++ elements (working c)).
  assert (NoDup base) as Hbase.
  { subst base.
    destruct (truthy (PRIMARY_MODEL cfg)); cbn [andb]; [|apply NoDup_elements].
    case_bool_decide as Hin; cbn [negb app]; [apply NoDup_elements|].
    apply NoDup_cons. split; [done|apply NoDup_elements]. }
  clearbody base.
  destruct (truthy (FALLBACK_MODEL cfg)); cbn [andb]; [|exact Hbase].
  case_bool_decide as Hin; cbn [negb]; [exact Hbase|].
  apply NoDup_app. split; [done|]. split; [|apply NoDup_singleton].
  intros x Hx ->%list_elem_of_singleton. done.
Qed.

(** Appending a name unless it is already listed. *)
Lemma fold_add_discovered_capable (infos : list ModelInfo) (acc : list string) :
  fold_left add_discovered infos acc
  = fold_left add_name
      (map full_name (List.filter capable infos)) acc.
Proof.
  revert acc. induction infos as [|info infos IH]; intros acc; [done|].
  cbn [fold_left List.filter]. unfold capable at 1.
  unfold add_discovered at 2.
  destruct (is_text_generation (lower (display_name info))) eqn:Ecap.
  - cbn [map fold_left]. rewrite IH. reflexivity.
  - rewrite IH. by destruct (bool_decide (full_name info ∈ acc)).
Qed.

Lemma NoDup_four (a b c d : string) :
  NoDup [a; b; c; d] ->
  a <> b /\ a <> c /\ a <> d /\ b <> c /\ b <> d /\ c <> d.
Proof.
  intros Hnd.
  repeat (rewrite NoDup_cons in Hnd || rewrite not_elem_of_cons in Hnd).
  tauto.
Qed.

Lemma add_name_old (acc : list string) n :
  n ∈ acc -> add_name acc n = acc.
Proof. intros Hn. unfold add_name. by rewrite bool_decide_eq_true_2. Qed.

Lemma add_name_new (acc : list string) n :
  n ∉ acc -> add_name acc n = acc ++ [n].
Proof. intros Hn. unfold add_name. by rewrite bool_decide_eq_false_2. Qed.

Lemma is_failed_empty now m : is_failed now m empty_cache = false.
Proof.
  apply is_failed_false_iff. split; [set_solver|].
  intros k (t & Hrec & _). destruct k; cbn in Hrec;
    rewrite ?lookup_empty in Hrec; done.
Qed.

(** Every candidate is the primary, the fallback, a working model, or a
    discovered model that passes the text-generation test. *)
Lemma add_discovered_elem (acc : list string) info m :
  m ∈ add_discovered acc info ->
  m ∈ acc \/ (m = full_name info /\ capable info = true).
Proof.
  unfold add_discovered, capable.
  case_bool_decide as Hin; [by left|].
  destruct (is_text_generation _); [|by left].
  intros [Hm| ->%list_elem_of_singleton]%elem_of_app; [by left|by right].
Qed.

Lemma fold_add_discovered_elem (infos : list ModelInfo) (acc : list string) m :
  m ∈ fold_left add_discovered infos acc ->
  m ∈ acc
  \/ exists info, info ∈ infos /\ full_name info = m /\ capable info = true.
Proof.
  revert acc. induction infos as [|info infos IH]; intros acc; [by left|].
  cbn [fold_left]. intros [Hacc|(i & Hi & Hn & Hc)]%IH.
  - apply add_discovered_elem in Hacc as [H|[-> Hc]]; [by left|].
    right. exists info. split; [left|done].
  - right. exists i. split; [by right|done].
Qed.

Lemma priority_list_elem cfg c m :
  m ∈ priority_list cfg c ->
  m = PRIMARY_MODEL cfg \/ m = FALLBACK_MODEL cfg \/ m ∈ working c
  \/ exists info,
       info ∈ AVAILABLE_MODELS cfg /\ full_name info = m
       /\ capable info = true.
Proof.
  unfold priority_list. intros [H|H]%fold_add_discovered_elem; [|tauto].
  revert H.
  set (first := if truthy (PRIMARY_MODEL cfg)
                   && negb (bool_decide
                              (PRIMARY_MODEL cfg ∈ elements (working c)))
                then [PRIMARY_MODEL cfg] else []).
  assert (m ∈ first ++ elements (working c) ->
          m = PRIMARY_MODEL cfg \/ m ∈ working c) as Hbase.
  { intros [Hp|Hw]%elem_of_app.
    - left. subst first.
      destruct (_ && _); [by apply list_elem_of_singleton in Hp|].
      by apply not_elem_of_nil in Hp.
    - right. by apply elem_of_elements in Hw. }
  clearbody first.
  destruct (truthy (FALLBACK_MODEL cfg) && _).
  - intros [H| ->%list_elem_of_singleton]%elem_of_app; [|tauto].
    apply Hbase in H. tauto.
  - intros H. apply Hbase in H. tauto.
Qed.

Lemma models_to_try_elem cfg now c m :
  m ∈ models_to_try cfg now c <->
  m ∈ priority_list cfg c /\ is_failed now m c = false.
Proof.
  rewrite models_to_try_eq, list_elem_of_In, List.filter_In,
    <- list_elem_of_In, negb_true_iff. done.
Qed.

(** C5. With an empty cache, primary [P], fallback [F] and a discovery list
    whose text-generation entries are [P; F; X; Y] in that order, the
    candidate list is exactly [P; F; X; Y]; with an empty working set and
    only [X] excluded by the failure cache it is exactly [P; F; Y].
    Discovered entries that fail the text-generation test are never
    appended: every candidate is the primary, the fallback, a working model
    or a discovered model that passes the test. *)
Theorem selector_ordering (P F X Y : string) (D : list ModelInfo) now :
  truthy P = true -> truthy F = true ->
  NoDup [P; F; X; Y] ->
  map full_name (List.filter capable D) = [P; F; X; Y] ->
  models_to_try (mkConfig P F D) now empty_cache = [P; F; X; Y]
  /\ (forall c,
        working c = ∅ ->
        is_failed now X c = true ->
        is_failed now P c = false ->
        is_failed now F c = false ->
        is_failed now Y c = false ->
        models_to_try (mkConfig P F D) now c = [P; F; Y])
  /\ (forall c m,
        m ∈ models_to_try (mkConfig P F D) now c ->
        m = P \/ m = F \/ m ∈ working c
        \/ exists info,
             info ∈ D /\ full_name info = m
             /\ is_text_generation (lower (display_name info)) = true).
Proof.
  intros HP HF Hnd HD.
  assert (forall c, working c = ∅ ->
                    priority_list (mkConfig P F D) c = [P; F; X; Y])
    as Hprio.
  { intros c Hw. unfold priority_list. cbn [PRIMARY_MODEL FALLBACK_MODEL
      AVAILABLE_MODELS]. rewrite Hw, elements_empty, HP, HF.
    rewrite fold_add_discovered_capable, HD.
    apply NoDup_four in Hnd as (HPF & HPX & HPY & HFX & HFY & HXY).
    rewrite (bool_decide_eq_false_2 (P ∈ [])) by apply not_elem_of_nil.
    cbn [andb negb app].
    rewrite (bool_decide_eq_false_2 (F ∈ [P]))
      by (rewrite list_elem_of_singleton; congruence).
    cbn [negb app fold_left].
    rewrite (add_name_old [P; F] P) by (rewrite !elem_of_cons; tauto).
    rewrite (add_name_old [P; F] F) by (rewrite !elem_of_cons; tauto).
    rewrite (add_name_new [P; F] X)
      by (rewrite !not_elem_of_cons; auto using not_elem_of_nil).
    cbn [app].
    rewrite (add_name_new [P; F; X] Y)
      by (rewrite !not_elem_of_cons; auto using not_elem_of_nil).
    reflexivity. }
  split; [|split].
  - rewrite models_to_try_eq, Hprio by done. cbn [List.filter].
    by rewrite !is_failed_empty.
  - intros c Hw HfX HfP HfF HfY.
    rewrite models_to_try_eq, Hprio by done. cbn [List.filter].
    by rewrite HfX, HfP, HfF, HfY.
  - intros c m [Hm _]%models_to_try_elem.
    by apply priority_list_elem in Hm.
Qed.

Lemma selector_ordering_witness :
  models_to_try example_config 10 empty_cache
  = ["models/gemini-2.5-flash"; "models/gemini-2.0-flash";
     "models/gemma-3-27b-it"; "models/gemini-2.5-pro"]
  /\ models_to_try example_config 10
       (cache_model_failure 0 "models/gemma-3-27b-it" "rate_limited" ""
          empty_cache)
     = ["models/gemini-2.5-flash"; "models/gemini-2.0-flash";
        "models/gemini-2.5-pro"]
  /\ ("models/gemma-3-27b-it" = "models/gemini-2.5-flash"
      \/ "models/gemma-3-27b-it" = "models/gemini-2.0-flash"
      \/ "models/gemma-3-27b-it" ∈ working empty_cache
      \/ exists info,
           info ∈ example_discovered
           /\ full_name info = "models/gemma-3-27b-it"
           /\ is_text_generation (lower (display_name info)) = true).
Proof.
  destruct (selector_ordering
              "models/gemini-2.5-flash" "models/gemini-2.0-flash"
              "models/gemma-3-27b-it" "models/gemini-2.5-pro"
              example_discovered 10) as (Hall & Hskip & Hmem).
  - reflexivity.
  - reflexivity.
  - apply (bool_decide_unpack _). vm_compute. reflexivity.
  - vm_compute. reflexivity.
  - split; [exact Hall|]. split.
    + apply Hskip; vm_compute; reflexivity.
    + apply (Hmem empty_cache). rewrite Hall.
      apply (bool_decide_unpack _). vm_compute. reflexivity.
Defined.

(** C10. The candidate list never holds a model identifier twice. *)
Theorem models_to_try_NoDup cfg now c : NoDup (models_to_try cfg now c).
Proof.
  rewrite models_to_try_eq.
  apply NoDup_ListNoDup, List.NoDup_filter, NoDup_ListNoDup.
  apply priority_list_NoDup.
Qed.

End SelectorFacts.

(** ** Model iteration *)

Section ExecutorFacts.
Import Cache Selector Executor.

Variable env : Env.
Variable contents : Conversation.

Implicit Types (w : World) (m : string) (ms : list string).

Local Close Scope Q_scope.

#[local] Arguments Pacer.throttle_requests : simpl never.
#[local] Arguments handle_failure : simpl never.

Lemma throttle_cache extra w :
  cache (Pacer.throttle_requests extra w) = cache w.
Proof.
  unfold Pacer.throttle_requests. cbn.
  destruct (last _) as [t|]; [destruct (Qltb _ _)|]; reflexivity.
Qed.

Lemma throttle_calls extra w :
  calls (Pacer.throttle_requests extra w) = calls w.
Proof.
  unfold Pacer.throttle_requests. cbn.
  destruct (last _) as [t|]; [destruct (Qltb _ _)|]; reflexivity.
Qed.

Lemma quiet_no_backoff (tr : list event) m : quiet tr -> ev_backoff_sleep m ∉ tr.
Proof.
  intros Hq Hin. unfold quiet in Hq. rewrite Forall_forall in Hq.
  exact (Hq _ Hin).
Qed.

Lemma quiet_received (tr : list event) : quiet tr -> received tr = [].
Proof.
  induction 1 as [|e tr He _ IH]; [done|].
  unfold received in *. cbn. rewrite IH. by destruct e.
Qed.

Lemma quiet_no_terminal (tr : list event) :
  quiet tr -> forallb (fun e => negb (is_terminal_failure e)) tr = true.
Proof.
  induction 1 as [|e tr He _ IH]; [done|]. cbn. rewrite IH. by destruct e.
Qed.

(** The throttle adds at most its own sleep to the trace. *)
Lemma throttle_trace extra w :
  exists sleeps,
    trace (Pacer.throttle_requests extra w) = trace w ++ sleeps
    /\ quiet sleeps.
Proof.
  unfold Pacer.throttle_requests. cbn.
  destruct (last _) as [t|]; [destruct (Qltb _ _)|]; cbn.
  - eexists. split; [reflexivity|]. by apply Forall_singleton.
  - exists []. split; [by rewrite app_nil_r|]. apply Forall_nil_2.
  - exists []. split; [by rewrite app_nil_r|]. apply Forall_nil_2.
Qed.

(** The [except] branch records exactly the kind that the policy assigns. *)
Lemma handle_failure_cache idx total m e w :
  cache (handle_failure env idx total m e w)
  = record_kind (classify e) (clock w) m e (cache w).
Proof.
  unfold handle_failure, classify, is_not_found, is_quota_exhausted,
    is_rate_limit, not_found_indicators, rate_limit_indicators.
  destruct (any_in ["404"; "not_found"; "not found"; "is not found"]
                   (lower e)); [reflexivity|].
  destruct (contains "limit: 0" (lower e)); [reflexivity|].
  destruct (any_in _ (lower e)); [|reflexivity].
  by destruct (bool_decide _).
Qed.

Lemma handle_failure_calls idx total m e w :
  calls (handle_failure env idx total m e w) = calls w.
Proof.
  unfold handle_failure.
  destruct (is_not_found e); [reflexivity|].
  destruct (is_quota_exhausted e); [reflexivity|].
  destruct (is_rate_limit e); [|reflexivity].
  by destruct (bool_decide _).
Qed.

(** The backoff sleep: only for [RATE_LIMITED], only before another model. *)
Lemma handle_failure_trace idx total m e w :
  trace (handle_failure env idx total m e w)
  = trace w
    ++ (if bool_decide (classify e = RATE_LIMITED)
           && bool_decide (idx < total)%nat
        then [ev_backoff_sleep m] else []).
Proof.
  unfold handle_failure, classify, is_not_found, is_quota_exhausted,
    is_rate_limit, not_found_indicators, rate_limit_indicators.
  destruct (any_in ["404"; "not_found"; "not found"; "is not found"]
                   (lower e)); [by rewrite app_nil_r|].
  destruct (contains "limit: 0" (lower e)); [by rewrite app_nil_r|].
  destruct (any_in _ (lower e)); [|by rewrite app_nil_r].
  destruct (bool_decide (idx < total)%nat); [reflexivity|].
  by rewrite app_nil_r.
Qed.

Lemma record_kind_recorded kind now m e c :
  recorded_as kind m (record_kind kind now m e c).
Proof.
  destruct kind; cbn.
  - apply elem_of_union_l, elem_of_singleton. reflexivity.
  - rewrite lookup_insert_eq. by eexists.
  - rewrite lookup_insert_eq. by eexists.
  - rewrite lookup_insert_eq. by eexists.
Qed.

(** Records are never removed by a later failure. *)
Lemma record_kind_mono kind kind' now m m' e c :
  recorded_as kind m c -> recorded_as kind m (record_kind kind' now m' e c).
Proof.
  destruct kind, kind'; cbn; try done.
  - intros H. by apply elem_of_union_r.
  - intros H. destruct (decide (m' = m)) as [->|Hne].
    + rewrite lookup_insert_eq. by eexists.
    + by rewrite lookup_insert_ne.
  - intros H. destruct (decide (m' = m)) as [->|Hne].
    + rewrite lookup_insert_eq. by eexists.
    + by rewrite lookup_insert_ne.
  - intros H. destruct (decide (m' = m)) as [->|Hne].
    + rewrite lookup_insert_eq. by eexists.
    + by rewrite lookup_insert_ne.
Qed.

Lemma success_mono kind m m' c :
  m' <> m -> recorded_as kind m' c ->
  recorded_as kind m' (cache_model_success m c).
Proof.
  intros Hne. destruct kind; cbn; [done|..];
    by rewrite lookup_delete_ne.
Qed.

(** *** One round of the loop *)

Lemma try_model_fst idx total m w :
  fst (try_model env contents idx total m w)
  = match generate_content env (calls w) m contents with
    | Returned r => Some r
    | Raised _ => None
    end.
Proof.
  unfold try_model. by destruct (generate_content env (calls w) m contents).
Qed.

Lemma try_model_calls idx total m w :
  calls (snd (try_model env contents idx total m w)) = S (calls w).
Proof.
  unfold try_model.
  destruct (generate_content env (calls w) m contents); cbn.
  - by rewrite throttle_calls.
  - by rewrite handle_failure_calls; cbn; rewrite throttle_calls.
Qed.

Lemma try_model_returned idx total m w r :
  generate_content env (calls w) m contents = Returned r ->
  cache (snd (try_model env contents idx total m w))
  = cache_model_success m (cache w).
Proof.
  intros Hgen. unfold try_model. rewrite Hgen. cbn.
  by rewrite throttle_cache.
Qed.

Lemma try_model_raised idx total m w e :
  generate_content env (calls w) m contents = Raised e ->
  exists now,
    cache (snd (try_model env contents idx total m w))
    = record_kind (classify e) now m e (cache w).
Proof.
  intros Hgen. unfold try_model. rewrite Hgen. cbn.
  rewrite handle_failure_cache. cbn. rewrite throttle_cache. by eexists.
Qed.

Lemma try_model_trace idx total m w :
  exists before,
    trace (snd (try_model env contents idx total m w))
    = trace w ++ before
      ++ match generate_content env (calls w) m contents with
         | Returned r => [ev_returned m r]
         | Raised e =>
             if bool_decide (classify e = RATE_LIMITED)
                && bool_decide (idx < total)
             then [ev_backoff_sleep m] else []
         end
    /\ quiet before.
Proof.
  unfold try_model.
  destruct (throttle_trace (lag env (calls w)) w) as (sleeps & Htr & Hq).
  exists (sleeps ++ [ev_generate m]). split.
  - destruct (generate_content env (calls w) m contents); cbn.
    + rewrite Htr. by rewrite <- !app_assoc.
    + rewrite handle_failure_trace. cbn. rewrite Htr.
      by rewrite <- !app_assoc.
  - apply Forall_app. split; [done|]. by apply Forall_singleton.
Qed.

(** *** The whole loop *)

(** A record made for a loser survives the rest of the loop. *)
Lemma try_models_mono ms : forall idx total w kind m',
  recorded_as kind m' (cache w) ->
  (forall r, fst (try_models env contents idx total ms w) <> Some (r, m')) ->
  recorded_as kind m' (cache (snd (try_models env contents idx total ms w))).
Proof.
  induction ms as [|m ms IH]; intros idx total w kind m' Hrec Hwin; [done|].
  cbn [try_models] in *.
  pose proof (try_model_fst idx total m w) as Hfst.
  destruct (try_model env contents idx total m w) as [[r|] w1] eqn:Etry;
    cbn [fst snd] in *.
  - destruct (generate_content env (calls w) m contents) as [r'|] eqn:Egen;
      [|done].
    pose proof (try_model_returned idx total m w r' Egen) as Hc.
    rewrite Etry in Hc. cbn in Hc. rewrite Hc.
    apply success_mono; [|done]. intros ->. by apply (Hwin r).
  - destruct (generate_content env (calls w) m contents) as [|e] eqn:Egen;
      [done|].
    destruct (try_model_raised idx total m w e Egen) as (now & Hc).
    rewrite Etry in Hc. cbn in Hc.
    apply IH; [|done]. rewrite Hc. by apply record_kind_mono.
Qed.

(** The result, the number of calls made, and what every call before the
    last one did. *)
Lemma try_models_result ms : forall idx total w,
  match fst (try_models env contents idx total ms w) with
  | Some (r, m) =>
      exists i,
        ms !! i = Some m
        /\ generate_content env (calls w + i) m contents = Returned r
        /\ calls (snd (try_models env contents idx total ms w))
           = calls w + i + 1
        /\ m ∈ working (cache (snd (try_models env contents idx total ms w)))
        /\ forall j m', j < i -> ms !! j = Some m' ->
             exists e,
               generate_content env (calls w + j) m' contents = Raised e
  | None =>
      calls (snd (try_models env contents idx total ms w))
      = calls w + length ms
      /\ forall j m', ms !! j = Some m' ->
           exists e, generate_content env (calls w + j) m' contents = Raised e
  end.
Proof.
  induction ms as [|m ms IH]; intros idx total w.
  { cbn. split; [lia|]. intros j m' H. by rewrite lookup_nil in H. }
  cbn [try_models].
  pose proof (try_model_fst idx total m w) as Hfst.
  pose proof (try_model_calls idx total m w) as Hcalls.
  destruct (try_model env contents idx total m w) as [[r|] w1] eqn:Etry;
    cbn [fst snd] in *.
  - destruct (generate_content env (calls w) m contents) as [r'|] eqn:Egen;
      [|done].
    injection Hfst as ->. exists 0. rewrite Nat.add_0_r.
    split; [done|]. split; [done|]. split; [lia|]. split; [|intros; lia].
    pose proof (try_model_returned idx total m w r' Egen) as Hc.
    rewrite Etry in Hc. cbn in Hc. rewrite Hc, success_working.
    apply elem_of_union_l, elem_of_singleton. reflexivity.
  - destruct (generate_content env (calls w) m contents) as [|e] eqn:Egen;
      [done|].
    specialize (IH (S idx) total w1).
    destruct (fst (try_models env contents (S idx) total ms w1))
      as [[r m1]|].
    + destruct IH as (i & Hi & Hgen & Hn & Hw & Hbefore).
      rewrite Hcalls in Hgen, Hn.
      exists (S i). split; [done|].
      replace (calls w + S i) with (S (calls w) + i) by lia.
      split; [done|]. split; [lia|]. split; [done|].
      intros [|j] m' Hj Hm'.
      * cbn in Hm'. injection Hm' as <-. rewrite Nat.add_0_r. by exists e.
      * cbn in Hm'. destruct (Hbefore j m') as (e' & He'); [lia|done|].
        exists e'. rewrite Hcalls in He'.
        by replace (calls w + S j) with (S (calls w) + j) by lia.
    + destruct IH as (Hn & Hall). rewrite Hcalls in Hn.
      split; [cbn; lia|].
      intros [|j] m' Hm'.
      * cbn in Hm'. injection Hm' as <-. rewrite Nat.add_0_r. by exists e.
      * cbn in Hm'. destruct (Hall j m' Hm') as (e' & He').
        exists e'. rewrite Hcalls in He'.
        by replace (calls w + S j) with (S (calls w) + j) by lia.
Qed.

Lemma try_models_calls_ge ms idx total w :
  calls w <= calls (snd (try_models env contents idx total ms w)).
Proof.
  pose proof (try_models_result ms idx total w) as H.
  destruct (fst (try_models env contents idx total ms w)) as [[r m]|].
  - destruct H as (i & _ & _ & -> & _). lia.
  - destruct H as [-> _]. lia.
Qed.

(** Every failed call leaves its record in the final cache, unless the
    same model is the one that succeeds later in the list. *)
Lemma try_models_recorded ms : forall idx total w j m' e,
  j < calls (snd (try_models env contents idx total ms w)) - calls w ->
  ms !! j = Some m' ->
  generate_content env (calls w + j) m' contents = Raised e ->
  (forall r, fst (try_models env contents idx total ms w) <> Some (r, m')) ->
  recorded_as (classify e) m'
    (cache (snd (try_models env contents idx total ms w))).
Proof.
  induction ms as [|m ms IH]; intros idx total w j m' e Hj Hm' Hgen Hwin.
  { by rewrite lookup_nil in Hm'. }
  cbn [try_models] in *.
  pose proof (try_model_fst idx total m w) as Hfst.
  pose proof (try_model_calls idx total m w) as Hcalls.
  destruct (try_model env contents idx total m w) as [[r|] w1] eqn:Etry;
    cbn [fst snd] in *.
  - assert (j = 0) as -> by lia. cbn in Hm'. injection Hm' as <-.
    rewrite Nat.add_0_r in Hgen. by rewrite Hgen in Hfst.
  - destruct j as [|j].
    + cbn in Hm'. injection Hm' as <-. rewrite Nat.add_0_r in Hgen.
      destruct (try_model_raised idx total m w e Hgen) as (now & Hc).
      rewrite Etry in Hc. cbn in Hc.
      apply try_models_mono; [|done]. rewrite Hc.
      apply record_kind_recorded.
    + cbn in Hm'. apply (IH (S idx) total w1 j m' e); [lia|done| |done].
      rewrite Hcalls. by replace (S (calls w) + j) with (calls w + S j) by lia.
Qed.

(** The backoff sleeps of a run: one after each rate-limited failure that
    is not the last model of the list, and no other. *)
Lemma try_models_trace ms : forall idx total w,
  exists added,
    trace (snd (try_models env contents idx total ms w)) = trace w ++ added
    /\ forall m0,
         ev_backoff_sleep m0 ∈ added <->
         exists j e,
           j < calls (snd (try_models env contents idx total ms w)) - calls w
           /\ ms !! j = Some m0
           /\ idx + j < total
           /\ generate_content env (calls w + j) m0 contents = Raised e
           /\ classify e = RATE_LIMITED.
Proof.
  induction ms as [|m ms IH]; intros idx total w.
  { exists []. cbn. split; [by rewrite app_nil_r|]. intros m0. split.
    - by intros H%elem_of_nil.
    - intros (j & e & Hj & _). lia. }
  cbn [try_models].
  pose proof (try_model_fst idx total m w) as Hfst.
  pose proof (try_model_calls idx total m w) as Hcalls.
  destruct (try_model_trace idx total m w) as (before & Htr & Hq).
  destruct (try_model env contents idx total m w) as [[r|] w1] eqn:Etry;
    cbn [fst snd] in *.
  - destruct (generate_content env (calls w) m contents) as [r'|] eqn:Egen;
      [|done].
    exists (before ++ [ev_returned m r']). split; [done|]. intros m0. split.
    + intros [H|H]%elem_of_app; [by apply quiet_no_backoff in H|].
      apply list_elem_of_singleton in H. discriminate.
    + intros (j & e & Hj & Hm0 & _ & Hgen & _).
      assert (j = 0) as -> by lia. cbn in Hm0. injection Hm0 as <-.
      rewrite Nat.add_0_r in Hgen. congruence.
  - destruct (generate_content env (calls w) m contents) as [|e0] eqn:Egen;
      [done|].
    destruct (IH (S idx) total w1) as (added & Htr' & Hiff).
    pose proof (try_models_calls_ge ms (S idx) total w1) as Hge.
    rewrite Hcalls in Hge.
    eexists. split; [rewrite Htr', Htr, <- !app_assoc; reflexivity|].
    intros m0. rewrite !elem_of_app, Hiff. split.
    + intros [H|[H|(j & e & Hj & Hm0 & Hidx & Hgen & Hcl)]].
      * by apply quiet_no_backoff in H.
      * destruct (bool_decide (classify e0 = RATE_LIMITED)) eqn:Ecl;
          [|by apply elem_of_nil in H].
        destruct (bool_decide (idx < total)) eqn:Eidx;
          [|by apply elem_of_nil in H].
        apply list_elem_of_singleton in H. injection H as ->.
        apply bool_decide_eq_true in Ecl, Eidx.
        exists 0, e0. rewrite !Nat.add_0_r.
        split; [lia|]. by repeat split.
      * exists (S j), e. rewrite Hcalls in Hj, Hgen.
        split; [lia|]. split; [done|]. split; [lia|]. split; [|done].
        by replace (calls w + S j) with (S (calls w) + j) by lia.
    + intros (j & e & Hj & Hm0 & Hidx & Hgen & Hcl).
      destruct j as [|j].
      * cbn in Hm0. injection Hm0 as <-. rewrite Nat.add_0_r in Hgen, Hidx.
        assert (e = e0) as -> by congruence.
        right. left.
        rewrite !bool_decide_eq_true_2 by done.
        by apply list_elem_of_singleton.
      * right. right. exists j, e. rewrite Hcalls.
        split; [lia|]. cbn in Hm0. split; [done|]. split; [lia|].
        split; [|done].
        by replace (S (calls w) + j) with (calls w + S j) by lia.
Qed.

(** The responses received and the failures reported by the loop. *)
Lemma try_models_events ms : forall idx total w,
  exists added,
    trace (snd (try_models env contents idx total ms w)) = trace w ++ added
    /\ received added
       = match fst (try_models env contents idx total ms w) with
         | Some (r, _) => [r]
         | None => []
         end
    /\ forallb (fun e => negb (is_terminal_failure e)) added = true.
Proof.
  induction ms as [|m ms IH]; intros idx total w.
  { exists []. cbn. by rewrite app_nil_r. }
  cbn [try_models].
  pose proof (try_model_fst idx total m w) as Hfst.
  destruct (try_model_trace idx total m w) as (before & Htr & Hq).
  destruct (try_model env contents idx total m w) as [[r|] w1] eqn:Etry;
    cbn [fst snd] in *.
  - destruct (generate_content env (calls w) m contents) as [r'|] eqn:Egen;
      [|done].
    injection Hfst as ->.
    exists (before ++ [ev_returned m r']). split; [done|]. split.
    + unfold received. rewrite omap_app. fold (received before).
      by rewrite quiet_received.
    + rewrite forallb_app, quiet_no_terminal by done. reflexivity.
  - destruct (generate_content env (calls w) m contents) as [|e0] eqn:Egen;
      [done|].
    destruct (IH (S idx) total w1) as (added & Htr' & Hrec & Hterm).
    eexists. split; [rewrite Htr', Htr, <- !app_assoc; reflexivity|].
    split.
    + unfold received in *. rewrite !omap_app, Hrec.
      fold (received before). rewrite quiet_received by done.
      by destruct (_ && _).
    + rewrite !forallb_app, Hterm, quiet_no_terminal by done.
      by destruct (_ && _).
Qed.

(** *** The function as a whole *)

(** The list that the loop walks is [Selector.models_to_try]. *)
Lemma call_gemini_walks cfg w :
  call_gemini_with_model_iteration env cfg contents w
  = let ms := models_to_try cfg (clock w) (cache w) in
    let w1 :=
      set_cache
        (fun _ => snd (filter_cached (clock w) (priority_list cfg (cache w))
                         (cache w))) w in
    match ms with
    | [] => (None, emit ev_no_models w1)
    | _ =>
        match try_models env contents 1 (length ms) ms w1 with
        | (Some found, w2) => (Some found, w2)
        | (None, w2) => (None, emit ev_all_failed w2)
        end
    end.
Proof.
  unfold call_gemini_with_model_iteration, models_to_try.
  by destruct (filter_cached (clock w) (priority_list cfg (cache w))
                 (cache w)) as [[kept skipped] c].
Qed.

(** A call that returns a response adds that response, and no failure
    report, to the trace; a call that returns the terminal failure adds a
    failure report and no response. *)
Lemma call_gemini_events cfg w :
  exists added,
    trace (snd (call_gemini_with_model_iteration env cfg contents w))
    = trace w ++ added
    /\ match fst (call_gemini_with_model_iteration env cfg contents w) with
       | Some (r, _) =>
           received added = [r]
           /\ forallb (fun e => negb (is_terminal_failure e)) added = true
       | None =>
           received added = []
           /\ existsb is_terminal_failure added = true
       end.
Proof.
  rewrite call_gemini_walks. cbv zeta.
  set (w1 := set_cache _ w).
  destruct (models_to_try cfg (clock w) (cache w)) as [|m ms] eqn:Ems.
  { exists [ev_no_models]. by cbn. }
  destruct (try_models_events (m :: ms) 1 (length (m :: ms)) w1)
    as (added & Htr & Hrec & Hterm).
  destruct (try_models env contents 1 (length (m :: ms)) (m :: ms) w1)
    as [[[r m1]|] w2]; cbn [fst snd] in *.
  - exists added. by split.
  - exists (added ++ [ev_all_failed]).
    split; [cbn [emit trace]; by rewrite Htr, app_assoc|].
    split.
    + unfold received in *. by rewrite omap_app, Hrec.
    + rewrite existsb_app. cbn. by rewrite orb_true_r.
Qed.

(** C4. The loop over a candidate list, started with [model_index = 1] and
    [total = len(models_to_try)]: (a) when some candidate's call returns
    and every call before it raised, whatever the errors, the loop returns
    that response with that candidate, after exactly that many calls;
    (b) it returns the terminal failure exactly when every candidate's call
    raises, and then every candidate has been called; (c) every failed
    call leaves its record, under the kind the policy assigns, in the cache
    (unless the same name succeeds later in the list); (d) the ten-second
    sleep happens exactly after a [RATE_LIMITED] failure that is not the
    last candidate. *)
Theorem executor_iteration ms w :
  ms <> [] ->
  (forall i m r,
     ms !! i = Some m ->
     generate_content env (calls w + i) m contents = Returned r ->
     (forall j m', j < i -> ms !! j = Some m' ->
        exists e, generate_content env (calls w + j) m' contents = Raised e) ->
     fst (try_models env contents 1 (length ms) ms w) = Some (r, m)
     /\ calls (snd (try_models env contents 1 (length ms) ms w))
        = calls w + i + 1)
  /\ (fst (try_models env contents 1 (length ms) ms w) = None <->
      forall j m', ms !! j = Some m' ->
        exists e, generate_content env (calls w + j) m' contents = Raised e)
  /\ (fst (try_models env contents 1 (length ms) ms w) = None ->
      calls (snd (try_models env contents 1 (length ms) ms w))
      = calls w + length ms)
  /\ (forall j m' e,
        j < calls (snd (try_models env contents 1 (length ms) ms w))
            - calls w ->
        ms !! j = Some m' ->
        generate_content env (calls w + j) m' contents = Raised e ->
        (forall r,
           fst (try_models env contents 1 (length ms) ms w)
           <> Some (r, m')) ->
        recorded_as (classify e) m'
          (cache (snd (try_models env contents 1 (length ms) ms w))))
  /\ (exists added,
        trace (snd (try_models env contents 1 (length ms) ms w))
        = trace w ++ added
        /\ forall m0,
             ev_backoff_sleep m0 ∈ added <->
             exists j e,
               j < calls (snd (try_models env contents 1 (length ms) ms w))
                   - calls w
               /\ ms !! j = Some m0
               /\ S j < length ms
               /\ generate_content env (calls w + j) m0 contents = Raised e
               /\ classify e = RATE_LIMITED).
Proof.
  intros _.
  pose proof (try_models_result ms 1 (length ms) w) as Hres.
  split; [|split; [|split; [|split]]].
  - intros i m r Hi Hgen Hbefore.
    destruct (fst (try_models env contents 1 (length ms) ms w))
      as [[r1 m1]|].
    + destruct Hres as (i1 & Hi1 & Hgen1 & Hn & _ & Hbefore1).
      destruct (Nat.lt_trichotomy i1 i) as [Hlt|[->|Hgt]].
      * destruct (Hbefore i1 m1 Hlt Hi1) as (e & He). congruence.
      * assert (m1 = m) as -> by congruence.
        assert (r1 = r) as -> by congruence. done.
      * destruct (Hbefore1 i m Hgt Hi) as (e & He). congruence.
    + destruct Hres as (_ & Hall).
      destruct (Hall i m Hi) as (e & He). congruence.
  - split.
    + intros Hnone. rewrite Hnone in Hres. by destruct Hres.
    + intros Hall.
      destruct (fst (try_models env contents 1 (length ms) ms w))
        as [[r1 m1]|]; [|done].
      destruct Hres as (i1 & Hi1 & Hgen1 & _).
      destruct (Hall i1 m1 Hi1) as (e & He). congruence.
  - intros Hnone. rewrite Hnone in Hres. by destruct Hres.
  - intros j m' e. apply try_models_recorded.
  - destruct (try_models_trace ms 1 (length ms) w) as (added & Htr & Hiff).
    exists added. split; [done|]. intros m0. rewrite Hiff.
    split; intros (j & e & Hj & Hm0 & Hidx & Hrest); exists j, e;
      (split; [done|]); (split; [done|]); (split; [lia|done]).
Qed.

(** C6. The kind assigned to an error string follows the priority order
    not-found, zero-quota, rate-or-quota, other; a call that raises leaves
    exactly the record of that kind for the model, and no other change, in
    the cache. *)
Theorem classification_priority idx total m e w :
  generate_content env (calls w) m contents = Raised e ->
  (is_not_found e = true -> classify e = NOT_FOUND)
  /\ (is_not_found e = false -> is_quota_exhausted e = true ->
      classify e = QUOTA_EXHAUSTED)
  /\ (is_not_found e = false -> is_quota_exhausted e = false ->
      is_rate_limit e = true -> classify e = RATE_LIMITED)
  /\ (is_not_found e = false -> is_quota_exhausted e = false ->
      is_rate_limit e = false -> classify e = OTHER)
  /\ fst (try_model env contents idx total m w) = None
  /\ (exists now,
        cache (snd (try_model env contents idx total m w))
        = record_kind (classify e) now m e (cache w))
  /\ recorded_as (classify e) m
       (cache (snd (try_model env contents idx total m w))).
Proof.
  intros Hgen.
  assert (forall b1 b2 b3,
            is_not_found e = b1 -> is_quota_exhausted e = b2 ->
            is_rate_limit e = b3 ->
            classify e
            = if b1 then NOT_FOUND
              else if b2 then QUOTA_EXHAUSTED
              else if b3 then RATE_LIMITED else OTHER) as Hcl.
  { intros b1 b2 b3 <- <- <-. reflexivity. }
  split; [intros H; by rewrite (Hcl _ _ _ H eq_refl eq_refl)|].
  split; [intros H1 H2; by rewrite (Hcl _ _ _ H1 H2 eq_refl)|].
  split; [intros H1 H2 H3; by rewrite (Hcl _ _ _ H1 H2 H3)|].
  split; [intros H1 H2 H3; by rewrite (Hcl _ _ _ H1 H2 H3)|].
  split; [by rewrite try_model_fst, Hgen|].
  destruct (try_model_raised idx total m w e Hgen) as (now & Hc).
  split; [by exists now|]. rewrite Hc. apply record_kind_recorded.
Qed.

End ExecutorFacts.

(** The policy on four error strings of the remote API. *)
Example classify_examples :
  Executor.classify "404 NOT_FOUND. models/x is not found; quota, limit: 0"
  = Executor.NOT_FOUND
  /\ Executor.classify "429 RESOURCE_EXHAUSTED. Quota exceeded, limit: 0"
     = Executor.QUOTA_EXHAUSTED
  /\ Executor.classify "429 Too Many Requests" = Executor.RATE_LIMITED
  /\ Executor.classify "503 UNAVAILABLE. The model is overloaded."
     = Executor.OTHER.
Proof. repeat split; reflexivity. Qed.

Lemma executor_iteration_witness :
  (fst (Executor.try_models Executor.limited_A_env [] 1 2 ["A"; "B"]
          Pacer.idle)
   = Some (Executor.text_response "ok", "B")
   /\ calls (snd (Executor.try_models Executor.limited_A_env [] 1 2
                    ["A"; "B"] Pacer.idle)) = 2%nat
   /\ Executor.recorded_as Executor.RATE_LIMITED "A"
        (cache (snd (Executor.try_models Executor.limited_A_env [] 1 2
                       ["A"; "B"] Pacer.idle)))
   /\ ev_backoff_sleep "A"
      ∈ trace (snd (Executor.try_models Executor.limited_A_env [] 1 2
                      ["A"; "B"] Pacer.idle)))
  /\ (fst (Executor.try_models Executor.limited_A_env [] 1 1 ["A"]
             Pacer.idle) = None
      /\ calls (snd (Executor.try_models Executor.limited_A_env [] 1 1
                       ["A"] Pacer.idle)) = 1%nat).
Proof.
  split.
  - destruct (executor_iteration Executor.limited_A_env [] ["A"; "B"]
                Pacer.idle)
      as (Hfirst & _ & _ & Hrec & added & Htr & Hsleep); [discriminate|].
    destruct (Hfirst 1%nat "B" (Executor.text_response "ok"))
      as [Hres Hcalls].
    + reflexivity.
    + reflexivity.
    + intros j m' Hj Hm'. destruct j as [|j]; [|lia].
      injection Hm' as <-. eexists. reflexivity.
    + split; [exact Hres|]. split; [exact Hcalls|]. split.
      * apply (Hrec 0%nat "A" "429 RESOURCE_EXHAUSTED: rate limit reached").
        -- rewrite Hcalls. cbn. lia.
        -- reflexivity.
        -- reflexivity.
        -- intros r. rewrite Hres. intros [=].
      * change (length ["A"; "B"]) with 2%nat in Htr. rewrite Htr.
        apply (Hsleep "A").
        exists 0%nat, "429 RESOURCE_EXHAUSTED: rate limit reached".
        split; [rewrite Hcalls; cbn; lia|].
        split; [reflexivity|]. split; [cbn; lia|].
        split; reflexivity.
  - destruct (executor_iteration Executor.limited_A_env [] ["A"] Pacer.idle)
      as (_ & Hnone & Hall & _); [discriminate|].
    assert (fst (Executor.try_models Executor.limited_A_env [] 1
                   (length ["A"]) ["A"] Pacer.idle) = None) as Hres.
    { apply Hnone. intros j m' Hm'. destruct j as [|j]; [|discriminate].
      injection Hm' as <-. eexists. reflexivity. }
    split; [exact Hres|]. exact (Hall Hres).
Defined.

Lemma classification_priority_witness :
  Executor.classify "429 RESOURCE_EXHAUSTED: rate limit reached"
  = Executor.RATE_LIMITED
  /\ Executor.recorded_as
       (Executor.classify "429 RESOURCE_EXHAUSTED: rate limit reached") "A"
       (cache (snd (Executor.try_model Executor.limited_A_env [] 1 2 "A"
                      Pacer.idle))).
Proof.
  destruct (classification_priority Executor.limited_A_env [] 1 2 "A"
              "429 RESOURCE_EXHAUSTED: rate limit reached" Pacer.idle)
    as (_ & _ & Hrate & _ & _ & _ & Hrec); [reflexivity|].
  split; [|exact Hrec]. apply Hrate; reflexivity.
Defined.

(** ** The [/message] handler *)

Section HandlerFacts.
Import Executor Handler.

Variable env : Env.
Variable cfg : Config.

Local Close Scope Q_scope.

#[local] Arguments call_gemini_with_model_iteration : simpl never.

Lemma received_app (tr1 tr2 : list event) :
  received (tr1 ++ tr2) = received tr1 ++ received tr2.
Proof. apply omap_app. Qed.

(** One part of a response, in the vocabulary of the properties. *)
Lemma scan_part_eq s p :
  scan_part env s p
  = match part_function_call p with
    | None =>
        (mkScan (text_step (final_text s) p) (has_function_call s)
                (tool_results s) (function_responses s), None)
    | Some call =>
        match call_exception env call with
        | Some error =>
            (mkScan (text_step (final_text s) p) true (tool_results s)
                    (function_responses s), Some error)
        | None =>
            (mkScan (text_step (final_text s) p) true
                    (tool_results s ++ [run_call env call])
                    (function_responses s ++ [response_part env call]),
             None)
        end
    end.
Proof.
  unfold scan_part, call_exception, call_execute_function, run_call,
    response_part, text_step.
  destruct s as [t h tr fr]. cbn [final_text has_function_call tool_results
                                  function_responses].
  destruct (part_text p) as [tx|]; [destruct (truthy tx)|];
    (destruct (part_function_call p) as [call|]; [|reflexivity]);
    cbn [final_text has_function_call tool_results function_responses];
    (destruct (keyword_clash (fc_args call)); [reflexivity|]);
    by destruct (print_result _).
Qed.

(** A scan raises the first exception among its calls; one that completes
    has kept the last non-empty text and has logged every call. *)
Lemma scan_parts_spec (ps : list Part) : forall s,
  snd (scan_parts env ps s)
  = head (omap (call_exception env) (omap part_function_call ps))
  /\ (snd (scan_parts env ps s) = None ->
      final_text (fst (scan_parts env ps s))
      = fold_left text_step ps (final_text s)
      /\ tool_results (fst (scan_parts env ps s))
         = tool_results s ++ map (run_call env) (omap part_function_call ps)
      /\ function_responses (fst (scan_parts env ps s))
         = function_responses s
           ++ map (response_part env) (omap part_function_call ps)
      /\ has_function_call (fst (scan_parts env ps s))
         = match omap part_function_call ps with
           | [] => has_function_call s
           | _ => true
           end).
Proof.
  induction ps as [|p ps IH]; intros s.
  { cbn. by rewrite !app_nil_r. }
  cbn [scan_parts fold_left]. rewrite scan_part_eq.
  change (omap part_function_call (p :: ps))
    with (match part_function_call p with
          | Some call => call :: omap part_function_call ps
          | None => omap part_function_call ps
          end).
  destruct (part_function_call p) as [call|].
  - change (omap (call_exception env) (call :: omap part_function_call ps))
      with (match call_exception env call with
            | Some error =>
                error :: omap (call_exception env)
                           (omap part_function_call ps)
            | None => omap (call_exception env) (omap part_function_call ps)
            end).
    destruct (call_exception env call) as [error|]; [by cbn|].
    destruct (IH (mkScan (text_step (final_text s) p) true
                    (tool_results s ++ [run_call env call])
                    (function_responses s ++ [response_part env call])))
      as [Hexc Hok].
    split; [exact Hexc|]. intros Hnone.
    destruct (Hok Hnone) as (Ht & Hr & Hf & Hh).
    cbn [final_text tool_results function_responses has_function_call]
      in Ht, Hr, Hf, Hh.
    rewrite Ht, Hr, Hf, Hh, <- !app_assoc. cbn [map app].
    by destruct (omap part_function_call ps).
  - destruct (IH (mkScan (text_step (final_text s) p) (has_function_call s)
                    (tool_results s) (function_responses s)))
      as [Hexc Hok].
    split; [exact Hexc|]. intros Hnone.
    destruct (Hok Hnone) as (Ht & Hr & Hf & Hh). by rewrite Ht, Hr, Hf, Hh.
Qed.

(** The same for a response scanned from the state the loop starts a round
    with. *)
Lemma scan_response_spec r text results :
  snd (scan_response env r (mkScan text false results []))
  = response_exception env r
  /\ (response_exception env r = None ->
      final_text (fst (scan_response env r (mkScan text false results [])))
      = extract_final_text r text
      /\ tool_results
           (fst (scan_response env r (mkScan text false results [])))
         = results ++ map (run_call env) (calls_of r)
      /\ function_responses
           (fst (scan_response env r (mkScan text false results [])))
         = map (response_part env) (calls_of r)
      /\ has_function_call
           (fst (scan_response env r (mkScan text false results [])))
         = match calls_of r with [] => false | _ => true end).
Proof.
  unfold scan_response, response_exception, calls_of, extract_final_text.
  destruct (scan_parts_spec (concat r) (mkScan text false results []))
    as [Hexc Hok].
  split; [exact Hexc|]. rewrite <- Hexc. exact Hok.
Qed.

(** The two turns appended after a completed scan are the follow-up turns
    of the response. *)
Lemma extend_with_round r results conversation :
  response_exception env r = None ->
  calls_of r <> [] ->
  extend_conversation conversation
    (results ++ map (run_call env) (calls_of r))
    (map (response_part env) (calls_of r))
  = conversation ++ follow_up_turns env r.
Proof.
  intros Hnone Hne.
  unfold extend_conversation, last_calls, follow_up_turns.
  rewrite Hnone, length_map.
  destruct (calls_of r) as [|c calls] eqn:Hc; [done|].
  cbn [length]. rewrite length_app, length_map. cbn [length].
  replace (length results + S (length calls) - S (length calls))
    with (length results) by lia.
  rewrite drop_app_length. by rewrite <- list_fmap_compose.
Qed.

Lemma text_fold_cases (ps : list Part) : forall t,
  fold_left text_step ps t = t
  \/ forall t', fold_left text_step ps t' = fold_left text_step ps t.
Proof.
  induction ps as [|p ps IH]; intros t; [by left|].
  cbn [fold_left].
  assert ((forall a, text_step a p = a)
          \/ exists tx, forall a, text_step a p = tx) as [Hs|[tx Hs]].
  { unfold text_step.
    destruct (part_text p) as [tx|]; [destruct (truthy tx)|];
      [right; by exists tx|by left..]. }
  - rewrite Hs. destruct (IH t) as [H|H]; [by left|right].
    intros t'. rewrite Hs. apply H.
  - right. intros t'. by rewrite !Hs.
Qed.

Lemma extract_idempotent r t :
  extract_final_text r (extract_final_text r t) = extract_final_text r t.
Proof.
  unfold extract_final_text.
  destruct (text_fold_cases (concat r) t) as [H|H].
  - by rewrite !H.
  - apply H.
Qed.

Lemma extract_app r1 r2 t :
  extract_final_text (r1 ++ r2) t
  = extract_final_text r2 (extract_final_text r1 t).
Proof.
  unfold extract_final_text. by rewrite concat_app, fold_left_app.
Qed.

(** What the loop leaves behind, from the responses it had in hand (the
    one it started with and those received since, of which it scans at
    most [rounds_left]): the number of rounds, the exception that left it
    if one did, the conversation, the log, and the text that the handler
    will return. *)
Lemma conversation_loop_spec rounds_left :
  forall iteration r text results conversation w,
  exists added,
    trace (snd (conversation_loop env cfg rounds_left iteration r text
                  results conversation w)) = trace w ++ added
    /\ loop_iteration
         (fst (conversation_loop env cfg rounds_left iteration r text
                 results conversation w))
       = iteration + Nat.min rounds_left (S (length (received added)))
    /\ length (received added) <= rounds_left
    /\ loop_exception
         (fst (conversation_loop env cfg rounds_left iteration r text
                 results conversation w))
       = first_exception env (take rounds_left (r :: received added))
    /\ loop_conversation
         (fst (conversation_loop env cfg rounds_left iteration r text
                 results conversation w))
       = conversation
         ++ flat_map (follow_up_turns env)
                     (take rounds_left (r :: received added))
    /\ (loop_exception
          (fst (conversation_loop env cfg rounds_left iteration r text
                  results conversation w)) = None ->
        loop_tool_results
          (fst (conversation_loop env cfg rounds_left iteration r text
                  results conversation w))
        = results ++ tool_log env (take rounds_left (r :: received added)))
    /\ (loop_exception
          (fst (conversation_loop env cfg rounds_left iteration r text
                  results conversation w)) <> None ->
        length (received added) < rounds_left)
    /\ match loop_response
               (fst (conversation_loop env cfg rounds_left iteration r text
                       results conversation w)) with
       | Some r_exit =>
           forallb (fun e => negb (is_terminal_failure e)) added = true
           /\ (loop_exception
                 (fst (conversation_loop env cfg rounds_left iteration r
                         text results conversation w)) = None ->
               extract_final_text r_exit
                 (loop_final_text
                    (fst (conversation_loop env cfg rounds_left iteration r
                            text results conversation w)))
               = extract_final_text (concat (r :: received added)) text)
       | None =>
           existsb is_terminal_failure added = true
           /\ loop_exception
                (fst (conversation_loop env cfg rounds_left iteration r text
                        results conversation w)) = None
           /\ length (received added) < rounds_left
       end.
Proof.
  induction rounds_left as [|k IH];
    intros iteration r text results conversation w.
  { exists []. cbn. rewrite !app_nil_r. repeat split; (done || lia). }
  cbn [conversation_loop].
  destruct (scan_response_spec r text results) as [Hexc Hok].
  destruct (scan_response env r (mkScan text false results []))
    as [s [error|]]; cbn [fst snd] in *.
  { exists []. change (received []) with (@nil Response).
    cbn [fst snd length firstn loop_iteration loop_exception
         loop_conversation loop_response loop_tool_results].
    unfold first_exception. rewrite !take_nil. cbn [omap list_omap flat_map].
    unfold follow_up_turns. rewrite <- Hexc.
    cbn [head]. rewrite !app_nil_r.
    repeat split; (done || lia). }
  symmetry in Hexc. destruct (Hok Hexc) as (Htext & Ht & Hf & Hh).
  destruct (calls_of r) as [|c calls] eqn:Hcalls.
  - rewrite Hh. cbn [negb fst snd]. exists [].
    change (received []) with (@nil Response).
    cbn [fst snd length firstn loop_iteration loop_exception
         loop_conversation loop_response loop_tool_results].
    unfold first_exception, tool_log. rewrite !take_nil.
    cbn [omap list_omap flat_map]. unfold follow_up_turns.
    rewrite Hexc, Hcalls, Ht, Htext. cbn [head map app].
    rewrite !app_nil_r.
    repeat split; try (done || lia).
    intros _. cbn [loop_final_text concat]. rewrite app_nil_r.
    apply extract_idempotent.
  - rewrite Hh. cbn [negb]. rewrite Ht, Hf, <- Hcalls.
    rewrite extend_with_round by (done || by rewrite Hcalls).
    set (conversation' := conversation ++ follow_up_turns env r).
    destruct (call_gemini_events env conversation' cfg w)
      as (added1 & Htr1 & Hev1).
    destruct (call_gemini_with_model_iteration env cfg conversation' w)
      as [[[r' model_used]|] w1]; cbn [fst snd] in *.
    + destruct Hev1 as [Hrec1 Hterm1].
      destruct (IH (S iteration) r' (final_text s)
                   (results ++ map (run_call env) (calls_of r))
                   conversation' w1)
        as (added2 & Htr2 & Hit & Hlen & Hraise & Hconv & Hlog & Hshort
            & Hexit).
      exists (added1 ++ added2).
      split; [by rewrite Htr2, Htr1, app_assoc|].
      rewrite received_app, Hrec1.
      cbn [app length firstn].
      split; [rewrite Hit; lia|]. split; [lia|].
      split.
      { rewrite Hraise. unfold first_exception. cbn [omap list_omap].
        by rewrite Hexc. }
      split.
      { rewrite Hconv. subst conversation'. cbn [flat_map].
        by rewrite <- app_assoc. }
      split.
      { intros Hnone. rewrite (Hlog Hnone). unfold tool_log.
        cbn [flat_map]. by rewrite <- app_assoc. }
      split; [intros Hsome; specialize (Hshort Hsome); lia|].
      destruct (loop_response _) as [r_exit|].
      * destruct Hexit as (Hterm2 & Hfinal).
        split; [by rewrite forallb_app, Hterm1, Hterm2|].
        intros Hnone. rewrite (Hfinal Hnone), Htext. cbn [concat].
        by rewrite (extract_app r).
      * destruct Hexit as (Hterm2 & Hnone & Hlt).
        split; [by rewrite existsb_app, Hterm2, orb_true_r|].
        split; [done|lia].
    + destruct Hev1 as [Hrec1 Hterm1]. exists added1.
      cbn [fst snd loop_iteration loop_exception loop_conversation
           loop_response loop_tool_results].
      rewrite Hrec1. cbn [length firstn].
      unfold first_exception, tool_log. rewrite !take_nil.
      cbn [omap list_omap flat_map]. rewrite Hexc. cbn [head].
      subst conversation'. rewrite !app_nil_r.
      repeat split; try (done || lia).
Qed.


End HandlerFacts.

(** ** Scripted runs of the handler *)

Section HandlerRuns.
Import Handler.


(** Against the backend that always asks for a tool, the handler stops
    after three rounds and answers with the empty text. *)
Example message_at_the_cap :
  fst (message always_tool_env two_models
         "Is a 5 nm carbon dot toxic?" Pacer.idle)
  = mkReply true ""
      (replicate 3
         (mkToolCall "predict_toxicity_without_family"
            [("ParticleSize", VNum 5); ("Dose", VNum 25)]
            [("success", VBool true)]))
      (Some 3%nat).
Proof. vm_compute. reflexivity. Qed.

(** A requested call whose arguments hold the key [function_name] ends
    the run in the [except] branch, although the backend answered. *)
Example message_tool_exception :
  fst (message clash_env two_models "Is a 5 nm carbon dot toxic?"
         Pacer.idle)
  = mkReply false
      "Error: execute_function() got multiple values for argument 'function_name'"
      [] None.
Proof. vm_compute. reflexivity. Qed.

(** C2, on the failing input: the first response carries a text and a tool
    request, the tool runs, and the follow-up call fails on every model.
    The loop leaves with the text and the tool result in hand, but the
    handler then reads [response.candidates] of [None] and answers with the
    error object: [success = False], the text of the [AttributeError], and
    an empty [tool_calls]. *)
Theorem message_followup_failure :
  (loop_response <$> followup_loop) = Some None
  /\ (loop_final_text <$> followup_loop)
     = Some "Running the model."
  /\ (loop_tool_results <$> followup_loop)
     = Some [mkToolCall "predict_toxicity_without_family"
               [("ParticleSize", VNum 5); ("Dose", VNum 25)]
               [("success", VBool true)]]
  /\ fst (message followup_fails_env two_models
            "Is a 5 nm carbon dot toxic?" Pacer.idle)
     = mkReply false
         "Error: 'NoneType' object has no attribute 'candidates'" [] None.
Proof. repeat split; vm_compute; reflexivity. Qed.

End HandlerRuns.

(** * Further properties of the code *)

(** ** The cache, beyond the claims *)

Section CacheMore.
Import Cache CacheOps.

Implicit Types (c : ModelStatusCache) (e m : string) (k : expiring_kind).

(** X1. [is_model_cached_as_failed] answers true exactly when the model is
    in [not_found] or has, in one of the three expiring buckets, a record
    younger than that bucket's expiration; an expired record in an earlier
    bucket does not hide a live record in a later one. *)
Theorem query_answer now e c :
  is_failed now e c = true <->
  e ∈ not_found c
  \/ (exists t, quota_exhausted c !! e = Some t
                /\ now - t < EXPIRATION_quota_exhausted)
  \/ (exists t, rate_limited c !! e = Some t
                /\ now - t < EXPIRATION_rate_limited)
  \/ (exists msg t, other_errors c !! e = Some (msg, t)
                    /\ now - t < EXPIRATION_other_errors).
Proof.
  rewrite is_failed_true_iff. unfold unexpired. split.
  - intros [H|[[| |] (t & Hrec & Hlt)]]; [by left|right..]; cbn in Hrec, Hlt.
    + left. by exists t.
    + right. left. by exists t.
    + right. right. destruct (other_errors c !! e) as [[msg t']|]; [|done].
      cbn in Hrec. injection Hrec as ->. by exists msg, t.
  - intros [H|[(t & Hrec & Hlt)|[(t & Hrec & Hlt)|(msg & t & Hrec & Hlt)]]];
      [by left|right..].
    + exists quota_kind, t. by split.
    + exists rate_kind, t. by split.
    + exists other_kind, t. cbn. rewrite Hrec. by split.
Qed.

(** Case analysis along the branches of a query, for the proofs below. *)
Ltac query_branches now e c :=
  unfold after_query, is_failed, is_model_cached_as_failed;
  cbn [recorded_at];
  destruct (decide (e ∈ not_found c)); cbn;
  [|destruct (quota_exhausted c !! e) as [?tq|] eqn:?Eq; cbn;
    [destruct (Qltb (now - tq) EXPIRATION_quota_exhausted) eqn:?Cq; cbn|];
    [|destruct (rate_limited c !! e) as [?tr|] eqn:?Er; cbn;
      [destruct (Qltb (now - tr) EXPIRATION_rate_limited) eqn:?Cr; cbn|];
      [|destruct (other_errors c !! e) as [[?msg ?to]|] eqn:?Eo; cbn;
        [destruct (Qltb (now - to) EXPIRATION_other_errors) eqn:?Co;
         cbn|]..]..]].

(** X2. A query is read-only as far as answers go: it never touches the
    working set or [not_found], it deletes only records of the queried
    model that have expired at the time of the query, it adds nothing, and
    so it changes the answer of no query made at the same clock reading. *)
Theorem query_is_read_only now e c :
  working (after_query now e c) = working c
  /\ not_found (after_query now e c) = not_found c
  /\ (forall m, is_failed now m (after_query now e c) = is_failed now m c)
  /\ (forall k m t,
        recorded_at k (after_query now e c) m = Some t ->
        recorded_at k c m = Some t)
  /\ (forall k m t,
        recorded_at k c m = Some t ->
        m <> e \/ now - t < expiry k ->
        recorded_at k (after_query now e c) m = Some t).
Proof.
  split; [apply after_query_working|].
  split; [apply after_query_not_found|].
  split; [intros m; apply after_query_is_failed|].
  split.
  - intros k m t. destruct (decide (m = e)) as [->|Hne];
      [|by rewrite after_query_recorded_ne].
    destruct k; query_branches now e c;
      rewrite ?lookup_delete_eq, ?Eq, ?Er, ?Eo; cbn; done.
  - intros k m t Hrec Hlive. destruct (decide (m = e)) as [->|Hne];
      [|by rewrite after_query_recorded_ne].
    destruct Hlive as [Hne|Hlt]; [done|]. apply Qltb_lt in Hlt.
    revert Hrec Hlt.
    destruct k; query_branches now e c;
      rewrite ?lookup_delete_eq, ?Eq, ?Er, ?Eo; cbn;
      try done; intros [= <-]; congruence.
Qed.

Lemma query_is_read_only_witness :
  recorded_at quota_kind
    (after_query 400 "m"
       (cache_model_failure 100 "m" "quota_exhausted" ""
          (cache_model_failure 0 "m" "rate_limited" "" empty_cache))) "m"
  = Some 100
  /\ recorded_at quota_kind
       (cache_model_failure 100 "m" "quota_exhausted" ""
          (cache_model_failure 0 "m" "rate_limited" "" empty_cache)) "m"
     = Some 100.
Proof.
  destruct (query_is_read_only 400 "m"
              (cache_model_failure 100 "m" "quota_exhausted" ""
                 (cache_model_failure 0 "m" "rate_limited" "" empty_cache)))
    as (_ & _ & _ & Hsub & Hkeep).
  assert (recorded_at quota_kind
            (after_query 400 "m"
               (cache_model_failure 100 "m" "quota_exhausted" ""
                  (cache_model_failure 0 "m" "rate_limited" ""
                     empty_cache))) "m" = Some 100) as H.
  { apply Hkeep; [reflexivity|]. right. reflexivity. }
  split; [exact H|]. exact (Hsub _ _ _ H).
Defined.

(** X3. Recording a failure or a success of one model changes the answer
    of the failure query for no other model, at any time, and a success
    leaves the working-set membership of other models alone. *)
Theorem other_models_untouched now e ty msg c m t :
  m <> e ->
  is_failed t m (cache_model_failure now e ty msg c) = is_failed t m c
  /\ is_failed t m (cache_model_success e c) = is_failed t m c
  /\ (m ∈ working (cache_model_success e c) <-> m ∈ working c).
Proof.
  intros Hne. split; [|split].
  - assert (m ∈ not_found (cache_model_failure now e ty msg c)
            <-> m ∈ not_found c) as Hnf.
    { unfold cache_model_failure.
      destruct (decide (ty = "not_found")); cbn;
        [rewrite elem_of_union, elem_of_singleton; tauto|].
      destruct (decide (ty = "quota_exhausted")); [done|].
      destruct (decide (ty = "rate_limited")); [done|].
      by destruct (decide (ty = "other_error")). }
    assert (forall k, recorded_at k (cache_model_failure now e ty msg c) m
                      = recorded_at k c m) as Hrec.
    { intros k. unfold cache_model_failure.
      destruct (decide (ty = "not_found")); [by destruct k|].
      destruct (decide (ty = "quota_exhausted"));
        [destruct k; cbn; by rewrite ?lookup_insert_ne|].
      destruct (decide (ty = "rate_limited"));
        [destruct k; cbn; by rewrite ?lookup_insert_ne|].
      destruct (decide (ty = "other_error"));
        [destruct k; cbn; by rewrite ?lookup_insert_ne|done]. }
    rewrite !is_failed_eq, !Hrec. by rewrite (bool_decide_ext _ _ Hnf).
  - rewrite !is_failed_eq. cbn. by rewrite !lookup_delete_ne.
  - rewrite success_working, elem_of_union, elem_of_singleton. tauto.
Qed.

Lemma other_models_untouched_witness :
  is_failed 10 "b"
    (cache_model_failure 0 "a" "not_found" ""
       (cache_model_failure 0 "b" "rate_limited" "" empty_cache))
  = is_failed 10 "b" (cache_model_failure 0 "b" "rate_limited" "" empty_cache).
Proof.
  apply (other_models_untouched 0 "a" "not_found" ""
           (cache_model_failure 0 "b" "rate_limited" "" empty_cache)
           "b" 10).
  discriminate.
Defined.

(** X4. Failure records accumulate and restart: a second failure of the
    same kind replaces the timestamp, so the expiry runs from the latest
    failure; a failure of another kind keeps the earlier record, so the
    model stays excluded as long as either record is live. *)
Theorem failures_accumulate k k' e msg msg' t0 t1 c :
  recorded_at k
    (cache_model_failure t1 e (error_type_of k) msg'
       (cache_model_failure t0 e (error_type_of k) msg c)) e = Some t1
  /\ (k' <> k ->
      recorded_at k
        (cache_model_failure t1 e (error_type_of k') msg'
           (cache_model_failure t0 e (error_type_of k) msg c)) e = Some t0)
  /\ (forall t,
        k' <> k -> t - t0 < expiry k \/ t - t1 < expiry k' ->
        is_failed t e
          (cache_model_failure t1 e (error_type_of k') msg'
             (cache_model_failure t0 e (error_type_of k) msg c)) = true).
Proof.
  split; [apply failure_recorded|]. split.
  - intros Hne. by rewrite failure_recorded_other, failure_recorded.
  - intros t Hne Hlive. apply is_failed_true_iff. right.
    destruct Hlive as [Hlt|Hlt].
    + exists k, t0. split; [|done].
      by rewrite failure_recorded_other, failure_recorded.
    + exists k', t1. split; [apply failure_recorded|done].
Qed.

Lemma failures_accumulate_witness :
  recorded_at quota_kind
    (cache_model_failure 50 "m" "rate_limited" ""
       (cache_model_failure 0 "m" "quota_exhausted" "" empty_cache)) "m"
  = Some 0
  /\ is_failed 3000 "m"
       (cache_model_failure 50 "m" "rate_limited" ""
          (cache_model_failure 0 "m" "quota_exhausted" "" empty_cache))
     = true.
Proof.
  destruct (failures_accumulate quota_kind rate_kind "m" "" "" 0 50
              empty_cache) as (_ & Hkeep & Hlive).
  split.
  - apply Hkeep. discriminate.
  - apply Hlive; [discriminate|]. left. reflexivity.
Defined.

(** X5. A success forgives every expiring record of the model and nothing
    else: right after [cache_model_success(e)], and at any time, the model
    is reported failed exactly when it is in [not_found]. *)
Theorem success_forgives now e c :
  is_failed now e (cache_model_success e c) = true <-> e ∈ not_found c.
Proof.
  rewrite is_failed_true_iff, success_not_found. split; [|by left].
  intros [H|(k & t & Hrec & _)]; [done|].
  by rewrite success_recorded in Hrec.
Qed.

End CacheMore.

(** ** Administrative operations and status reports *)

Section AdminFacts.
Import Cache CacheOps Selector Status.

Implicit Types (c : ModelStatusCache) (m : string).

(** X6. [clear_specific_cache] accepts exactly the five keys of the cache
    (so not the [error_type] literal [other_error]); it empties the named
    bucket and leaves the other four as they were.  Clearing [working]
    changes no answer of the failure query; after clearing [not_found] a
    model is reported failed exactly when it has a live expiring record. *)
Theorem clear_specific_cache_spec ty c :
  (is_Some (clear_specific_cache ty c) <->
   ty ∈ ["quota_exhausted"; "rate_limited"; "other_errors"; "not_found";
         "working"])
  /\ (forall c',
        clear_specific_cache ty c = Some c' ->
        quota_exhausted c'
        = (if decide (ty = "quota_exhausted") then ∅ else quota_exhausted c)
        /\ rate_limited c'
           = (if decide (ty = "rate_limited") then ∅ else rate_limited c)
        /\ other_errors c'
           = (if decide (ty = "other_errors") then ∅ else other_errors c)
        /\ not_found c'
           = (if decide (ty = "not_found") then ∅ else not_found c)
        /\ working c'
           = (if decide (ty = "working") then ∅ else working c))
  /\ (forall c' now m,
        clear_specific_cache ty c = Some c' -> ty = "working" ->
        is_failed now m c' = is_failed now m c)
  /\ (forall c' now m,
        clear_specific_cache ty c = Some c' -> ty = "not_found" ->
        (is_failed now m c' = true <-> exists k, unexpired k now m c)).
Proof.
  split; [|split; [|split]].
  - unfold clear_specific_cache. rewrite !elem_of_cons, elem_of_nil.
    destruct (decide (ty = "quota_exhausted")); [split; eauto|].
    destruct (decide (ty = "rate_limited")); [split; eauto|].
    destruct (decide (ty = "other_errors")); [split; eauto 6|].
    destruct (decide (ty = "not_found")); [split; eauto 6|].
    destruct (decide (ty = "working")); [split; eauto 7|].
    split; [by intros [? ?]|]. intros H. exfalso. tauto.
  - intros c'. unfold clear_specific_cache.
    destruct (decide (ty = "quota_exhausted")) as [->|];
      [by intros [= <-]|].
    destruct (decide (ty = "rate_limited")) as [->|]; [by intros [= <-]|].
    destruct (decide (ty = "other_errors")) as [->|]; [by intros [= <-]|].
    destruct (decide (ty = "not_found")) as [->|]; [by intros [= <-]|].
    destruct (decide (ty = "working")) as [->|]; [by intros [= <-]|done].
  - intros c' now m Hc ->. cbn in Hc. injection Hc as <-.
    by rewrite !is_failed_eq.
  - intros c' now m Hc ->. cbn in Hc. injection Hc as <-.
    rewrite is_failed_true_iff. cbn. split.
    + intros [H|H]; [by apply elem_of_empty in H|done].
    + by right.
Qed.

Lemma clear_specific_cache_spec_witness :
  is_Some (clear_specific_cache "not_found" missing_m)
  /\ is_failed 10 "m" missing_m = true
  /\ (forall c', clear_specific_cache "not_found" missing_m = Some c' ->
                 is_failed 10 "m" c' = false)
  /\ clear_specific_cache "other_error" missing_m = None.
Proof.
  destruct (clear_specific_cache_spec "not_found" missing_m)
    as (Hok & _ & _ & Hretry).
  split; [apply Hok; rewrite !elem_of_cons; tauto|].
  split; [reflexivity|]. split; [|reflexivity].
  intros c' Hc. apply not_true_iff_false. intros Hf.
  apply (Hretry c' 10 "m" Hc eq_refl) in Hf as (k & t & Hrec & _).
  destruct k; vm_compute in Hrec; discriminate.
Defined.

(** X7. After [reset_model_cache()] no model is reported failed and the
    working set is empty, so every call walks the whole priority list,
    primary first. *)
Theorem reset_restores_candidates cfg now c m :
  is_failed now m (reset_model_cache c) = false
  /\ working (reset_model_cache c) = ∅
  /\ models_to_try cfg now (reset_model_cache c)
     = priority_list cfg empty_cache
  /\ (truthy (PRIMARY_MODEL cfg) = true ->
      head (models_to_try cfg now (reset_model_cache c))
      = Some (PRIMARY_MODEL cfg)).
Proof.
  assert (models_to_try cfg now (reset_model_cache c)
          = priority_list cfg empty_cache) as Heq.
  { rewrite models_to_try_eq. unfold reset_model_cache.
    induction (priority_list cfg empty_cache) as [|x l IH]; [done|].
    cbn. by rewrite is_failed_empty, IH. }
  split; [apply is_failed_empty|]. split; [done|]. split; [done|].
  intros HP. rewrite Heq. unfold priority_list. cbn [working empty_cache].
  rewrite elements_empty, HP.
  rewrite (bool_decide_eq_false_2 (PRIMARY_MODEL cfg ∈ []))
    by apply not_elem_of_nil.
  cbn [andb negb app].
  assert (forall infos acc x,
            head acc = Some x ->
            head (fold_left add_discovered infos acc) = Some x) as Hhead.
  { induction infos as [|i infos IH]; intros acc x Hx; [done|].
    cbn. apply IH. unfold add_discovered.
    destruct (bool_decide _); [done|].
    destruct (is_text_generation _); [|done]. by destruct acc. }
  apply Hhead. by destruct (_ && _).
Qed.

Lemma reset_restores_candidates_witness :
  head (models_to_try example_config 10 (reset_model_cache missing_m))
  = Some "models/gemini-2.5-flash".
Proof.
  apply (reset_restores_candidates example_config 10 missing_m "m").
  reflexivity.
Defined.

Lemma Qtrunc_below_one (x : Q) : x < 1 -> (Qtrunc x <= 0)%Z.
Proof.
  destruct x as [n d]. unfold Qlt, Qtrunc. cbn. intros Hlt.
  destruct (Z_lt_le_dec n 0) as [Hneg|Hpos].
  - replace n with (- - n)%Z by lia.
    rewrite Z.quot_opp_l by lia.
    assert (0 <= Z.quot (- n) (Z.pos d))%Z by (apply Z.quot_pos; lia). lia.
  - rewrite Z.quot_small; lia.
Qed.

Lemma Qtrunc_le (x : Q) : 0 <= x -> inject_Z (Qtrunc x) <= x.
Proof.
  destruct x as [n d]. unfold Qle, Qtrunc, inject_Z. cbn. intros Hpos.
  rewrite Z.quot_div_nonneg by lia.
  pose proof (Z.mul_div_le n (Z.pos d)). lia.
Qed.

(** The arithmetic of the remaining minutes. *)
Lemma expires_in_minutes_bounds expiration now timestamp :
  (0 <= expires_in_minutes expiration now timestamp)%Z
  /\ (timestamp + expiration <= now ->
      expires_in_minutes expiration now timestamp = 0%Z)
  /\ ((1 <= expires_in_minutes expiration now timestamp)%Z ->
      now - timestamp < expiration)
  /\ (timestamp <= now ->
      0 <= expiration ->
      inject_Z (expires_in_minutes expiration now timestamp) * 60
      <= expiration).
Proof.
  unfold expires_in_minutes.
  set (y := (timestamp + expiration - now) / 60).
  assert (y * 60 == timestamp + expiration - now) as Hy
    by (subst y; field).
  split; [apply Z.le_max_l|]. split; [|split].
  - intros Hexp. assert (y < 1) as Hlt by lra.
    apply Qtrunc_below_one in Hlt. lia.
  - intros Hone. destruct (Qlt_le_dec y 1) as [Hlt|Hge]; [|lra].
    apply Qtrunc_below_one in Hlt. lia.
  - intros Hpast Hexp. destruct (Qlt_le_dec y 0) as [Hneg|Hpos].
    + assert (y < 1) as Hlt by lra. apply Qtrunc_below_one in Hlt.
      rewrite Z.max_l by lia. change (inject_Z 0) with 0. lra.
    + pose proof (Qtrunc_le y Hpos) as Hle.
      destruct (Z.max_spec 0 (Qtrunc y)) as [[_ ->]|[_ ->]]; [lra|].
      change (inject_Z 0) with 0. lra.
Qed.

(** X8. The report of [get_cache_status] evicts nothing: it lists exactly
    the models of each bucket, an expired record with 0 minutes left.  The
    minutes shown are never negative, and a model shown with one minute or
    more in any of the three buckets is reported failed by the cache at
    that time. *)
Theorem cache_status_report now c m :
  dom (status_quota_exhausted (get_cache_status now c))
  = dom (quota_exhausted c)
  /\ dom (status_rate_limited (get_cache_status now c))
     = dom (rate_limited c)
  /\ dom (status_other_errors (get_cache_status now c))
     = dom (other_errors c)
  /\ (forall t,
        quota_exhausted c !! m = Some t ->
        t + EXPIRATION_quota_exhausted <= now ->
        status_quota_exhausted (get_cache_status now c) !! m
        = Some (mkTimedEntry t 0))
  /\ (forall entry,
        status_quota_exhausted (get_cache_status now c) !! m = Some entry
        \/ status_rate_limited (get_cache_status now c) !! m = Some entry ->
        (0 <= entry_expires_in_minutes entry)%Z
        /\ ((1 <= entry_expires_in_minutes entry)%Z ->
            is_failed now m c = true))
  /\ (forall entry,
        status_other_errors (get_cache_status now c) !! m = Some entry ->
        (0 <= error_expires_in_minutes entry)%Z
        /\ ((1 <= error_expires_in_minutes entry)%Z ->
            is_failed now m c = true)).
Proof.
  cbn [get_cache_status status_quota_exhausted status_rate_limited
       status_other_errors].
  split; [apply dom_fmap_L|]. split; [apply dom_fmap_L|].
  split; [apply dom_fmap_L|]. split; [|split].
  - intros t Hrec Hexp. rewrite lookup_fmap, Hrec. cbn.
    by destruct (expires_in_minutes_bounds EXPIRATION_quota_exhausted now t)
      as (_ & -> & _).
  - intros entry [H|H]; rewrite lookup_fmap in H.
    + destruct (quota_exhausted c !! m) as [t|] eqn:Hrec; [|done].
      injection H as <-. cbn.
      destruct (expires_in_minutes_bounds EXPIRATION_quota_exhausted now t)
        as (Hpos & _ & Hlive & _).
      split; [done|]. intros Hone. apply is_failed_true_iff. right.
      exists quota_kind, t. split; [done|]. by apply Hlive.
    + destruct (rate_limited c !! m) as [t|] eqn:Hrec; [|done].
      injection H as <-. cbn.
      destruct (expires_in_minutes_bounds EXPIRATION_rate_limited now t)
        as (Hpos & _ & Hlive & _).
      split; [done|]. intros Hone. apply is_failed_true_iff. right.
      exists rate_kind, t. split; [done|]. by apply Hlive.
  - intros entry H. rewrite lookup_fmap in H.
    destruct (other_errors c !! m) as [[msg t]|] eqn:Hrec; [|done].
    injection H as <-. cbn.
    destruct (expires_in_minutes_bounds EXPIRATION_other_errors now t)
      as (Hpos & _ & Hlive & _).
    split; [done|]. intros Hone. apply is_failed_true_iff. right.
    exists other_kind, t. cbn. rewrite Hrec. split; [done|]. by apply Hlive.
Qed.

Lemma cache_status_report_witness :
  status_quota_exhausted
    (get_cache_status 4000
       (cache_model_failure 0 "m" "quota_exhausted" "" empty_cache)) !! "m"
  = Some (mkTimedEntry 0 0)
  /\ is_failed 100 "m"
       (cache_model_failure 0 "m" "rate_limited" "" empty_cache) = true.
Proof.
  split.
  - destruct (cache_status_report 4000
                (cache_model_failure 0 "m" "quota_exhausted" "" empty_cache)
                "m") as (_ & _ & _ & Hzero & _).
    apply Hzero; [reflexivity|]. vm_compute. discriminate.
  - destruct (cache_status_report 100
                (cache_model_failure 0 "m" "rate_limited" "" empty_cache)
                "m") as (_ & _ & _ & _ & Hlive & _).
    apply (Hlive (mkTimedEntry 0 3)).
    + right. vm_compute. reflexivity.
    + vm_compute. discriminate.
Defined.

End AdminFacts.

(** ** The request throttle, beyond the claim *)

Section PacerMore.
Import Pacer.

Lemma drop_older_split now (times : list Q) :
  exists dropped,
    times = dropped ++ drop_older_than_minute now times
    /\ Forall (fun t => 60 < now - t) dropped
    /\ (forall t, head (drop_older_than_minute now times) = Some t ->
                  now - t <= 60).
Proof.
  induction times as [|t0 rest IH].
  { exists []. repeat split; [constructor|done]. }
  cbn. destruct (Qltb 60 (now - t0)) eqn:Hcmp.
  - apply Qltb_lt in Hcmp. destruct IH as (dropped & Heq & Hold & Hhead).
    exists (t0 :: dropped). split; [cbn; by rewrite <- Heq|].
    split; [by constructor|done].
  - apply Qltb_ge in Hcmp. exists []. split; [done|]. split; [constructor|].
    by intros t [= <-].
Qed.

Lemma throttle_request_times extra w :
  request_times (throttle_requests extra w)
  = deque_append (clock (throttle_requests extra w))
      (drop_older_than_minute (clock w) (request_times w)).
Proof.
  unfold throttle_requests. cbn.
  destruct (last (drop_older_than_minute (clock w) (request_times w)))
    as [t|]; [destruct (Qltb (clock w - t) MIN_REQUEST_INTERVAL)|];
    reflexivity.
Qed.

Lemma throttle_trace_exact extra w :
  trace (throttle_requests extra w)
  = trace w
    ++ match last (drop_older_than_minute (clock w) (request_times w)) with
       | Some t_last =>
           if Qltb (clock w - t_last) MIN_REQUEST_INTERVAL
           then [ev_throttle_sleep
                   (MIN_REQUEST_INTERVAL - (clock w - t_last))]
           else []
       | None => []
       end.
Proof.
  unfold throttle_requests. cbn.
  destruct (last (drop_older_than_minute (clock w) (request_times w)))
    as [t|]; [destruct (Qltb (clock w - t) MIN_REQUEST_INTERVAL)|];
    cbn; by rewrite ?app_nil_r.
Qed.

(** X9. [request_times] is a rolling window: a call first drops, from the
    old end, the entries more than a minute old (and only those, stopping
    at the first younger one), appends the new timestamp, and never leaves
    more than 15 entries. *)
Theorem throttle_window extra w :
  exists dropped kept,
    request_times w = dropped ++ kept
    /\ Forall (fun t => 60 < clock w - t) dropped
    /\ (forall t, head kept = Some t -> clock w - t <= 60)
    /\ request_times (throttle_requests extra w)
       = drop (S (length kept) - maxlen)
              (kept ++ [clock (throttle_requests extra w)])
    /\ (length (request_times (throttle_requests extra w)) <= maxlen)%nat.
Proof.
  destruct (drop_older_split (clock w) (request_times w))
    as (dropped & Heq & Hold & Hhead).
  exists dropped, (drop_older_than_minute (clock w) (request_times w)).
  split; [done|]. split; [done|]. split; [done|].
  rewrite throttle_request_times. unfold deque_append.
  rewrite length_app. cbn [length].
  replace (length (drop_older_than_minute (clock w) (request_times w)) + 1)%nat
    with (S (length (drop_older_than_minute (clock w) (request_times w))))
    by lia.
  split; [done|]. rewrite length_drop, length_app. cbn [length].
  unfold maxlen. lia.
Qed.

(** X10. With an empty window, or a latest entry at least
    [MIN_REQUEST_INTERVAL] old, the call does not sleep.  When the latest
    entry is not in the future, a sleep lasts more than 0 and at most
    [MIN_REQUEST_INTERVAL] seconds, and the call takes at most
    [MIN_REQUEST_INTERVAL] beyond its own overhead. *)
Theorem throttle_sleep_bounds extra w :
  (request_times w = []
   \/ (exists t_last, last (request_times w) = Some t_last
                      /\ MIN_REQUEST_INTERVAL <= clock w - t_last) ->
   trace (throttle_requests extra w) = trace w
   /\ clock (throttle_requests extra w) = clock w + extra)
  /\ (forall t_last,
        last (request_times w) = Some t_last ->
        t_last <= clock w ->
        clock (throttle_requests extra w) - clock w
        <= MIN_REQUEST_INTERVAL + extra
        /\ exists added,
             trace (throttle_requests extra w) = trace w ++ added
             /\ Forall (fun e =>
                          exists d, e = ev_throttle_sleep d
                                    /\ 0 < d /\ d <= MIN_REQUEST_INTERVAL)
                       added).
Proof.
  rewrite throttle_trace_exact, throttle_clock.
  unfold MIN_REQUEST_INTERVAL. split.
  - intros [Hempty|(t_last & Hlast & Hold)].
    + rewrite Hempty. cbn. by rewrite app_nil_r.
    + destruct (drop_older_last (clock w) _ _ Hlast) as [->|[-> _]].
      * apply Qltb_ge in Hold. rewrite Hold. by rewrite app_nil_r.
      * cbn. by rewrite app_nil_r.
  - intros t_last Hlast Hpast.
    destruct (drop_older_last (clock w) _ _ Hlast) as [->|[-> _]].
    + destruct (Qltb (clock w - t_last) 5) eqn:Hcmp.
      * apply Qltb_lt in Hcmp. split; [lra|]. eexists. split; [done|].
        apply Forall_singleton. eexists. split; [done|]. lra.
      * apply Qltb_ge in Hcmp. split; [lra|]. exists [].
        split; [done|constructor].
    + cbn. split; [lra|]. exists []. split; [done|constructor].
Qed.

Lemma throttle_sleep_bounds_witness :
  trace (throttle_requests 0 idle) = trace idle
  /\ clock (throttle_requests 0
              (set_request_times (fun _ => [97; 99]) idle))
     - clock (set_request_times (fun _ => [97; 99]) idle)
     <= MIN_REQUEST_INTERVAL + 0.
Proof.
  split.
  - destruct (throttle_sleep_bounds 0 idle) as [Hquiet _].
    apply Hquiet. left. reflexivity.
  - destruct (throttle_sleep_bounds 0
                (set_request_times (fun _ => [97; 99]) idle))
      as [_ Hbusy].
    destruct (Hbusy 99) as [Hbound _];
      [reflexivity|vm_compute; discriminate|exact Hbound].
Defined.

(** X11. Time order is kept: when the window is in non-decreasing order
    and its latest entry is not in the future, then after a call (whose
    overhead is not negative) the window is again in non-decreasing order,
    and every entry is at most a minute older than the start of the call
    and not later than the timestamp just recorded. *)
Theorem throttle_keeps_order extra w :
  Sorted.StronglySorted Qle (request_times w) ->
  (forall t, last (request_times w) = Some t -> t <= clock w) ->
  0 <= extra ->
  Sorted.StronglySorted Qle (request_times (throttle_requests extra w))
  /\ Forall (fun t => clock w - t <= 60
                      /\ t <= clock (throttle_requests extra w))
            (request_times (throttle_requests extra w)).
Proof.
  intros Hsorted Hlast Hextra.
  destruct (drop_older_split (clock w) (request_times w))
    as (dropped & Heq & _ & Hhead).
  set (kept := drop_older_than_minute (clock w) (request_times w)) in *.
  assert (Sorted.StronglySorted Qle kept) as Hkept.
  { rewrite Heq in Hsorted. by apply sorting.StronglySorted_app_1_r in Hsorted. }
  assert (Forall (fun t => t <= clock w) kept) as Hpast.
  { apply Forall_forall. intros t Ht.
    destruct (last kept) as [tl|] eqn:Hl.
    - assert (last (request_times w) = Some tl) as Hl'.
      { rewrite Heq, last_app, Hl. done. }
      apply Hlast in Hl'. apply last_Some in Hl as [kept' Hk].
      rewrite Hk in Hkept, Ht. apply elem_of_app in Ht as [Ht|Ht].
      + pose proof (sorting.StronglySorted_app_1_elem_of Qle kept' [tl] t tl Hkept Ht)
          as Hle. assert (t <= tl) by (apply Hle; by apply list_elem_of_singleton).
        lra.
      + apply list_elem_of_singleton in Ht as ->. done.
    - apply last_None in Hl. rewrite Hl in Ht. by apply elem_of_nil in Ht. }
  assert (Forall (fun t => clock w - t <= 60) kept) as Hyoung.
  { destruct kept as [|t0 kept'] eqn:Hk; [constructor|].
    assert (clock w - t0 <= 60) as H0 by (by apply Hhead).
    apply sorting.StronglySorted_cons in Hkept as [Hall _].
    constructor; [done|]. eapply Forall_impl; [exact Hall|].
    intros t Ht. cbn in Ht. lra. }
  assert (clock w <= clock (throttle_requests extra w)) as Hclock.
  { rewrite throttle_clock. fold kept. unfold MIN_REQUEST_INTERVAL.
    destruct (last kept) as [tl|]; [|lra].
    destruct (Qltb (clock w - tl) 5) eqn:Hcmp; [|lra].
    apply Qltb_lt in Hcmp. lra. }
  rewrite throttle_request_times. fold kept. unfold deque_append.
  set (now' := clock (throttle_requests extra w)) in *.
  assert (Sorted.StronglySorted Qle (kept ++ [now'])
          /\ Forall (fun t => clock w - t <= 60 /\ t <= now')
                    (kept ++ [now'])) as [Hs Hf].
  { split.
    - apply sorting.StronglySorted_app_2; [|done|repeat constructor].
      intros x1 x2 Hx1 ->%list_elem_of_singleton.
      rewrite Forall_forall in Hpast. specialize (Hpast x1 Hx1). lra.
    - apply Forall_app. split.
      + rewrite Forall_forall in Hpast, Hyoung. apply Forall_forall.
        intros t Ht. specialize (Hpast t Ht). specialize (Hyoung t Ht).
        split; lra.
      + apply Forall_singleton. split; lra. }
  split.
  - rewrite <- (take_drop (length (kept ++ [now']) - maxlen) (kept ++ [now']))
      in Hs. by apply sorting.StronglySorted_app_1_r in Hs.
  - by apply Forall_drop.
Qed.

Lemma throttle_keeps_order_witness :
  Sorted.StronglySorted Qle
    (request_times
       (throttle_requests 0
          (set_request_times (fun _ => [10; 50; 97; 99]) idle))).
Proof.
  apply (throttle_keeps_order 0
           (set_request_times (fun _ => [10; 50; 97; 99]) idle)).
  - repeat (constructor; try (vm_compute; discriminate)).
  - intros t [= <-]. vm_compute. discriminate.
  - vm_compute. discriminate.
Defined.

End PacerMore.

(** ** Candidate selection, beyond the claims *)

Section SelectorMore.
Import Cache CacheOps Selector.

Implicit Types (cfg : Config) (c : ModelStatusCache) (m : string).

Lemma add_discovered_keeps (acc : list string) info m :
  m ∈ acc -> m ∈ add_discovered acc info.
Proof.
  intros Hm. unfold add_discovered.
  destruct (bool_decide _); [done|].
  destruct (is_text_generation _); [|done]. apply elem_of_app. by left.
Qed.

Lemma fold_add_discovered_keeps (infos : list ModelInfo) :
  forall (acc : list string) m,
    m ∈ acc -> m ∈ fold_left add_discovered infos acc.
Proof.
  induction infos as [|i infos IH]; intros acc m Hm; [done|].
  cbn. apply IH. by apply add_discovered_keeps.
Qed.

Lemma fold_add_discovered_adds (infos : list ModelInfo) :
  forall (acc : list string) info,
    info ∈ infos -> capable info = true ->
    full_name info ∈ fold_left add_discovered infos acc.
Proof.
  induction infos as [|i infos IH]; intros acc info Hin Hcap.
  { by apply elem_of_nil in Hin. }
  cbn. apply elem_of_cons in Hin as [->|Hin]; [|by apply IH].
  apply fold_add_discovered_keeps. unfold add_discovered.
  case_bool_decide as Hold; [done|].
  unfold capable in Hcap. rewrite Hcap. apply elem_of_app. right.
  by apply list_elem_of_singleton.
Qed.

(** The members of the priority list. *)
Lemma priority_list_members cfg c m :
  (truthy m = true /\ (m = PRIMARY_MODEL cfg \/ m = FALLBACK_MODEL cfg))
  \/ m ∈ working c
  \/ (exists info, info ∈ AVAILABLE_MODELS cfg /\ full_name info = m
                   /\ capable info = true) ->
  m ∈ priority_list cfg c.
Proof.
  unfold priority_list.
  set (first := if truthy (PRIMARY_MODEL cfg)
                   && negb (bool_decide
                              (PRIMARY_MODEL cfg ∈ elements (working c)))
                then [PRIMARY_MODEL cfg] else []).
  assert (forall x, x ∈ working c -> x ∈ first ++ elements (working c))
    as Hworking.
  { intros x Hx. apply elem_of_app. right. by apply elem_of_elements. }
  assert (truthy (PRIMARY_MODEL cfg) = true ->
          PRIMARY_MODEL cfg ∈ first ++ elements (working c)) as Hprimary.
  { intros HP. subst first. rewrite HP. cbn [andb].
    case_bool_decide as Hin; cbn [negb].
    - apply elem_of_app. by right.
    - apply elem_of_app. left. by apply list_elem_of_singleton. }
  clearbody first.
  intros [[Ht [->| ->]]|[Hw|(info & Hin & <- & Hcap)]].
  - apply fold_add_discovered_keeps. specialize (Hprimary Ht).
    destruct (_ && _); [apply elem_of_app; by left|done].
  - apply fold_add_discovered_keeps. rewrite Ht. cbn [andb].
    case_bool_decide as Hin; cbn [negb]; [done|].
    apply elem_of_app. right. by apply list_elem_of_singleton.
  - apply fold_add_discovered_keeps. specialize (Hworking m Hw).
    destruct (_ && _); [apply elem_of_app; by left|done].
  - by apply fold_add_discovered_adds.
Qed.

(** The candidate list has no repetition (shared helper). *)
Lemma models_to_try_NoDup_aux cfg now c : NoDup (models_to_try cfg now c).
Proof.
  rewrite models_to_try_eq.
  apply NoDup_ListNoDup, List.NoDup_filter, NoDup_ListNoDup.
  apply priority_list_NoDup.
Qed.

(** X12. The candidate list is the priority list with the models reported
    failed at that moment taken out and the order kept; a model in
    [not_found] is never a candidate, not even the primary or a working
    model; kept and skipped models together are the whole priority
    list. *)
Theorem candidates_are_the_unfailed cfg now c :
  models_to_try cfg now c
  = List.filter (fun m => negb (is_failed now m c)) (priority_list cfg c)
  /\ (forall m, m ∈ models_to_try cfg now c <->
                m ∈ priority_list cfg c /\ is_failed now m c = false)
  /\ sublist (models_to_try cfg now c) (priority_list cfg c)
  /\ (forall m, m ∈ not_found c -> m ∉ models_to_try cfg now c)
  /\ (length (models_to_try cfg now c)
      + length (snd (fst (filter_cached now (priority_list cfg c) c)))
      = length (priority_list cfg c))%nat.
Proof.
  split; [apply models_to_try_eq|].
  split; [intros m; apply models_to_try_elem|]. split; [|split].
  - rewrite models_to_try_eq.
    induction (priority_list cfg c) as [|x l IH]; [constructor|].
    cbn. destruct (negb _); by constructor.
  - intros m Hnf [_ Hf]%models_to_try_elem.
    assert (is_failed now m c = true) as Ht
      by (apply is_failed_true_iff; by left).
    congruence.
  - unfold models_to_try. generalize (priority_list cfg c) as l.
    intros l. revert c. induction l as [|x l IH]; intros c; [done|].
    cbn [filter_cached].
    destruct (is_model_cached_as_failed now x c) as [[failed why] c1].
    specialize (IH c1).
    destruct (filter_cached now l c1) as [[kept skipped] c2].
    cbn [fst snd length] in *. destruct failed; cbn [fst snd length]; lia.
Qed.

Lemma candidates_are_the_unfailed_witness :
  "models/gemini-2.5-flash" ∉ models_to_try example_config 10 both_missing.
Proof.
  destruct (candidates_are_the_unfailed example_config 10 both_missing)
    as (_ & _ & _ & Hnf & _).
  apply Hnf. apply (bool_decide_unpack _). vm_compute. reflexivity.
Defined.

(** X13. Unless reported failed at that moment, the configured primary
    and fallback, every working model, and every discovered model that
    passes the text-generation test are candidates; and a primary that is
    not in the working set is the first candidate. *)
Theorem unfailed_models_are_candidates cfg now c m :
  is_failed now m c = false ->
  ((truthy m = true /\ (m = PRIMARY_MODEL cfg \/ m = FALLBACK_MODEL cfg))
   \/ m ∈ working c
   \/ (exists info, info ∈ AVAILABLE_MODELS cfg /\ full_name info = m
                    /\ is_text_generation (lower (display_name info))
                       = true) ->
   m ∈ models_to_try cfg now c)
  /\ (truthy m = true -> m = PRIMARY_MODEL cfg -> m ∉ working c ->
      head (models_to_try cfg now c) = Some m).
Proof.
  intros Hf. split.
  - intros Hm. apply models_to_try_elem. split; [|done].
    by apply priority_list_members.
  - intros Ht -> Hw. rewrite models_to_try_eq. unfold priority_list.
    rewrite Ht.
    rewrite (bool_decide_eq_false_2
               (PRIMARY_MODEL cfg ∈ elements (working c)))
      by (by rewrite elem_of_elements).
    cbn [andb negb app].
    assert (forall infos acc x,
              head acc = Some x ->
              head (fold_left add_discovered infos acc) = Some x) as Hhead.
    { induction infos as [|i infos IH]; intros acc x Hx; [done|].
      cbn. apply IH. unfold add_discovered.
      destruct (bool_decide _); [done|].
      destruct (is_text_generation _); [|done]. by destruct acc. }
    match goal with
    | |- head (List.filter _ (fold_left _ _ ?acc)) = _ =>
        pose proof (Hhead (AVAILABLE_MODELS cfg) acc (PRIMARY_MODEL cfg))
          as Hh
    end.
    destruct (fold_left add_discovered _ _) as [|x l].
    + assert (@head string [] = Some (PRIMARY_MODEL cfg)) as Habs;
        [|done]. apply Hh. by destruct (_ && _).
    + assert (head (x :: l) = Some (PRIMARY_MODEL cfg)) as Hx
        by (apply Hh; by destruct (_ && _)).
      cbn in Hx. injection Hx as ->. cbn. by rewrite Hf.
Qed.

Lemma unfailed_models_are_candidates_witness :
  "models/gemma-3-27b-it" ∈ models_to_try example_config 10 both_missing
  /\ head (models_to_try example_config 10 empty_cache)
     = Some "models/gemini-2.5-flash".
Proof.
  split.
  - destruct (unfailed_models_are_candidates example_config 10 both_missing
                "models/gemma-3-27b-it") as [Hin _]; [reflexivity|].
    apply Hin. right. right.
    exists (mkModelInfo "models/gemma-3-27b-it" "gemma-3-27b"
              "gemma-3-27b-it").
    split; [|split; reflexivity].
    apply (list_elem_of_lookup_2 _ 4). reflexivity.
  - destruct (unfailed_models_are_candidates example_config 10 empty_cache
                "models/gemini-2.5-flash") as [_ Hhead]; [reflexivity|].
    apply Hhead; [reflexivity|reflexivity|]. apply not_elem_of_empty.
Defined.

End SelectorMore.

(** ** Model iteration, beyond the claims *)

Section ExecutorMore.
Import Cache CacheOps Selector Executor.

Variable env : Env.
Variable contents : Conversation.

Implicit Types (cfg : Config) (w : World) (m : string) (ms : list string).

#[local] Arguments Pacer.throttle_requests : simpl never.
#[local] Arguments handle_failure : simpl never.

(** The queries of the filter loop leave every answer at that clock
    reading, the working set and [not_found] as they were. *)
Lemma filter_cached_cache now ms : forall c,
  working (snd (filter_cached now ms c)) = working c
  /\ not_found (snd (filter_cached now ms c)) = not_found c
  /\ forall m, is_failed now m (snd (filter_cached now ms c))
               = is_failed now m c.
Proof.
  induction ms as [|x ms IH]; intros c; [done|].
  cbn [filter_cached].
  pose proof (after_query_working now x c) as Hw.
  pose proof (after_query_not_found now x c) as Hn.
  pose proof (fun m => after_query_is_failed now x m c) as Hf.
  unfold after_query in Hw, Hn, Hf.
  destruct (is_model_cached_as_failed now x c) as [[failed why] c1].
  cbn [snd] in Hw, Hn, Hf.
  destruct (IH c1) as (Hw1 & Hn1 & Hf1).
  destruct (filter_cached now ms c1) as [[kept skipped] c2].
  cbn [snd] in *.
  assert (working c2 = working c /\ not_found c2 = not_found c
          /\ forall m, is_failed now m c2 = is_failed now m c) as H.
  { split; [congruence|]. split; [congruence|].
    intros m. by rewrite Hf1, Hf. }
  by destruct failed.
Qed.

(** X14. When every model of the priority list is reported failed, the
    function returns the terminal failure at once: no remote call, no
    sleep, the clock and [request_times] untouched, one report in the
    trace, and a cache that answers every query of that moment as
    before. *)
Theorem no_candidates_no_call cfg w :
  models_to_try cfg (clock w) (cache w) = [] ->
  fst (call_gemini_with_model_iteration env cfg contents w) = None
  /\ calls (snd (call_gemini_with_model_iteration env cfg contents w))
     = calls w
  /\ clock (snd (call_gemini_with_model_iteration env cfg contents w))
     = clock w
  /\ request_times (snd (call_gemini_with_model_iteration env cfg contents w))
     = request_times w
  /\ trace (snd (call_gemini_with_model_iteration env cfg contents w))
     = trace w ++ [ev_no_models]
  /\ working (cache (snd (call_gemini_with_model_iteration env cfg
                            contents w)))
     = working (cache w)
  /\ forall m,
       is_failed (clock w) m
         (cache (snd (call_gemini_with_model_iteration env cfg contents w)))
       = is_failed (clock w) m (cache w).
Proof.
  intros Hnone. rewrite call_gemini_walks. cbv zeta. rewrite Hnone. cbn.
  destruct (filter_cached_cache (clock w) (priority_list cfg (cache w))
              (cache w)) as (Hw & _ & Hf).
  by repeat split.
Qed.

(** One round makes one remote call, to its model. *)
Lemma try_model_generated idx total m w :
  exists added,
    trace (snd (try_model env contents idx total m w)) = trace w ++ added
    /\ generated added = [m].
Proof.
  unfold try_model.
  pose proof (throttle_trace_exact (lag env (calls w)) w) as Htr.
  destruct (generate_content env (calls w) m contents); cbn.
  - rewrite Htr. rewrite <- !app_assoc. eexists. split; [done|].
    unfold generated. rewrite !omap_app.
    destruct (last _) as [t|]; [destruct (Qltb _ _)|]; reflexivity.
  - rewrite handle_failure_trace. cbn. rewrite Htr, <- !app_assoc.
    eexists. split; [done|]. unfold generated. rewrite !omap_app.
    destruct (last _) as [t|]; [destruct (Qltb _ _)|];
      by destruct (_ && _).
Qed.

Lemma try_models_generated ms : forall idx total w,
  exists added,
    trace (snd (try_models env contents idx total ms w)) = trace w ++ added
    /\ generated added
       = take (calls (snd (try_models env contents idx total ms w))
               - calls w) ms
    /\ (calls (snd (try_models env contents idx total ms w)) - calls w
        <= length ms)%nat.
Proof.
  induction ms as [|m ms IH]; intros idx total w.
  { exists []. cbn. rewrite app_nil_r, Nat.sub_diag. by repeat split. }
  cbn [try_models].
  pose proof (try_model_calls env contents idx total m w) as Hcalls.
  destruct (try_model_generated idx total m w) as (added1 & Htr1 & Hgen1).
  destruct (try_model env contents idx total m w) as [[r|] w1];
    cbn [fst snd] in *.
  - exists added1. split; [done|]. rewrite Hcalls.
    replace (S (calls w) - calls w)%nat with 1%nat by lia.
    split; [done|]. cbn. lia.
  - destruct (IH (S idx) total w1) as (added2 & Htr2 & Hgen2 & Hlen).
    pose proof (try_models_calls_ge env contents ms (S idx) total w1) as Hge.
    rewrite Hcalls in Hgen2, Hlen, Hge.
    exists (added1 ++ added2). split; [by rewrite Htr2, Htr1, app_assoc|].
    split.
    + unfold generated in *. rewrite omap_app, Hgen1, Hgen2.
      replace (calls (snd (try_models env contents (S idx) total ms w1))
               - calls w)%nat
        with (S (calls (snd (try_models env contents (S idx) total ms w1))
                 - S (calls w)))%nat by lia.
      reflexivity.
    + cbn [length]. lia.
Qed.

(** X15. The remote calls of one invocation go, in order and without
    gaps, to the first candidates of the list: no model is called twice,
    none out of turn, and none that the cache reported failed at entry. *)
Theorem remote_calls_follow_candidates cfg w :
  exists added,
    trace (snd (call_gemini_with_model_iteration env cfg contents w))
    = trace w ++ added
    /\ generated added
       = take (calls (snd (call_gemini_with_model_iteration env cfg
                             contents w)) - calls w)
              (models_to_try cfg (clock w) (cache w))
    /\ NoDup (generated added)
    /\ forall m, m ∈ generated added ->
                 is_failed (clock w) m (cache w) = false.
Proof.
  assert (exists added,
    trace (snd (call_gemini_with_model_iteration env cfg contents w))
    = trace w ++ added
    /\ generated added
       = take (calls (snd (call_gemini_with_model_iteration env cfg
                             contents w)) - calls w)
              (models_to_try cfg (clock w) (cache w))) as (added & Htr & Hgen).
  { rewrite call_gemini_walks. cbv zeta.
    set (w1 := set_cache _ w).
    destruct (models_to_try cfg (clock w) (cache w)) as [|m0 ms] eqn:Ems.
    { exists [ev_no_models]. cbn. by rewrite Nat.sub_diag. }
    destruct (try_models_generated (m0 :: ms) 1 (length (m0 :: ms)) w1)
      as (added & Htr & Hgen & _).
    destruct (try_models env contents 1 (length (m0 :: ms)) (m0 :: ms) w1)
      as [[found|] w2]; cbn [fst snd] in *.
    - exists added. by split.
    - exists (added ++ [ev_all_failed]). cbn [emit trace calls].
      split; [by rewrite Htr, app_assoc|].
      unfold generated in *. by rewrite omap_app, Hgen, app_nil_r. }
  exists added. split; [done|]. split; [done|]. rewrite Hgen. split.
  - eapply sublist_NoDup; [apply models_to_try_NoDup_aux|].
    apply sublist_take.
  - intros m Hm. apply subseteq_take in Hm.
    by apply models_to_try_elem in Hm as [_ Hf].
Qed.

Lemma success_answer now m c :
  m ∉ not_found c -> is_failed now m (cache_model_success m c) = false.
Proof.
  intros Hnf. apply is_failed_false_iff. split; [done|].
  intros k (t & Hrec & _). by rewrite success_recorded in Hrec.
Qed.

Lemma record_kind_not_found kind now m0 e c m :
  m <> m0 -> m ∉ not_found c -> m ∉ not_found (record_kind kind now m0 e c).
Proof.
  intros Hne Hnf. destruct kind; cbn; try done.
  rewrite elem_of_union, elem_of_singleton. tauto.
Qed.

(** The model that answers ends the loop with a clean record. *)
Lemma try_models_winner ms : forall idx total w r m,
  fst (try_models env contents idx total ms w) = Some (r, m) ->
  NoDup ms ->
  m ∉ not_found (cache w) ->
  forall now,
    is_failed now m (cache (snd (try_models env contents idx total ms w)))
    = false.
Proof.
  induction ms as [|m0 ms IH]; intros idx total w r m Hres Hnd Hnf now.
  { discriminate. }
  apply NoDup_cons in Hnd as [Hfresh Hnd].
  cbn [try_models] in *.
  pose proof (try_model_fst env contents idx total m0 w) as Hfst.
  destruct (try_model env contents idx total m0 w) as [[r0|] w1] eqn:Etry;
    cbn [fst snd] in *.
  - injection Hres as -> ->.
    destruct (generate_content env (calls w) m contents) as [r'|] eqn:Egen;
      [|done].
    pose proof (try_model_returned env contents idx total m w r' Egen) as Hc.
    rewrite Etry in Hc. cbn in Hc. rewrite Hc. by apply success_answer.
  - destruct (generate_content env (calls w) m0 contents) as [|e] eqn:Egen;
      [done|].
    destruct (try_model_raised env contents idx total m0 w e Egen)
      as (t & Hc).
    rewrite Etry in Hc. cbn in Hc.
    pose proof (try_models_result env contents ms (S idx) total w1) as Hr.
    rewrite Hres in Hr. destruct Hr as (i & Hi & _).
    assert (m <> m0) as Hne.
    { intros ->. apply Hfresh. by eapply list_elem_of_lookup_2. }
    apply (IH (S idx) total w1 r m); [done|done|].
    rewrite Hc. by apply record_kind_not_found.
Qed.

(** X16. The model returned with a response was a candidate at entry; on
    return it is in the working set and the cache reports it failed at no
    time, so it is a candidate of every later call, under any
    configuration, until it fails. *)
Theorem winner_stays_candidate cfg w r m :
  fst (call_gemini_with_model_iteration env cfg contents w) = Some (r, m) ->
  m ∈ models_to_try cfg (clock w) (cache w)
  /\ m ∈ working (cache (snd (call_gemini_with_model_iteration env cfg
                                contents w)))
  /\ (forall now,
        is_failed now m
          (cache (snd (call_gemini_with_model_iteration env cfg contents w)))
        = false)
  /\ (forall cfg' now,
        m ∈ models_to_try cfg' now
              (cache (snd (call_gemini_with_model_iteration env cfg
                             contents w)))).
Proof.
  rewrite call_gemini_walks. cbv zeta.
  set (w1 := set_cache _ w).
  destruct (models_to_try cfg (clock w) (cache w)) as [|m0 ms] eqn:Ems;
    [discriminate|].
  pose proof (try_models_result env contents (m0 :: ms) 1
                (length (m0 :: ms)) w1) as Hr.
  pose proof (try_models_winner (m0 :: ms) 1 (length (m0 :: ms)) w1) as Hwin.
  destruct (try_models env contents 1 (length (m0 :: ms)) (m0 :: ms) w1)
    as [[[r1 m1]|] w2]; cbn [fst snd] in *; [|discriminate].
  intros [= -> ->].
  destruct Hr as (i & Hi & _ & _ & Hw & _).
  assert (m ∈ m0 :: ms) as Hin by (by eapply list_elem_of_lookup_2).
  assert (forall now, is_failed now m (cache w2) = false) as Hok.
  { apply (Hwin r m eq_refl).
    - rewrite <- Ems. apply models_to_try_NoDup_aux.
    - subst w1. cbn [cache set_cache].
      destruct (filter_cached_cache (clock w) (priority_list cfg (cache w))
                  (cache w)) as (_ & -> & _).
      rewrite <- Ems in Hin. apply models_to_try_elem in Hin as [_ Hf].
      by apply is_failed_false_iff in Hf as [Hnf _]. }
  split; [done|]. split; [done|]. split; [done|].
  intros cfg' now. apply models_to_try_elem. split; [|done].
  apply priority_list_members. right. by left.
Qed.

(** X17. A model whose call raised is skipped afterwards: from the moment
    the failure is recorded it is no candidate, under any configuration,
    for as long as the expiration of its failure kind has not passed, and
    for ever when the kind is [NOT_FOUND]. *)
Theorem failed_model_is_skipped cfg idx total m e w now :
  generate_content env (calls w) m contents = Raised e ->
  still_excluded (classify e)
    (now - (clock (Pacer.throttle_requests (lag env (calls w)) w)
            + latency env (calls w))) ->
  m ∉ models_to_try cfg now
        (cache (snd (try_model env contents idx total m w))).
Proof.
  intros Hgen Hage [_ Hf]%models_to_try_elem.
  assert (is_failed now m
            (cache (snd (try_model env contents idx total m w))) = true)
    as Ht; [|congruence].
  clear Hf. unfold try_model. rewrite Hgen. cbn [snd].
  rewrite handle_failure_cache. cbn [clock advance count_call emit cache].
  apply is_failed_true_iff.
  destruct (classify e); cbn [record_kind still_excluded] in *.
  - left. cbn. apply elem_of_union_l, elem_of_singleton. reflexivity.
  - right. exists quota_kind. eexists. cbn. rewrite lookup_insert_eq.
    split; [done|]. exact Hage.
  - right. exists rate_kind. eexists. cbn. rewrite lookup_insert_eq.
    split; [done|]. exact Hage.
  - right. exists other_kind. eexists. cbn. rewrite lookup_insert_eq.
    split; [done|]. exact Hage.
Qed.

(** Two throttled moments are at least the minimum interval apart. *)
Lemma throttle_gap extra1 extra2 w w' :
  (0 <= extra2)%Q ->
  request_times w' = request_times (Pacer.throttle_requests extra1 w) ->
  (clock (Pacer.throttle_requests extra1 w) <= clock w')%Q ->
  (Pacer.MIN_REQUEST_INTERVAL
   <= clock (Pacer.throttle_requests extra2 w')
      - clock (Pacer.throttle_requests extra1 w))%Q.
Proof.
  intros Hextra Htimes Hclock.
  rewrite (throttle_clock extra2 w').
  pose proof (throttle_last extra1 w) as Hlast. rewrite <- Htimes in Hlast.
  set (t1 := clock (Pacer.throttle_requests extra1 w)) in *.
  unfold Pacer.MIN_REQUEST_INTERVAL in *.
  destruct (drop_older_last (clock w') _ _ Hlast) as [->|[-> Hold]].
  - destruct (Qltb (clock w' - t1) 5) eqn:Hcmp;
      [apply Qltb_lt in Hcmp|apply Qltb_ge in Hcmp]; lra.
  - cbn [last]. lra.
Qed.

Lemma handle_failure_request_times idx total m e w :
  request_times (handle_failure env idx total m e w) = request_times w.
Proof.
  unfold handle_failure.
  destruct (is_not_found e); [reflexivity|].
  destruct (is_quota_exhausted e); [reflexivity|].
  destruct (is_rate_limit e); [|reflexivity].
  by destruct (bool_decide _).
Qed.

Lemma handle_failure_clock idx total m e w :
  (forall n, 0 <= lag env n)%Q ->
  (clock w <= clock (handle_failure env idx total m e w))%Q.
Proof.
  intros Hlag. unfold handle_failure.
  destruct (is_not_found e); [apply Qle_refl|].
  destruct (is_quota_exhausted e); [apply Qle_refl|].
  destruct (is_rate_limit e); [|apply Qle_refl].
  destruct (bool_decide _); [|apply Qle_refl].
  match goal with
  | |- (_ <= clock (advance (_ + lag env ?n) ?w'))%Q =>
      pose proof (Hlag n) as Hl;
      change (clock (advance (BACKOFF + lag env n) w'))
        with (clock w + (BACKOFF + lag env n))%Q
  end.
  unfold BACKOFF. lra.
Qed.

(** X18. The remote calls of one invocation are paced: when a model's
    call raises and the loop goes on to the next model, the timestamps
    that the throttle records for the two calls are at least
    [MIN_REQUEST_INTERVAL] apart, provided remote calls and sleeps take no
    negative time. *)
Theorem consecutive_attempts_are_spaced idx total m1 m2 w :
  (forall n, 0 <= lag env n)%Q ->
  (forall n, 0 <= latency env n)%Q ->
  fst (try_model env contents idx total m1 w) = None ->
  exists t1 t2,
    last (request_times (snd (try_model env contents idx total m1 w)))
    = Some t1
    /\ last (request_times
               (snd (try_model env contents (S idx) total m2
                       (snd (try_model env contents idx total m1 w)))))
       = Some t2
    /\ (Pacer.MIN_REQUEST_INTERVAL <= t2 - t1)%Q.
Proof.
  intros Hlag Hlatency Hfailed.
  rewrite try_model_fst in Hfailed.
  destruct (generate_content env (calls w) m1 contents) as [|e] eqn:Hgen;
    [discriminate|].
  set (w0 := Pacer.throttle_requests (lag env (calls w)) w).
  assert (request_times (snd (try_model env contents idx total m1 w))
          = request_times w0
          /\ (clock w0
              <= clock (snd (try_model env contents idx total m1 w)))%Q)
    as [Htimes Hclock].
  { unfold try_model. rewrite Hgen. cbn [snd].
    rewrite handle_failure_request_times. split; [done|].
    eapply Qle_trans; [|by apply handle_failure_clock].
    pose proof (Hlatency (calls w)) as Hl.
    change (clock w0 <= clock w0 + latency env (calls w))%Q. lra. }
  set (w1 := snd (try_model env contents idx total m1 w)) in *.
  assert (exists w1',
            request_times (snd (try_model env contents (S idx) total m2 w1))
            = request_times w1'
            /\ w1' = Pacer.throttle_requests (lag env (calls w1)) w1)
    as (w1' & Htimes' & ->).
  { eexists. split; [|reflexivity]. unfold try_model.
    destruct (generate_content env (calls w1) m2 contents); cbn [snd].
    - reflexivity.
    - by rewrite handle_failure_request_times. }
  exists (clock w0), (clock (Pacer.throttle_requests (lag env (calls w1)) w1)).
  split; [rewrite Htimes; apply throttle_last|].
  split; [rewrite Htimes'; apply throttle_last|].
  by apply throttle_gap.
Qed.

End ExecutorMore.

Section ExecutorRuns.
Import Cache CacheOps Selector Executor.

Lemma no_candidates_no_call_witness :
  fst (call_gemini_with_model_iteration limited_A_env Handler.two_models []
         (set_cache (fun _ => both_missing) Pacer.idle)) = None
  /\ calls (snd (call_gemini_with_model_iteration limited_A_env
                   Handler.two_models []
                   (set_cache (fun _ => both_missing) Pacer.idle))) = 0%nat.
Proof.
  destruct (no_candidates_no_call limited_A_env [] Handler.two_models
              (set_cache (fun _ => both_missing) Pacer.idle))
    as (Hres & Hcalls & _).
  - vm_compute. reflexivity.
  - split; [exact Hres|exact Hcalls].
Defined.

Lemma remote_calls_follow_candidates_witness :
  is_failed (clock Pacer.idle) "A" (cache Pacer.idle) = false.
Proof.
  destruct (remote_calls_follow_candidates limited_A_env []
              (mkConfig "A" "B" []) Pacer.idle)
    as (added & _ & Hgen & _ & Hok).
  apply (Hok "A"). rewrite Hgen.
  apply (bool_decide_unpack _). vm_compute. reflexivity.
Defined.

Lemma winner_stays_candidate_witness :
  "B" ∈ working
          (cache (snd (call_gemini_with_model_iteration limited_A_env
                         (mkConfig "A" "B" []) [] Pacer.idle)))
  /\ "B" ∈ models_to_try Handler.two_models 5000
             (cache (snd (call_gemini_with_model_iteration limited_A_env
                            (mkConfig "A" "B" []) [] Pacer.idle))).
Proof.
  destruct (winner_stays_candidate limited_A_env [] (mkConfig "A" "B" [])
              Pacer.idle (text_response "ok") "B")
    as (_ & Hw & _ & Hnext).
  - vm_compute. reflexivity.
  - split; [exact Hw|apply Hnext].
Defined.

Lemma failed_model_is_skipped_witness :
  "A" ∉ models_to_try (mkConfig "A" "B" []) 400
          (cache (snd (try_model limited_A_env [] 1 2 "A" Pacer.idle))).
Proof.
  apply (failed_model_is_skipped limited_A_env [] (mkConfig "A" "B" [])
           1 2 "A" "429 RESOURCE_EXHAUSTED: rate limit reached"
           Pacer.idle 400).
  - reflexivity.
  - vm_compute. reflexivity.
Defined.

Lemma consecutive_attempts_are_spaced_witness :
  exists t1 t2,
    last (request_times (snd (try_model limited_A_env [] 1 2 "A" Pacer.idle)))
    = Some t1
    /\ last (request_times
               (snd (try_model limited_A_env [] 2 2 "B"
                       (snd (try_model limited_A_env [] 1 2 "A"
                               Pacer.idle)))))
       = Some t2
    /\ (Pacer.MIN_REQUEST_INTERVAL <= t2 - t1)%Q.
Proof.
  apply (consecutive_attempts_are_spaced limited_A_env [] 1 2 "A" "B"
           Pacer.idle).
  - intros n. vm_compute. discriminate.
  - intros n. vm_compute. discriminate.
  - reflexivity.
Defined.

End ExecutorRuns.

(** ** The handler, beyond the claims *)

Section HandlerMore.
Import Executor Handler.

Variable env : Env.
Variable cfg : Config.

Local Close Scope Q_scope.

#[local] Arguments call_gemini_with_model_iteration : simpl never.

(** X19. The turns appended after a response pair every call with its
    result.  The scan of a response raises exactly the first exception
    among its calls.  When none raises, the scan leaves one log entry and
    one result part per requested call, in the order of the parts; a call
    is seen exactly when the response requests one; and then the
    conversation grows by a model turn with exactly the calls of this round
    (not of earlier rounds) and a user turn with their results, in the same
    order. *)
Theorem tool_turns_are_paired r text results conversation :
  snd (scan_response env r (mkScan text false results []))
  = response_exception env r
  /\ (response_exception env r = None ->
      tool_results (fst (scan_response env r (mkScan text false results [])))
      = results ++ map (run_call env) (calls_of r)
      /\ function_responses
           (fst (scan_response env r (mkScan text false results [])))
         = map (response_part env) (calls_of r)
      /\ (has_function_call
            (fst (scan_response env r (mkScan text false results [])))
          = true <-> calls_of r <> [])
      /\ (calls_of r <> [] ->
          extend_conversation conversation
            (tool_results
               (fst (scan_response env r (mkScan text false results []))))
            (function_responses
               (fst (scan_response env r (mkScan text false results []))))
          = conversation
            ++ [mkTurn "model" (map call_part (calls_of r));
                mkTurn "user" (map (response_part env) (calls_of r))])).
Proof.
  destruct (scan_response_spec env r text results) as [Hexc Hok].
  split; [exact Hexc|]. intros Hnone.
  destruct (Hok Hnone) as (_ & Ht & Hf & Hh). rewrite Ht, Hf, Hh.
  split; [done|]. split; [done|]. split.
  - by destruct (calls_of r).
  - intros Hne. rewrite (extend_with_round env) by done.
    unfold follow_up_turns. rewrite Hnone. by destruct (calls_of r).
Qed.

(** X20. The conversation only grows, and in whole rounds: at the exit
    of the loop it is the conversation the loop started with followed, for
    each response scanned that requested calls (and whose calls all
    returned), by one model turn with those calls and one user turn with as
    many results, in the order the responses came; at most [rounds_left]
    responses are scanned. *)
Theorem conversation_grows_in_rounds rounds_left iteration r text results
    conversation w :
  exists added,
    trace (snd (conversation_loop env cfg rounds_left iteration r text
                  results conversation w)) = trace w ++ added
    /\ loop_conversation
         (fst (conversation_loop env cfg rounds_left iteration r text
                 results conversation w))
       = conversation
         ++ flat_map (follow_up_turns env)
                     (take rounds_left (r :: received added))
    /\ conversation
       `prefix_of` loop_conversation
                     (fst (conversation_loop env cfg rounds_left iteration
                             r text results conversation w))
    /\ Forall (fun response =>
                 follow_up_turns env response = []
                 \/ exists calls_turn results_turn,
                      follow_up_turns env response
                      = [calls_turn; results_turn]
                      /\ role calls_turn = "model"
                      /\ role results_turn = "user"
                      /\ parts calls_turn <> []
                      /\ length (parts calls_turn)
                         = length (parts results_turn))
              (take rounds_left (r :: received added)).
Proof.
  destruct (conversation_loop_spec env cfg rounds_left iteration r text
              results conversation w)
    as (added & Htr & _ & _ & _ & Hconv & _).
  exists added. split; [done|]. split; [done|]. split.
  - rewrite Hconv. by eexists.
  - apply Forall_forall. intros response _. unfold follow_up_turns.
    destruct (response_exception env response); [by left|].
    destruct (calls_of response) as [|c calls]; [by left|right].
    eexists _, _. split; [done|]. cbn. rewrite !length_map. by repeat split.
Qed.

(** X21. A successful reply logs, in order, exactly the calls requested in
    the first [max_iterations] responses received, each with the result of
    [execute_function] on its name and arguments; calls requested in a
    fourth response are never executed. *)
Theorem tool_calls_log msg_text w :
  exists added,
    trace (snd (message env cfg msg_text w)) = trace w ++ added
    /\ (success (fst (message env cfg msg_text w)) = true ->
        tool_calls (fst (message env cfg msg_text w))
        = tool_log env (take max_iterations (received added))).
Proof.
  unfold message.
  set (conversation := [mkTurn "user" [text_part msg_text]]).
  destruct (call_gemini_events env conversation cfg w)
    as (added1 & Htr1 & Hev1).
  destruct (call_gemini_with_model_iteration env cfg conversation w)
    as [[[r0 model_used]|] w1]; cbn [fst snd] in *.
  - destruct Hev1 as [Hrec1 _].
    destruct (conversation_loop_spec env cfg max_iterations 0 r0 "" []
                conversation w1)
      as (added2 & Htr2 & _ & _ & _ & _ & Hlog & _).
    destruct (conversation_loop env cfg max_iterations 0 r0 "" []
                conversation w1) as [exit w2]; cbn [fst snd] in *.
    exists (added1 ++ added2).
    split; [destruct (loop_exception exit); [|destruct (loop_response exit)];
            cbn; by rewrite Htr2, Htr1, app_assoc|].
    destruct (loop_exception exit); [discriminate|].
    destruct (loop_response exit); cbn [fst success tool_calls];
      [|discriminate].
    intros _. by rewrite received_app, Hrec1, (Hlog eq_refl).
  - exists added1. split; [done|]. discriminate.
Qed.

Lemma terminal_excludes (tr : list event) :
  existsb is_terminal_failure tr = true ->
  forallb (fun e => negb (is_terminal_failure e)) tr = false.
Proof.
  induction tr as [|e tr IH]; [done|]. cbn.
  destruct (is_terminal_failure e); cbn; [done|]. exact IH.
Qed.

(** X22. The reply is a success exactly when no call of the model
    iteration in the run ended in the terminal failure and no exception
    was raised while the calls requested in the first [max_iterations]
    responses were executed.  Otherwise it is the error object, with an
    empty [tool_calls] and no [iterations]: with the "no available models"
    text when the first call failed, with the text of the exception when a
    tool call raised, and with the text of the [AttributeError] when a
    follow-up call failed, whatever text and tool results had been
    gathered by then. *)
Theorem reply_shape msg_text w :
  exists added,
    trace (snd (message env cfg msg_text w)) = trace w ++ added
    /\ (success (fst (message env cfg msg_text w)) = true <->
        forallb (fun e => negb (is_terminal_failure e)) added = true
        /\ first_exception env (take max_iterations (received added))
           = None)
    /\ (success (fst (message env cfg msg_text w)) = false ->
        received added = [] ->
        fst (message env cfg msg_text w) = error_reply no_models_message)
    /\ (forall error,
          first_exception env (take max_iterations (received added))
          = Some error ->
          fst (message env cfg msg_text w) = error_reply error)
    /\ (success (fst (message env cfg msg_text w)) = false ->
        received added <> [] ->
        first_exception env (take max_iterations (received added)) = None ->
        fst (message env cfg msg_text w)
        = error_reply none_candidates_message).
Proof.
  unfold message.
  set (conversation := [mkTurn "user" [text_part msg_text]]).
  destruct (call_gemini_events env conversation cfg w)
    as (added1 & Htr1 & Hev1).
  destruct (call_gemini_with_model_iteration env cfg conversation w)
    as [[[r0 model_used]|] w1]; cbn [fst snd] in *.
  - destruct Hev1 as [Hrec1 Hterm1].
    destruct (conversation_loop_spec env cfg max_iterations 0 r0 "" []
                conversation w1)
      as (added2 & Htr2 & _ & _ & Hraise & _ & _ & _ & Hexit).
    destruct (conversation_loop env cfg max_iterations 0 r0 "" []
                conversation w1) as [exit w2]; cbn [fst snd] in *.
    exists (added1 ++ added2).
    split; [destruct (loop_exception exit); [|destruct (loop_response exit)];
            cbn; by rewrite Htr2, Htr1, app_assoc|].
    assert (received (added1 ++ added2) <> []) as Hne.
    { by rewrite received_app, Hrec1. }
    revert Hne. rewrite received_app, Hrec1. cbn [app]. intros Hne.
    rewrite <- Hraise, forallb_app, Hterm1. cbn [andb].
    destruct (loop_exception exit) as [error|]; cbn [fst success].
    { split; [split; [done|by intros [_ ?]]|].
      split; [done|]. split; [by intros ? [= <-]|done]. }
    destruct (loop_response exit) as [r_exit|]; cbn [fst success].
    + destruct Hexit as (Hterm2 & _). by repeat split.
    + destruct Hexit as (Hterm2 & _). apply terminal_excludes in Hterm2.
      rewrite Hterm2. split; [split; [done|by intros [? _]]|].
      split; [done|]. split; [done|]. done.
  - destruct Hev1 as [Hrec Hterm]. exists added1. split; [done|].
    apply terminal_excludes in Hterm. rewrite Hterm, Hrec. cbn.
    split; [split; [done|by intros [? _]]|].
    split; [done|]. split; [done|]. by intros _ Hne.
Qed.

(** X23. A first response without any function call is answered in one
    round: the reply is a success with [iterations = 1], an empty
    [tool_calls] and the last non-empty text of that response (the empty
    text when it has none), and the handler makes no further call of the
    model iteration. *)
Theorem answer_without_tools msg_text w r0 model_used :
  fst (call_gemini_with_model_iteration env cfg
         [mkTurn "user" [text_part msg_text]] w) = Some (r0, model_used) ->
  calls_of r0 = [] ->
  message env cfg msg_text w
  = (mkReply true (extract_final_text r0 "") [] (Some 1),
     snd (call_gemini_with_model_iteration env cfg
            [mkTurn "user" [text_part msg_text]] w)).
Proof.
  intros Hfirst Hcalls. unfold message.
  destruct (call_gemini_with_model_iteration env cfg
              [mkTurn "user" [text_part msg_text]] w) as [res w1].
  cbn [fst snd] in *. subst res. unfold max_iterations.
  cbn [conversation_loop].
  destruct (scan_response_spec env r0 "" []) as [Hexc Hok].
  assert (response_exception env r0 = None) as Hnone.
  { unfold response_exception. by rewrite Hcalls. }
  destruct (Hok Hnone) as (Htext & Ht & _ & Hh).
  rewrite Hnone in Hexc. rewrite Hcalls in Ht, Hh.
  destruct (scan_response env r0 (mkScan "" false [] [])) as [s exception].
  cbn [fst snd] in *. subst exception. rewrite Hh.
  cbn [negb loop_exception loop_response loop_final_text loop_tool_results
       loop_iteration].
  by rewrite Ht, Htext, (extract_idempotent r0).
Qed.

End HandlerMore.

Section HandlerRunsMore.
Import Executor Handler.

Lemma tool_turns_are_paired_witness :
  extend_conversation followup_conversation
    (tool_results
       (fst (scan_response always_tool_env [[tool_request; tool_request]]
               (mkScan "" false [] []))))
    (function_responses
       (fst (scan_response always_tool_env [[tool_request; tool_request]]
               (mkScan "" false [] []))))
  = followup_conversation
    ++ [mkTurn "model"
          (map call_part (calls_of [[tool_request; tool_request]]));
        mkTurn "user"
          (map (response_part always_tool_env)
               (calls_of [[tool_request; tool_request]]))].
Proof.
  destruct (tool_turns_are_paired always_tool_env
              [[tool_request; tool_request]] "" [] followup_conversation)
    as [_ Hcompleted].
  destruct Hcompleted as (_ & _ & _ & Hturns); [vm_compute; reflexivity|].
  apply Hturns. discriminate.
Defined.

Lemma tool_calls_log_witness :
  tool_calls (fst (message always_tool_env two_models
                     "Is a 5 nm carbon dot toxic?" Pacer.idle))
  = tool_log always_tool_env
      (take max_iterations
         (received (trace (snd (message always_tool_env two_models
                                  "Is a 5 nm carbon dot toxic?"
                                  Pacer.idle))))).
Proof.
  destruct (tool_calls_log always_tool_env two_models
              "Is a 5 nm carbon dot toxic?" Pacer.idle)
    as (added & Htr & Hlog).
  change (trace Pacer.idle ++ added) with added in Htr.
  rewrite Htr. apply Hlog. vm_compute. reflexivity.
Defined.

Lemma reply_shape_witness :
  fst (message followup_fails_env two_models "Is a 5 nm carbon dot toxic?"
         Pacer.idle)
  = error_reply none_candidates_message
  /\ fst (message limited_A_env two_models "Is a 5 nm carbon dot toxic?"
            (set_cache (fun _ => both_missing) Pacer.idle))
     = error_reply no_models_message
  /\ fst (message clash_env two_models "Is a 5 nm carbon dot toxic?"
            Pacer.idle)
     = error_reply multiple_values_message.
Proof.
  split; [|split].
  - destruct (reply_shape followup_fails_env two_models
                "Is a 5 nm carbon dot toxic?" Pacer.idle)
      as (added & Htr & _ & _ & _ & Hmid).
    change (trace Pacer.idle ++ added) with added in Htr. subst added.
    apply Hmid; [vm_compute; reflexivity|vm_compute; discriminate|].
    vm_compute. reflexivity.
  - destruct (reply_shape limited_A_env two_models
                "Is a 5 nm carbon dot toxic?"
                (set_cache (fun _ => both_missing) Pacer.idle))
      as (added & Htr & _ & Hfirst & _).
    change (trace (set_cache (fun _ => both_missing) Pacer.idle) ++ added)
      with added in Htr. subst added.
    apply Hfirst; vm_compute; reflexivity.
  - destruct (reply_shape clash_env two_models
                "Is a 5 nm carbon dot toxic?" Pacer.idle)
      as (added & Htr & _ & _ & Hraised & _).
    change (trace Pacer.idle ++ added) with added in Htr. subst added.
    apply Hraised. vm_compute. reflexivity.
Defined.

Lemma answer_without_tools_witness :
  message limited_A_env two_models "Hello" Pacer.idle
  = (mkReply true (extract_final_text (text_response "ok") "") []
       (Some 1%nat),
     snd (call_gemini_with_model_iteration limited_A_env two_models
            [mkTurn "user" [text_part "Hello"]] Pacer.idle)).
Proof.
  apply (answer_without_tools limited_A_env two_models "Hello" Pacer.idle
           (text_response "ok") "models/gemini-2.5-flash").
  - vm_compute. reflexivity.
  - reflexivity.
Defined.

End HandlerRunsMore.

(** ** Start-up *)

Section StartupFacts.
Import Selector Startup.

Lemma split_cons sep s : exists segment segments,
  split sep s = segment :: segments.
Proof.
  destruct s as [|ch rest]; cbn; [by eexists _, _|].
  destruct (Ascii.eqb ch sep); [by eexists _, _|].
  destruct (split sep rest); by eexists _, _.
Qed.

Example startup_example :
  PRIMARY_MODEL (startup example_listing false)
  = "models/gemini-2.5-flash-preview-tts"
  /\ FALLBACK_MODEL (startup example_listing false)
     = "models/gemini-2.0-flash"
  /\ map display_name (AVAILABLE_MODELS (startup example_listing false))
     = ["gemini-2.5-flash-preview-tts"; "gemini-2.5-pro";
        "gemini-2.5-flash"; "gemini-2.0-flash"]
  /\ map short_name (AVAILABLE_MODELS (startup example_listing false))
     = ["gemini-2.5-flash-preview"; "gemini-2.5"; "gemini-2.5";
        "gemini-2.0"].
Proof. repeat split; reflexivity. Qed.

(** A listed name whose display name contains a non-empty text is not
    empty. *)
Lemma match_truthy wanted name :
  truthy wanted = true ->
  display_matches wanted (make_info name) = true ->
  truthy name = true.
Proof.
  intros Hw Hm. destruct name as [|ch rest]; [|done].
  destruct wanted; [done|]. discriminate.
Qed.

Lemma find_primary_result priorities available : forall current,
  truthy_opt (find_primary priorities available current) = true ->
  find_primary priorities available current = current
  \/ exists m wanted,
       In m available /\ In wanted priorities
       /\ display_matches wanted m = true
       /\ find_primary priorities available current = Some (full_name m).
Proof.
  induction priorities as [|p ps IH]; intros current Ht; [by left|].
  cbn [find_primary] in *.
  destruct (List.find (display_matches p) available) as [m|] eqn:Hfind.
  - apply List.find_some in Hfind as [Hin Hm].
    destruct (truthy_opt (Some (full_name m))) eqn:Htm.
    + right. exists m, p. repeat split; [done|by left|done].
    + destruct (IH _ Ht) as [Heq|(m' & w & Hin' & Hw & Hm' & Heq)].
      * right. exists m, p. repeat split; [done|by left|done|done].
      * right. exists m', w. repeat split; [done|by right|done|done].
  - destruct (truthy_opt current) eqn:Htc; [by left|].
    destruct (IH _ Ht) as [Heq|(m' & w & Hin' & Hw & Hm' & Heq)];
      [by left|].
    right. exists m', w. repeat split; [done|by right|done|done].
Qed.

Lemma find_fallback_result candidates available primary : forall current,
  truthy_opt (find_fallback candidates available primary current) = true ->
  find_fallback candidates available primary current = current
  \/ exists m wanted,
       In m available /\ In wanted candidates
       /\ display_matches wanted m = true
       /\ Some (full_name m) <> primary
       /\ find_fallback candidates available primary current
          = Some (full_name m).
Proof.
  induction candidates as [|p ps IH]; intros current Ht; [by left|].
  cbn [find_fallback] in *.
  destruct (List.find _ available) as [m|] eqn:Hfind.
  - apply List.find_some in Hfind as [Hin Hm].
    apply andb_true_iff in Hm as [Hm Hne].
    apply negb_true_iff, bool_decide_eq_false in Hne.
    destruct (truthy_opt (Some (full_name m))) eqn:Htm.
    + right. exists m, p. repeat split; [done|by left|done|done].
    + destruct (IH _ Ht) as [Heq|(m' & w & Hin' & Hw & Hm' & Hne' & Heq)].
      * right. exists m, p. repeat split; [done|by left|done|done|done].
      * right. exists m', w. repeat split; [done|by right|done|done|done].
  - destruct (truthy_opt current) eqn:Htc; [by left|].
    destruct (IH _ Ht) as [Heq|(m' & w & Hin' & Hw & Hm' & Hne' & Heq)];
      [by left|].
    right. exists m', w. repeat split; [done|by right|done|done|done].
Qed.

Lemma find_first {A} (f : A -> bool) (before : list A) x (after : list A) :
  (forall y, In y before -> f y = false) -> f x = true ->
  List.find f (before ++ x :: after) = Some x.
Proof.
  intros Hbefore Hx. induction before as [|y before IH]; cbn.
  - by rewrite Hx.
  - rewrite (Hbefore y) by (by left). apply IH. intros z Hz.
    apply Hbefore. by right.
Qed.

Lemma find_nothing {A} (f : A -> bool) (l : list A) :
  (forall y, In y l -> f y = false) -> List.find f l = None.
Proof.
  intros Hall. induction l as [|y l IH]; [done|]. cbn.
  rewrite (Hall y) by (by left). apply IH. intros z Hz. apply Hall.
  by right.
Qed.

(** The first priority with a match decides, and for it the first listed
    match. *)
Lemma find_primary_first (skipped : list string) wanted
    (rest : list string) (before : list ModelInfo) m
    (after : list ModelInfo) :
  (forall q y, In q skipped -> In y (before ++ m :: after) ->
               display_matches q y = false) ->
  (forall y, In y before -> display_matches wanted y = false) ->
  display_matches wanted m = true ->
  truthy (full_name m) = true ->
  find_primary (skipped ++ wanted :: rest) (before ++ m :: after) None
  = Some (full_name m).
Proof.
  intros Hskipped Hbefore Hm Ht.
  induction skipped as [|q skipped IH]; cbn [app find_primary].
  - rewrite (find_first _ before m after Hbefore Hm). cbn. by rewrite Ht.
  - rewrite find_nothing
      by (intros y Hy; apply Hskipped; [by left|done]).
    cbn. apply IH. intros q' y Hq' Hy. apply Hskipped; [by right|done].
Qed.

(** A listing that holds the default primary name sets the primary. *)
Lemma default_primary_found (available : list ModelInfo) current :
  In (make_info DEFAULT_PRIMARY) available ->
  (forall m, In m available -> exists name, m = make_info name) ->
  truthy_opt (find_primary priority_models available current) = true.
Proof.
  intros Hin Hall. unfold priority_models. cbn [find_primary].
  destruct (List.find (display_matches "gemini-2.5-flash") available)
    as [m|] eqn:Hfind.
  - apply List.find_some in Hfind as [Hm Hmatch].
    destruct (Hall m Hm) as (name & ->).
    assert (truthy name = true) as Ht
      by (by apply (match_truthy "gemini-2.5-flash")).
    cbn [truthy_opt full_name make_info]. by rewrite Ht.
  - pose proof (List.find_none _ _ Hfind _ Hin) as Hno. discriminate.
Qed.

(** X24. The start-up block always leaves two non-empty model names.  The
    primary is the built-in default or a listed model whose display name
    contains one of the priorities; the fallback is the built-in default
    or a listed model, other than the primary, whose display name contains
    one of the fallback candidates (so the two coincide only when the
    fallback is the default); a listing that raises gives both
    defaults. *)
Theorem startup_models listed raised :
  truthy (PRIMARY_MODEL (startup listed raised)) = true
  /\ truthy (FALLBACK_MODEL (startup listed raised)) = true
  /\ (PRIMARY_MODEL (startup listed raised) = DEFAULT_PRIMARY
      \/ (PRIMARY_MODEL (startup listed raised) ∈ listed
          /\ exists wanted,
               wanted ∈ priority_models
               /\ display_matches wanted
                    (make_info (PRIMARY_MODEL (startup listed raised)))
                  = true))
  /\ (FALLBACK_MODEL (startup listed raised) = DEFAULT_FALLBACK
      \/ (FALLBACK_MODEL (startup listed raised) ∈ listed
          /\ FALLBACK_MODEL (startup listed raised)
             <> PRIMARY_MODEL (startup listed raised)
          /\ exists wanted,
               wanted ∈ fallback_candidates
               /\ display_matches wanted
                    (make_info (FALLBACK_MODEL (startup listed raised)))
                  = true))
  /\ (raised = true ->
      PRIMARY_MODEL (startup listed raised) = DEFAULT_PRIMARY
      /\ FALLBACK_MODEL (startup listed raised) = DEFAULT_FALLBACK).
Proof.
  unfold startup. destruct raised.
  { cbn. repeat split; by left. }
  cbn [PRIMARY_MODEL FALLBACK_MODEL].
  set (available := map make_info listed).
  set (primary := find_primary priority_models available None).
  set (fallback := find_fallback fallback_candidates available primary None).
  assert (forall m, In m available ->
                    exists name, name ∈ listed /\ m = make_info name)
    as Havailable.
  { intros m Hm. apply List.in_map_iff in Hm as (name & <- & Hin).
    exists name. by rewrite list_elem_of_In. }
  split; [destruct primary as [p|]; [destruct (truthy p) eqn:E|]; done|].
  split; [destruct fallback as [f|]; [destruct (truthy f) eqn:E|]; done|].
  split; [|split; [|done]].
  - destruct (truthy_opt primary) eqn:Ht.
    + destruct (find_primary_result priority_models available None Ht)
        as [Heq|(m & w & Hin & Hw & Hm & Heq)].
      * fold primary in Heq. rewrite Heq. by left.
      * fold primary in Heq. rewrite Heq in *. cbn in Ht. rewrite Ht.
        destruct (Havailable m Hin) as (name & Hname & ->).
        right. split; [done|]. exists w. by rewrite list_elem_of_In.
    + left. destruct primary as [p|]; [|done]. cbn in Ht. by rewrite Ht.
  - destruct (truthy_opt fallback) eqn:Ht.
    + destruct (find_fallback_result fallback_candidates available primary
                  None Ht) as [Heq|(m & w & Hin & Hw & Hm & Hne & Heq)].
      * fold fallback in Heq. rewrite Heq. by left.
      * fold fallback in Heq. rewrite Heq in *. cbn in Ht. rewrite Ht.
        destruct (Havailable m Hin) as (name & Hname & ->).
        cbn [full_name make_info] in *.
        right. split; [done|]. split; [|exists w; by rewrite list_elem_of_In].
        destruct (truthy_opt primary) eqn:Htp.
        -- destruct primary as [p|]; [|done]. cbn in Htp. rewrite Htp.
           congruence.
        -- assert (name <> DEFAULT_PRIMARY) as Hdefault.
           { intros ->. subst primary.
             rewrite default_primary_found in Htp; [done|done|].
             intros y Hy. destruct (Havailable y Hy) as (n & _ & ->).
             by eexists. }
           destruct primary as [p|]; [|done]. cbn in Htp. by rewrite Htp.
    + left. destruct fallback as [f|]; [|done]. cbn in Ht. by rewrite Ht.
Qed.

Lemma startup_models_witness :
  PRIMARY_MODEL (startup example_listing true) = DEFAULT_PRIMARY
  /\ FALLBACK_MODEL (startup example_listing true) = DEFAULT_FALLBACK.
Proof.
  destruct (startup_models example_listing true) as (_ & _ & _ & _ & H).
  apply H. reflexivity.
Defined.

(** X25. The primary follows the order of the priorities before the order
    of the listing: when no listed display name contains an earlier
    priority, the primary is the first listed model whose lowered display
    name contains this one, as a substring and without any test of what
    kind of model it is. *)
Theorem primary_follows_priority listed skipped wanted rest before name
    after :
  priority_models = skipped ++ wanted :: rest ->
  listed = before ++ name :: after ->
  (forall q n, q ∈ skipped -> n ∈ listed ->
               display_matches q (make_info n) = false) ->
  (forall n, n ∈ before -> display_matches wanted (make_info n) = false) ->
  display_matches wanted (make_info name) = true ->
  PRIMARY_MODEL (startup listed false) = name.
Proof.
  intros Hp Hl Hskipped Hbefore Hm.
  assert (truthy wanted = true) as Hw.
  { assert (Forall (fun p => truthy p = true) priority_models) as Hall
      by (repeat constructor).
    rewrite Hp in Hall. apply Forall_app in Hall as [_ Hall].
    by apply Forall_cons in Hall as [Hall _]. }
  assert (truthy name = true) as Ht by (by apply (match_truthy wanted)).
  unfold startup. cbn [PRIMARY_MODEL]. rewrite Hp, Hl, map_app. cbn [map].
  rewrite (find_primary_first skipped wanted rest (map make_info before)
             (make_info name) (map make_info after)).
  - cbn [full_name make_info]. by rewrite Ht.
  - intros q y Hq Hy. rewrite <- (map_cons make_info), <- map_app, <- Hl in Hy.
    apply List.in_map_iff in Hy as (n & <- & Hn).
    apply Hskipped; by rewrite list_elem_of_In.
  - intros y Hy. apply List.in_map_iff in Hy as (n & <- & Hn).
    apply Hbefore. by rewrite list_elem_of_In.
  - done.
  - done.
Qed.

Lemma primary_follows_priority_witness :
  PRIMARY_MODEL (startup example_listing false)
  = "models/gemini-2.5-flash-preview-tts"
  /\ PRIMARY_MODEL
       (startup ["models/gemini-2.0-flash"; "models/text-embedding-004";
                 "models/gemini-2.5-pro"] false)
     = "models/gemini-2.5-pro".
Proof.
  split;
    [|apply (primary_follows_priority
               ["models/gemini-2.0-flash"; "models/text-embedding-004";
                "models/gemini-2.5-pro"]
               ["gemini-2.5-flash"] "gemini-2.5-pro"
               ["gemini-2.0-flash"; "gemini-2.0-flash-001";
                "gemini-2.0-flash-exp"]
               ["models/gemini-2.0-flash"; "models/text-embedding-004"]
               "models/gemini-2.5-pro" []);
     [reflexivity|reflexivity| | |reflexivity]].
  2:{ intros q n Hq Hn. apply list_elem_of_singleton in Hq. subst q.
      rewrite !elem_of_cons, elem_of_nil in Hn.
      destruct Hn as [->|[->|[->|[]]]]; reflexivity. }
  2:{ intros n Hn. rewrite !elem_of_cons, elem_of_nil in Hn.
      destruct Hn as [->|[->|[]]]; reflexivity. }
  apply (primary_follows_priority example_listing [] "gemini-2.5-flash"
           ["gemini-2.5-pro"; "gemini-2.0-flash"; "gemini-2.0-flash-001";
            "gemini-2.0-flash-exp"]
           [] "models/gemini-2.5-flash-preview-tts"
           ["models/gemini-2.5-pro"; "models/gemini-2.5-flash";
            "models/gemini-2.0-flash"]).
  - reflexivity.
  - reflexivity.
  - intros q n Hq. by apply elem_of_nil in Hq.
  - intros n Hn. by apply elem_of_nil in Hn.
  - reflexivity.
Defined.

(** *** Names *)

Lemma string_app_assoc (a b c : string) :
  (a +:+ b) +:+ c = a +:+ (b +:+ c).
Proof.
  induction a as [|ch a IH]; [done|].
  change (String ch ((a +:+ b) +:+ c) = String ch (a +:+ b +:+ c)).
  by rewrite IH.
Qed.

Lemma join_split sep s : join (String sep EmptyString) (split sep s) = s.
Proof.
  induction s as [|ch rest IH]; [done|]. cbn [split].
  destruct (split_cons sep rest) as (segment & segments & Hs).
  rewrite Hs in *. destruct (Ascii.eqb ch sep) eqn:Hch.
  - apply Ascii.eqb_eq in Hch as ->. rewrite <- IH. reflexivity.
  - rewrite <- IH. by destruct segments.
Qed.

Lemma join_snoc sep (l : list string) x :
  l <> [] -> join sep (l ++ [x]) = join sep l +:+ sep +:+ x.
Proof.
  induction l as [|y l IH]; [done|]. intros _.
  destruct l as [|z l]; [done|].
  change (join sep ((y :: z :: l) ++ [x]))
    with (y +:+ sep +:+ join sep ((z :: l) ++ [x])).
  rewrite IH by done.
  change (join sep (y :: z :: l)) with (y +:+ sep +:+ join sep (z :: l)).
  by rewrite !string_app_assoc.
Qed.

(** The characters of a string. *)
Lemma split_segments_clean sep s :
  Forall (fun segment =>
            forall ch, In ch (list_ascii_of_string segment) -> ch <> sep)
         (split sep s).
Proof.
  induction s as [|ch rest IH]; [repeat constructor; by intros ? []|].
  cbn [split]. destruct (split_cons sep rest) as (segment & segments & Hs).
  rewrite Hs in *. apply Forall_cons in IH as [Hseg Hrest].
  destruct (Ascii.eqb ch sep) eqn:Hch.
  - constructor; [by intros ? []|]. by constructor.
  - apply Ascii.eqb_neq in Hch. constructor; [|done].
    intros c [<-|Hc]; [done|by apply Hseg].
Qed.

(** A string is its segments but the last, joined, then the separator,
    then the last segment; or the last segment alone when there is no
    separator. *)
Lemma split_last sep s :
  (forall ch, In ch (list_ascii_of_string (last_segment sep s)) ->
              ch <> sep)
  /\ ((removelast (split sep s) = [] /\ s = last_segment sep s)
      \/ (removelast (split sep s) <> []
          /\ s = join (String sep EmptyString) (removelast (split sep s))
                 +:+ String sep EmptyString +:+ last_segment sep s)).
Proof.
  unfold last_segment.
  destruct (split_cons sep s) as (segment & segments & Hs).
  assert (split sep s <> []) as Hne by (by rewrite Hs).
  pose proof (List.app_removelast_last EmptyString Hne) as Hsplit.
  split.
  - pose proof (split_segments_clean sep s) as Hclean.
    rewrite Hsplit in Hclean. apply Forall_app in Hclean as [_ Hclean].
    by apply Forall_cons in Hclean as [Hclean _].
  - pose proof (join_split sep s) as Hjoin. rewrite Hsplit in Hjoin.
    destruct (removelast (split sep s)) as [|y l] eqn:Hrl.
    + left. split; [done|]. symmetry. exact Hjoin.
    + right. split; [done|]. rewrite <- join_snoc by done.
      symmetry. exact Hjoin.
Qed.

(** X26. The entry built for a listed model: its full name is the listed
    name; its display name has no [/] and is the end of the full name,
    after the last [/] when there is one; its short name is the display
    name up to its last [-], which it drops together with the segment
    after it (a version number or not), and is empty when the display name
    has no [-]. *)
Theorem make_info_names name :
  full_name (make_info name) = name
  /\ (forall ch, In ch (list_ascii_of_string (display_name (make_info name)))
                 -> ch <> "/"%char)
  /\ (name = display_name (make_info name)
      \/ exists before,
           name = before +:+ "/" +:+ display_name (make_info name))
  /\ ((short_name (make_info name) = EmptyString
       /\ forall ch,
            In ch (list_ascii_of_string (display_name (make_info name))) ->
            ch <> "-"%char)
      \/ exists dropped,
           display_name (make_info name)
           = short_name (make_info name) +:+ "-" +:+ dropped
           /\ forall ch, In ch (list_ascii_of_string dropped) ->
                         ch <> "-"%char).
Proof.
  cbn [make_info full_name display_name short_name].
  destruct (split_last "/" name) as (Hclean & Hname).
  destruct (split_last "-" (last_segment "/" name)) as (Hclean' & Hdisplay).
  split; [done|]. split; [done|]. split.
  - destruct Hname as [[_ H]|[_ H]]; [by left|right]. by eexists.
  - destruct Hdisplay as [[Hrl H]|[_ H]].
    + left. rewrite Hrl. split; [done|]. by rewrite H.
    + right. by eexists.
Qed.

End StartupFacts.

(** ** Health report and dispatcher *)

Section HealthFacts.
Import Cache CacheOps Status Health Startup.

Lemma startup_truthy listed raised :
  truthy (PRIMARY_MODEL (startup listed raised)) = true
  /\ truthy (FALLBACK_MODEL (startup listed raised)) = true.
Proof.
  unfold startup. destruct raised; [done|].
  cbn [PRIMARY_MODEL FALLBACK_MODEL]. split.
  - destruct (find_primary priority_models (map make_info listed) None)
      as [p|]; [destruct (truthy p) eqn:E|]; done.
  - destruct (find_fallback fallback_candidates (map make_info listed)
                (find_primary priority_models (map make_info listed) None)
                None) as [f|]; [destruct (truthy f) eqn:E|]; done.
Qed.

(** X27. [health_check] after start-up always names both models, by a
    display name without [/]; and the counts of working and of
    not-found models it reports never go down under failures, successes
    and queries: only a reset or a clearing takes models out of these
    sets. *)
Theorem health_report listed raised c op :
  (exists primary fallback,
     primary_model (health_check (startup listed raised) c) = Some primary
     /\ fallback_model (health_check (startup listed raised) c)
        = Some fallback
     /\ (forall ch, In ch (list_ascii_of_string primary) -> ch <> "/"%char)
     /\ (forall ch, In ch (list_ascii_of_string fallback) ->
                    ch <> "/"%char))
  /\ (op <> op_reset -> (forall ty, op <> op_clear ty) ->
      (count_working_models (cache_status (health_check
                                             (startup listed raised) c))
       <= count_working_models
            (cache_status (health_check (startup listed raised)
                             (apply_op c op))))%nat
      /\ (count_not_found (cache_status (health_check
                                           (startup listed raised) c))
          <= count_not_found
               (cache_status (health_check (startup listed raised)
                                (apply_op c op))))%nat).
Proof.
  split.
  - destruct (startup_truthy listed raised) as [Hp Hf].
    unfold health_check. cbn [primary_model fallback_model].
    rewrite Hp, Hf. eexists _, _. split; [done|]. split; [done|].
    split; apply split_last.
  - intros Hreset Hclear. cbn.
    assert (working c ⊆ working (apply_op c op)
            /\ not_found c ⊆ not_found (apply_op c op)) as [Hw Hn].
    { destruct op as [now m ty msg|m|now m| |ty]; cbn.
      - rewrite failure_working. split; [done|].
        unfold cache_model_failure.
        destruct (decide (ty = "not_found"));
          [cbn; apply union_subseteq_r|].
        destruct (decide (ty = "quota_exhausted")); [done|].
        destruct (decide (ty = "rate_limited")); [done|].
        by destruct (decide (ty = "other_error")).
      - split; [apply union_subseteq_r|done].
      - by rewrite after_query_working, after_query_not_found.
      - done.
      - by destruct (Hclear ty). }
    split; by apply subseteq_size.
Qed.

End HealthFacts.

Section DispatcherFacts.
Import Dispatcher.

(** X28. The call [execute_function(function_name, **kwargs)] raises
    exactly when the keyword arguments hold the key [function_name], and
    then the [TypeError] of the argument binding, whatever the name.
    Otherwise it turns every failure into a value.  A name outside the four
    registered functions gives, without running any tool, a dictionary with
    [success] false and an error text that starts "Unknown function: "
    followed by the name; for a registered name the tool's own dictionary
    is passed through unchanged, and a [TypeError] or any other exception
    of the tool gives a dictionary with [success] false and an [error]
    text. *)
Theorem execute_function_outcomes tools function_name kwargs :
  (forall error,
     execute_function tools function_name kwargs = inr error <->
     is_Some (dict_get "function_name" kwargs)
     /\ error = multiple_values_message)
  /\ (is_Some (dict_get function_name (AVAILABLE_FUNCTIONS tools)) <->
      function_name
      ∈ ["predict_toxicity_without_family"; "predict_toxicity_with_family";
         "explain_toxicity_prediction_without_family";
         "explain_toxicity_prediction_with_family"])
  /\ (dict_get "function_name" kwargs = None ->
      dict_get function_name (AVAILABLE_FUNCTIONS tools) = None ->
      exists result rest,
        (forall tools',
           execute_function tools' function_name kwargs = inl result)
        /\ dict_get "success" result = Some (VBool false)
        /\ dict_get "error" result
           = Some (VStr ("Unknown function: " +:+ function_name +:+ rest)))
  /\ (forall func,
        dict_get "function_name" kwargs = None ->
        dict_get function_name (AVAILABLE_FUNCTIONS tools) = Some func ->
        match func kwargs with
        | tool_returned result =>
            execute_function tools function_name kwargs = inl result
        | tool_type_error message | tool_exception message =>
            exists result text,
              execute_function tools function_name kwargs = inl result
              /\ dict_get "success" result = Some (VBool false)
              /\ dict_get "error" result
                 = Some (VStr (text +:+ function_name +:+ ": "
                               +:+ message))
        end).
Proof.
  assert (forall tools0,
            dict_get function_name (AVAILABLE_FUNCTIONS tools0) = None <->
            function_name
            ∉ ["predict_toxicity_without_family";
               "predict_toxicity_with_family";
               "explain_toxicity_prediction_without_family";
               "explain_toxicity_prediction_with_family"]) as Hnone.
  { intros tools0. rewrite !not_elem_of_cons.
    cbn [AVAILABLE_FUNCTIONS dict_get].
    destruct (String.eqb_spec "predict_toxicity_without_family"
                function_name) as [<-|H1]; [split; [done|tauto]|].
    destruct (String.eqb_spec "predict_toxicity_with_family"
                function_name) as [<-|H2]; [split; [done|tauto]|].
    destruct (String.eqb_spec "explain_toxicity_prediction_without_family"
                function_name) as [<-|H3]; [split; [done|tauto]|].
    destruct (String.eqb_spec "explain_toxicity_prediction_with_family"
                function_name) as [<-|H4]; [split; [done|tauto]|].
    split; [|done]. intros _. repeat split; try congruence.
    apply not_elem_of_nil. }
  split; [|split; [|split]].
  - intros error. unfold execute_function, keyword_clash.
    destruct (dict_get "function_name" kwargs) as [v|].
    + split; [intros [= <-]; by eauto|by intros [_ ->]].
    + split; [done|]. by intros [[v Hv] _].
  - rewrite <- not_eq_None_Some, (Hnone tools).
    split; [|tauto]. intros H. by apply dec_stable.
  - intros Hbound Hmissing.
    exists (dispatch tools function_name kwargs). eexists.
    unfold execute_function, keyword_clash, dispatch.
    rewrite Hbound, Hmissing. split; [|split; reflexivity].
    intros tools'. apply (Hnone tools) in Hmissing.
    apply (Hnone tools') in Hmissing. by rewrite Hmissing.
  - intros func Hbound Hfunc.
    unfold execute_function, keyword_clash, dispatch.
    rewrite Hbound, Hfunc.
    destruct (func kwargs) as [result|message|message]; [done|..];
      eexists _, _; (split; [reflexivity|]); split; reflexivity.
Qed.

Lemma execute_function_outcomes_witness :
  execute_function strict_tools "predict_toxicity_with_family"
    [("function_name", VStr "predict_toxicity_with_family");
     ("Dose", VNum 25)]
  = inr multiple_values_message
  /\ (exists result rest,
        (forall tools',
           execute_function tools' "predict_toxicity" [("Dose", VNum 25)]
           = inl result)
        /\ dict_get "success" result = Some (VBool false)
        /\ dict_get "error" result
           = Some (VStr ("Unknown function: " +:+ "predict_toxicity"
                         +:+ rest)))
  /\ (exists result text,
        execute_function strict_tools "predict_toxicity_with_family"
          [("ParticleSize", VNum 5)] = inl result
        /\ dict_get "success" result = Some (VBool false)
        /\ dict_get "error" result
           = Some (VStr (text +:+ "predict_toxicity_with_family" +:+ ": "
                         +:+ "missing 1 required positional argument: 'Dose'"))).
Proof.
  split; [|split].
  - destruct (execute_function_outcomes strict_tools
                "predict_toxicity_with_family"
                [("function_name", VStr "predict_toxicity_with_family");
                 ("Dose", VNum 25)]) as (Hraises & _).
    apply Hraises. split; [by eexists|reflexivity].
  - destruct (execute_function_outcomes strict_tools "predict_toxicity"
                [("Dose", VNum 25)]) as (_ & _ & Hunknown & _).
    apply Hunknown; reflexivity.
  - destruct (execute_function_outcomes strict_tools
                "predict_toxicity_with_family" [("ParticleSize", VNum 5)])
      as (_ & _ & _ & Hknown).
    apply (Hknown strict_tool eq_refl eq_refl).
Defined.

End DispatcherFacts.

(** The handler's call, with the body of the dispatcher as the
    environment's [execute_function], is the dispatcher's call. *)
Lemma handler_calls_dispatcher env tools function_name kwargs :
  execute_function env = Dispatcher.dispatch tools ->
  Handler.call_execute_function env function_name kwargs
  = Dispatcher.execute_function tools function_name kwargs.
Proof.
  intros Hbody.
  unfold Handler.call_execute_function, Dispatcher.execute_function.
  by rewrite Hbody.
Qed.

Section HealthRuns.
Import Cache CacheOps Status Health Startup.

Lemma health_report_witness :
  (count_working_models
     (cache_status (health_check (startup example_listing false)
                      worked_then_limited))
   <= count_working_models
        (cache_status
           (health_check (startup example_listing false)
              (apply_op worked_then_limited
                 (op_failure 5 "m" "quota_exhausted" "")))))%nat.
Proof.
  destruct (health_report example_listing false worked_then_limited
              (op_failure 5 "m" "quota_exhausted" "")) as [_ H].
  apply H; discriminate.
Defined.

End HealthRuns.
